(** * LiveRouteScrapper: record linkage and aggregation engine

    A shallow embedding of the pure core of [backend/script/liveRouteScrapper.ts]:
    the normalisers, the route-key index, the record merger, the unmatched
    collector, the fuzzy location matcher, the per-shipment coordinate
    resolver and the Up/Down aggregator.

    Conventions of the embedding.
    - A JavaScript string is a [string]: a sequence of 8-bit characters,
      read as the code units U+0000 to U+00FF. On this range the whitespace
      class [\s] (and what [trim] and [parseInt] skip) is tab, line feed,
      vertical tab, form feed, carriage return, space and no-break space;
      [toLowerCase] maps A-Z and the letters U+00C0 to U+00DE; [toUpperCase]
      maps a-z and the letters U+00E0 to U+00FE, and turns the sharp s
      (U+00DF) into the two letters SS. The upper-case forms of U+00B5 and
      U+00FF lie outside the range: [toUpperCase] is exact on the strings
      without these two characters, which it leaves in place (no other
      character of the range has either of them as its upper-case form, so
      two results are equal here exactly when they are in the program).
      Strings with code units above U+00FF are outside the embedding; the
      properties about the case of letters are therefore stated for ASCII
      strings or for the change of case of ASCII letters.
    - A JavaScript [number] that holds a measurement (hours, scores,
      coordinates) is a binary64 [float]; counters of vehicles are [nat].
    - [undefined] and [null] of an optional field are [None].
    - A JavaScript [Map] that is only read and written by key is a [gmap];
      the [Map] whose iteration order is returned to the caller is an
      association list in insertion order.
    - [console.warn] and [console.log] have no effect on the values
      returned and are left out. *)

From Stdlib Require Import ZArith String Ascii List Bool Lia.
From Stdlib Require Import PrimFloat SpecFloat FloatOps.
From stdpp Require Import gmap strings.
Import ListNotations.

Set Default Proof Using "Type".

(** ** JavaScript built-ins used by the program *)

Module JS.

(** *** Characters *)

Definition code (c : ascii) : N := N_of_ascii c.

(** The class [\s], which is also what [String.prototype.trim] and
    [parseInt] skip: below U+0100 these are U+0009 to U+000D, the space and
    the no-break space U+00A0. *)
Definition isWhite (c : ascii) : bool :=
  let n := code c in ((9 <=? n) && (n <=? 13) || (n =? 32) || (n =? 160))%N.

(** The classes [[a-z]], [[A-Z]] and [[0-9]] of the regular expressions. *)
Definition isLower (c : ascii) : bool :=
  let n := code c in ((97 <=? n) && (n <=? 122))%N.

Definition isUpper (c : ascii) : bool :=
  let n := code c in ((65 <=? n) && (n <=? 90))%N.

Definition isDigit (c : ascii) : bool :=
  let n := code c in ((48 <=? n) && (n <=? 57))%N.

(** The capital letters U+00C0 to U+00DE (all but the multiplication sign
    U+00D7) and the small letters U+00E0 to U+00FE (all but the division
    sign U+00F7), 32 code units apart. *)
Definition isUpperLatin (c : ascii) : bool :=
  let n := code c in ((192 <=? n) && (n <=? 222) && negb (n =? 215))%N.

Definition isLowerLatin (c : ascii) : bool :=
  let n := code c in ((224 <=? n) && (n <=? 254) && negb (n =? 247))%N.

(** The sharp s U+00DF: lower case, with the upper-case form SS. *)
Definition isSharpS (c : ascii) : bool := (code c =? 223)%N.

Definition lowerChar (c : ascii) : ascii :=
  if isUpper c || isUpperLatin c then ascii_of_N (code c + 32) else c.

(** The upper-case form of a character that has one character as its
    upper-case form within the range. *)
Definition upperChar (c : ascii) : ascii :=
  if isLower c || isLowerLatin c then ascii_of_N (code c - 32) else c.

Definition eqc (a b : ascii) : bool := Ascii.eqb a b.

(** *** Strings *)

Fixpoint smap (f : ascii -> ascii) (s : string) : string :=
  match s with
  | EmptyString => EmptyString
  | String c r => String (f c) (smap f r)
  end.

(** [s.replace(/[class]/g, '')] and [s.replace(/[class]+/g, '')]. *)
Fixpoint remove (p : ascii -> bool) (s : string) : string :=
  match s with
  | EmptyString => EmptyString
  | String c r => if p c then remove p r else String c (remove p r)
  end.

(** [s.toLowerCase()]: one character for each character. *)
Definition toLowerCase (s : string) : string := smap lowerChar s.

(** [s.toUpperCase()]: the sharp s becomes the two letters SS, so the
    result can be longer than the string. *)
Fixpoint toUpperCase (s : string) : string :=
  match s with
  | EmptyString => EmptyString
  | String c r =>
      if isSharpS c then String "S" (String "S" (toUpperCase r))
      else String (upperChar c) (toUpperCase r)
  end.

Definition isEmpty (s : string) : bool :=
  match s with EmptyString => true | String _ _ => false end.

(** Truthiness of a string: [!!s]. *)
Definition truthy (s : string) : bool := negb (isEmpty s).

Fixpoint trimStart (s : string) : string :=
  match s with
  | EmptyString => EmptyString
  | String c r => if isWhite c then trimStart r else s
  end.

Fixpoint trimEnd (s : string) : string :=
  match s with
  | EmptyString => EmptyString
  | String c r =>
      let r' := trimEnd r in
      if isWhite c && isEmpty r' then EmptyString else String c r'
  end.

Definition trim (s : string) : string := trimEnd (trimStart s).

(** [s.replace(/\s+/g, '')] *)
Definition removeWhite (s : string) : string := remove isWhite s.

(** [s.replace(/[class]+/g, ' ')]: every maximal run of characters of the
    class becomes one space. [inRun] tells that the previous character
    belonged to the run being replaced. *)
Fixpoint collapseRuns (p : ascii -> bool) (inRun : bool) (s : string) : string :=
  match s with
  | EmptyString => EmptyString
  | String c r =>
      if p c
      then (if inRun then collapseRuns p true r
            else String " " (collapseRuns p true r))
      else String c (collapseRuns p false r)
  end.

(** [s.replace(/\s+/g, ' ')] *)
Definition collapseWhite (s : string) : string := collapseRuns isWhite false s.

(** [s.replace(/c/g, ' ')] for one character [c]. *)
Definition replaceChar (c : ascii) (by_ : ascii) (s : string) : string :=
  smap (fun x => if eqc x c then by_ else x) s.

Definition consHead (c : ascii) (l : list string) : list string :=
  match l with
  | h :: t => String c h :: t
  | [] => [String c EmptyString]
  end.

(** [s.split(sep)] for a one-character separator: never the empty array. *)
Fixpoint split (sep : ascii) (s : string) : list string :=
  match s with
  | EmptyString => [EmptyString]
  | String c r =>
      if eqc c sep then EmptyString :: split sep r
      else consHead c (split sep r)
  end.

(** [s.split(/\s+/)]: the separators are the maximal runs of whitespace.
    [inSep] tells that the previous character was part of a separator. *)
Fixpoint splitRuns (inSep : bool) (s : string) : list string :=
  match s with
  | EmptyString => [EmptyString]
  | String c r =>
      if isWhite c
      then (if inSep then splitRuns true r
            else EmptyString :: splitRuns true r)
      else consHead c (splitRuns false r)
  end.

Definition splitWhite (s : string) : list string := splitRuns false s.

(** [parts[0]] of a [split] result, which is never empty. *)
Definition first (l : list string) : string := hd EmptyString l.

(** [parts[parts.length - 1]]; [None] stands for [undefined]. *)
Definition lastOpt {A} (l : list A) : option A := List.last (map Some l) None.

Fixpoint startsWith (p s : string) : bool :=
  match p, s with
  | EmptyString, _ => true
  | String a p', String b s' => eqc a b && startsWith p' s'
  | String _ _, EmptyString => false
  end.

(** [hay.includes(needle)] *)
Fixpoint includes (hay needle : string) : bool :=
  startsWith needle hay ||
  match hay with
  | EmptyString => false
  | String _ r => includes r needle
  end.

(** [l.find(p)]; [None] stands for [undefined]. *)
Definition find {A} (p : A -> bool) (l : list A) : option A := List.find p l.

(** *** Numbers *)

(** The binary64 value nearest to an integer. *)
Definition ofZ (z : Z) : float :=
  SF2Prim (binary_normalize prec emax z 0%Z false).

Definition ofNat (n : nat) : float := ofZ (Z.of_nat n).

Definition digitVal (c : ascii) : N := code c - 48.

(** The longest prefix of decimal digits, read as an integer; [None] when
    the string does not start with a digit. *)
Fixpoint digits (acc : option N) (s : string) : option N :=
  match s with
  | EmptyString => acc
  | String c r =>
      if isDigit c
      then digits (Some (10 * default 0%N acc + digitVal c)%N) r
      else acc
  end.

(** The values [parseInt(s, 10)] can return: [NaN], or an integer given by
    its sign and its magnitude ([Int true 0] is [-0]). *)
Inductive IntOrNaN : Type :=
| NaN
| Int (negative : bool) (magnitude : N).

(** The number itself, as a binary64 value. *)
Definition toNumber (x : IntOrNaN) : float :=
  match x with
  | NaN => nan
  | Int false n => ofZ (Z.of_N n)
  | Int true n => PrimFloat.opp (ofZ (Z.of_N n))
  end.

(** [parseInt(s, 10)]: leading whitespace is skipped, one sign is read,
    then the longest run of decimal digits; [NaN] without a digit. *)
Definition parseInt (s : string) : IntOrNaN :=
  let t := trimStart s in
  let '(neg, body) :=
    match t with
    | String "-" r => (true, r)
    | String "+" r => (false, r)
    | _ => (false, t)
    end in
  match digits None body with
  | None => NaN
  | Some n => Int neg n
  end.

Definition isNaN (x : IntOrNaN) : bool :=
  match x with NaN => true | Int _ _ => false end.

(** [x || 0] where [x] is [parts[i]]: [undefined], [NaN], [0] and [-0]
    are falsy; a non-zero integer is itself. *)
Definition orZero (x : option IntOrNaN) : float :=
  match x with
  | Some (Int neg (Npos p)) => toNumber (Int neg (Npos p))
  | _ => 0%float
  end.

End JS.

(** ** Data model *)

Inductive TripSide : Type := Up | Down.

Module ParsedRow.
Record t : Type := mk {
  vehicleNumber : string;
  lastLocationDate : string;
  vehicleGroup : string;
  lastLocation : string;
  speedKmph : string;
  consignerName : string;
  consigneeName : string;
  dispatchDate : string;
  eta : string;
  plannedDistance : string;
  remainingDistance : string;
  tripStatus : string;
  delayTime : string;
  rpsNumber : string }.
End ParsedRow.

Module RouteIndexItem.
Record t : Type := mk {
  id : string;
  RouteName : string;
  Route_Side : option TripSide;
  Source : option string;
  Destination : option string;
  Middle_Stops : option (list string) }.
End RouteIndexItem.

(** [LiveMergedRow = ParsedRow & { ... }]: the spread row is kept as the
    field [rec]. *)
Module LiveMergedRow.
Record t : Type := mk {
  rec : ParsedRow.t;
  routeId : option string;
  routeName : option string;
  routeSource : option string;
  routeDestination : option string;
  routeSourceLat : option float;
  routeSourceLng : option float;
  routeDestinationLat : option float;
  routeDestinationLng : option float;
  routeSide : option TripSide;
  routeMiddleStops : option (list string);
  sourceExtracted : string;
  destinationExtracted : string;
  matchKey : string }.
End LiveMergedRow.

Module LiveRouteVehicleEntry.
Record t : Type := mk {
  vehicleNumber : string;
  rpsNumber : option string;
  dispatchDate : string;
  lastLocationDate : string;
  lastLocation : string;
  lateHours : float;
  middleStops : list string;
  expectedArrival : string;
  lat : option float;
  lng : option float }.
End LiveRouteVehicleEntry.

Module LiveRouteSideBucket.
Record t : Type := mk {
  totalVehicles : nat;
  lateVehicles : nat;
  vehicles : list LiveRouteVehicleEntry.t }.
End LiveRouteSideBucket.

Module LiveRouteRoute.
Record t : Type := mk {
  id : string;
  source : string;
  destination : string;
  sourceLat : option float;
  sourceLng : option float;
  destLat : option float;
  destLng : option float;
  up : LiveRouteSideBucket.t;
  down : LiveRouteSideBucket.t }.
End LiveRouteRoute.

Module UnmatchedRoutePair.
Record t : Type := mk {
  consignerName : string;
  consigneeName : string;
  sourceExtracted : string;
  destinationExtracted : string;
  matchKey : string }.
End UnmatchedRoutePair.

(** The value type of [coordsByVehicle]. *)
Module VehiclePos.
Record t : Type := mk { lat : option float; lng : option float }.
End VehiclePos.

Module LocationEntry.
Record t : Type := mk { rawName : string; lat : float; lng : float }.
End LocationEntry.

Module LocationMaps.
Record t : Type := mk {
  cityByNormName : gmap string LocationEntry.t;
  landmarkByNormCode : gmap string LocationEntry.t;
  landmarkByNormName : gmap string LocationEntry.t }.
End LocationMaps.

Module LocationRow.
Record t : Type := mk { name : string; Latitude : float; Longitude : float }.
End LocationRow.

Module LocationMatchScore.
Record t : Type := mk { score : float; byCode : bool }.
End LocationMatchScore.

(** ** Utilities *)

(** [normalizeLocationKey]: upper case, then whitespace, hyphens, periods
    and underscores are removed, in that order. *)
Definition normalizeLocationKey (s : string) : string :=
  JS.remove (JS.eqc "_")
    (JS.remove (JS.eqc ".")
       (JS.remove (JS.eqc "-")
          (JS.removeWhite (JS.toUpperCase s)))).

Definition normalizeSimple (name : string) : string :=
  JS.removeWhite (JS.toLowerCase name).

(** [str.match(/\(([^)]+)\)/g)]: the matches, left to right. [open] holds
    the characters read since the opening parenthesis of the match being
    attempted. A closing parenthesis right after the opening one ends the
    attempt without a match. *)
Fixpoint parenGroups (open : option string) (s : string) : list string :=
  match s with
  | EmptyString => []
  | String c r =>
      match open with
      | None =>
          if JS.eqc c "(" then parenGroups (Some EmptyString) r
          else parenGroups None r
      | Some acc =>
          if JS.eqc c ")"
          then (if JS.isEmpty acc then parenGroups None r
                else ("(" +:+ acc +:+ ")") :: parenGroups None r)
          else parenGroups (Some (acc +:+ String c EmptyString)) r
      end
  end.

Definition isParen (c : ascii) : bool := JS.eqc c "(" || JS.eqc c ")".

Definition extractCodeInParensTS (name : string) : string :=
  match JS.lastOpt (parenGroups None name) with
  | None => EmptyString
  | Some last => JS.trim (JS.remove isParen last)
  end.

(** ** Merge helpers *)

Definition extractSourceFromConsigner (consignerName : string) : string :=
  if JS.isEmpty consignerName then EmptyString
  else JS.trim (JS.first (JS.split ";" consignerName)).

Definition extractDestinationFromConsignee (consigneeName : string) : string :=
  if JS.isEmpty consigneeName then EmptyString
  else JS.trim (default EmptyString (JS.lastOpt (JS.split ";" consigneeName))).

Definition extractCityFromConsignerName (consignerName : string) : string :=
  let firstPart := extractSourceFromConsigner consignerName in
  JS.trim (JS.first (JS.split "-" firstPart)).

Definition extractCityFromConsigneeName (consigneeName : string) : string :=
  let lastPart := extractDestinationFromConsignee consigneeName in
  let beforeParen := JS.trim (JS.first (JS.split "(" lastPart)) in
  let parts := JS.splitWhite beforeParen in
  default EmptyString (JS.lastOpt parts).

Definition extractBranchCodeFromConsignee (consigneeName : string) : string :=
  let lastPart := extractDestinationFromConsignee consigneeName in
  extractCodeInParensTS lastPart.

Definition makeRouteKey (source destination : string) : string :=
  let src := normalizeSimple source in
  let dst := normalizeSimple destination in
  src +:+ "___" +:+ dst.

(** ** Route index *)

(** The loop of [buildRouteIndex] over the rows read from the route table:
    a route without source or destination is skipped, a later route
    overwrites an earlier one with the same key. *)
Definition indexRoute (m : gmap string RouteIndexItem.t) (r : RouteIndexItem.t)
  : gmap string RouteIndexItem.t :=
  match RouteIndexItem.Source r, RouteIndexItem.Destination r with
  | Some s, Some d =>
      if JS.truthy s && JS.truthy d then <[makeRouteKey s d := r]> m else m
  | _, _ => m
  end.

Definition buildRouteIndex (routes : list RouteIndexItem.t)
  : gmap string RouteIndexItem.t :=
  fold_left indexRoute routes ∅.

(** [s || null] on an optional string. *)
Definition orNull (s : option string) : option string :=
  match s with
  | Some v => if JS.truthy v then Some v else None
  | None => None
  end.

Definition mergeRow (routeIndex : gmap string RouteIndexItem.t) (rec : ParsedRow.t)
  : LiveMergedRow.t :=
  let rawSource := extractSourceFromConsigner (ParsedRow.consignerName rec) in
  let rawDestination := extractDestinationFromConsignee (ParsedRow.consigneeName rec) in
  let key := makeRouteKey rawSource rawDestination in
  let route := routeIndex !! key in
  {| LiveMergedRow.rec := rec;
     LiveMergedRow.routeId := RouteIndexItem.id <$> route;
     LiveMergedRow.routeName := RouteIndexItem.RouteName <$> route;
     LiveMergedRow.routeSource := route ≫= RouteIndexItem.Source;
     LiveMergedRow.routeDestination := route ≫= RouteIndexItem.Destination;
     LiveMergedRow.routeSourceLat := None;
     LiveMergedRow.routeSourceLng := None;
     LiveMergedRow.routeDestinationLat := None;
     LiveMergedRow.routeDestinationLng := None;
     LiveMergedRow.routeSide := route ≫= RouteIndexItem.Route_Side;
     LiveMergedRow.routeMiddleStops := route ≫= RouteIndexItem.Middle_Stops;
     LiveMergedRow.sourceExtracted := rawSource;
     LiveMergedRow.destinationExtracted := rawDestination;
     LiveMergedRow.matchKey := key |}.

Definition mergeWithRoutes (rows : list ParsedRow.t)
    (routeIndex : gmap string RouteIndexItem.t) : list LiveMergedRow.t :=
  map (mergeRow routeIndex) rows.

(** ** Unmatched rows *)

(** [!!row.routeId] *)
Definition hasRouteId (row : LiveMergedRow.t) : bool :=
  match LiveMergedRow.routeId row with
  | Some i => JS.truthy i
  | None => false
  end.

Definition unmatchedKey (row : LiveMergedRow.t) : string :=
  LiveMergedRow.matchKey row +:+ "|" +:+
  ParsedRow.consignerName (LiveMergedRow.rec row) +:+ "|" +:+
  ParsedRow.consigneeName (LiveMergedRow.rec row).

Definition toUnmatchedPair (row : LiveMergedRow.t) : UnmatchedRoutePair.t :=
  {| UnmatchedRoutePair.consignerName := ParsedRow.consignerName (LiveMergedRow.rec row);
     UnmatchedRoutePair.consigneeName := ParsedRow.consigneeName (LiveMergedRow.rec row);
     UnmatchedRoutePair.sourceExtracted := LiveMergedRow.sourceExtracted row;
     UnmatchedRoutePair.destinationExtracted := LiveMergedRow.destinationExtracted row;
     UnmatchedRoutePair.matchKey := LiveMergedRow.matchKey row |}.

(** The state of the loop of [collectUnmatched]: the set [seen] and the
    array [result]. *)
Definition collectStep (st : gset string * list UnmatchedRoutePair.t)
    (row : LiveMergedRow.t) : gset string * list UnmatchedRoutePair.t :=
  let '(seen, result) := st in
  if hasRouteId row then st
  else
    let key := unmatchedKey row in
    if decide (key ∈ seen) then st
    else ({[key]} ∪ seen, result ++ [toUnmatchedPair row]).

Definition collectUnmatched (merged : list LiveMergedRow.t)
  : list UnmatchedRoutePair.t :=
  snd (fold_left collectStep merged (∅, [])).

(** ** Lateness and arrival *)

(** [parts[i]]; [None] stands for [undefined]. *)
Definition part (parts : list JS.IntOrNaN) (i : nat) : option JS.IntOrNaN :=
  nth_error parts i.

Definition parseDelayToHours (delay : string) : float :=
  if JS.isEmpty delay then 0%float
  else
    let parts := map JS.parseInt (JS.split ":" delay) in
    if (length parts <? 2)%nat || existsb JS.isNaN parts then 0%float
    else
      let hh := JS.orZero (part parts 0) in
      let mm := JS.orZero (part parts 1) in
      let ss := JS.orZero (part parts 2) in
      (hh + mm / 60 + ss / 3600)%float.

Definition isNA (p : string) : bool := String.eqb (JS.toUpperCase p) "NA".

Definition pickEtaForDestination (eta : string) : string :=
  if JS.isEmpty eta then EmptyString
  else
    let parts :=
      filter (fun p => JS.truthy p && negb (isNA p))
             (map JS.trim (JS.split ";" eta)) in
    default EmptyString (JS.lastOpt parts).

(** ** Aggregation *)

(** The [Map] [routeMap] of [aggregateLiveRoutes], in insertion order.
    [routeMapSet] on a key already present replaces the value in place, as
    the mutation of the object held by the [Map] does. *)
Fixpoint routeMapGet (k : string) (m : list (string * LiveRouteRoute.t))
  : option LiveRouteRoute.t :=
  match m with
  | [] => None
  | (k', v) :: rest => if String.eqb k k' then Some v else routeMapGet k rest
  end.

Fixpoint routeMapSet (k : string) (v : LiveRouteRoute.t)
    (m : list (string * LiveRouteRoute.t)) : list (string * LiveRouteRoute.t) :=
  match m with
  | [] => [(k, v)]
  | (k', v') :: rest =>
      if String.eqb k k' then (k, v) :: rest else (k', v') :: routeMapSet k v rest
  end.

Definition emptyBucket : LiveRouteSideBucket.t :=
  {| LiveRouteSideBucket.totalVehicles := 0;
     LiveRouteSideBucket.lateVehicles := 0;
     LiveRouteSideBucket.vehicles := [] |}.

Definition newRoute (i src dst : string) (row : LiveMergedRow.t) : LiveRouteRoute.t :=
  {| LiveRouteRoute.id := i;
     LiveRouteRoute.source := src;
     LiveRouteRoute.destination := dst;
     LiveRouteRoute.sourceLat := LiveMergedRow.routeSourceLat row;
     LiveRouteRoute.sourceLng := LiveMergedRow.routeSourceLng row;
     LiveRouteRoute.destLat := LiveMergedRow.routeDestinationLat row;
     LiveRouteRoute.destLng := LiveMergedRow.routeDestinationLng row;
     LiveRouteRoute.up := emptyBucket;
     LiveRouteRoute.down := emptyBucket |}.

Definition isLate (lateHours : float) : bool := (0 <? lateHours)%float.

Definition makeVehicleEntry (coordsByVehicle : gmap string VehiclePos.t)
    (row : LiveMergedRow.t) : LiveRouteVehicleEntry.t :=
  let r := LiveMergedRow.rec row in
  let coord := coordsByVehicle !! JS.trim (ParsedRow.vehicleNumber r) in
  {| LiveRouteVehicleEntry.vehicleNumber := ParsedRow.vehicleNumber r;
     LiveRouteVehicleEntry.rpsNumber := orNull (Some (ParsedRow.rpsNumber r));
     LiveRouteVehicleEntry.dispatchDate := ParsedRow.dispatchDate r;
     LiveRouteVehicleEntry.lastLocationDate := ParsedRow.lastLocationDate r;
     LiveRouteVehicleEntry.lastLocation := ParsedRow.lastLocation r;
     LiveRouteVehicleEntry.lateHours := parseDelayToHours (ParsedRow.delayTime r);
     LiveRouteVehicleEntry.middleStops := default [] (LiveMergedRow.routeMiddleStops row);
     LiveRouteVehicleEntry.expectedArrival := pickEtaForDestination (ParsedRow.eta r);
     LiveRouteVehicleEntry.lat := coord ≫= VehiclePos.lat;
     LiveRouteVehicleEntry.lng := coord ≫= VehiclePos.lng |}.

(** [vehicles.push(entry); totalVehicles += 1; if (lateHours > 0) lateVehicles += 1] *)
Definition pushVehicle (v : LiveRouteVehicleEntry.t) (b : LiveRouteSideBucket.t)
  : LiveRouteSideBucket.t :=
  {| LiveRouteSideBucket.totalVehicles := LiveRouteSideBucket.totalVehicles b + 1;
     LiveRouteSideBucket.lateVehicles :=
       if isLate (LiveRouteVehicleEntry.lateHours v)
       then LiveRouteSideBucket.lateVehicles b + 1
       else LiveRouteSideBucket.lateVehicles b;
     LiveRouteSideBucket.vehicles := LiveRouteSideBucket.vehicles b ++ [v] |}.

Definition withSide (s : TripSide) (f : LiveRouteSideBucket.t -> LiveRouteSideBucket.t)
    (b : LiveRouteRoute.t) : LiveRouteRoute.t :=
  {| LiveRouteRoute.id := LiveRouteRoute.id b;
     LiveRouteRoute.source := LiveRouteRoute.source b;
     LiveRouteRoute.destination := LiveRouteRoute.destination b;
     LiveRouteRoute.sourceLat := LiveRouteRoute.sourceLat b;
     LiveRouteRoute.sourceLng := LiveRouteRoute.sourceLng b;
     LiveRouteRoute.destLat := LiveRouteRoute.destLat b;
     LiveRouteRoute.destLng := LiveRouteRoute.destLng b;
     LiveRouteRoute.up :=
       match s with Up => f (LiveRouteRoute.up b) | Down => LiveRouteRoute.up b end;
     LiveRouteRoute.down :=
       match s with Up => LiveRouteRoute.down b | Down => f (LiveRouteRoute.down b) end |}.

(** The conditions of the two trailing [if]s of the loop body: a coordinate
    of the aggregate is still null and the row carries one. *)
Definition fillsSource (row : LiveMergedRow.t) (b : LiveRouteRoute.t) : bool :=
  match LiveRouteRoute.sourceLat b, LiveMergedRow.routeSourceLat row with
  | None, Some _ => true
  | _, _ => false
  end.

Definition fillsDest (row : LiveMergedRow.t) (b : LiveRouteRoute.t) : bool :=
  match LiveRouteRoute.destLat b, LiveMergedRow.routeDestinationLat row with
  | None, Some _ => true
  | _, _ => false
  end.

Definition backfill (row : LiveMergedRow.t) (b : LiveRouteRoute.t) : LiveRouteRoute.t :=
  {| LiveRouteRoute.id := LiveRouteRoute.id b;
     LiveRouteRoute.source := LiveRouteRoute.source b;
     LiveRouteRoute.destination := LiveRouteRoute.destination b;
     LiveRouteRoute.sourceLat :=
       if fillsSource row b then LiveMergedRow.routeSourceLat row
       else LiveRouteRoute.sourceLat b;
     LiveRouteRoute.sourceLng :=
       if fillsSource row b then LiveMergedRow.routeSourceLng row
       else LiveRouteRoute.sourceLng b;
     LiveRouteRoute.destLat :=
       if fillsDest row b then LiveMergedRow.routeDestinationLat row
       else LiveRouteRoute.destLat b;
     LiveRouteRoute.destLng :=
       if fillsDest row b then LiveMergedRow.routeDestinationLng row
       else LiveRouteRoute.destLng b;
     LiveRouteRoute.up := LiveRouteRoute.up b;
     LiveRouteRoute.down := LiveRouteRoute.down b |}.

(** The guard at the head of the loop: the route id, source and
    destination of a row that is aggregated. *)
Definition aggregated (row : LiveMergedRow.t) : option (string * string * string) :=
  match orNull (LiveMergedRow.routeId row),
        orNull (LiveMergedRow.routeSource row),
        orNull (LiveMergedRow.routeDestination row) with
  | Some i, Some s, Some d => Some (i, s, d)
  | _, _, _ => None
  end.

(** One iteration of the loop of [aggregateLiveRoutes]. *)
Definition aggregateStep (coordsByVehicle : gmap string VehiclePos.t)
    (routeMap : list (string * LiveRouteRoute.t)) (row : LiveMergedRow.t)
  : list (string * LiveRouteRoute.t) :=
  match aggregated row with
  | None => routeMap
  | Some (i, src, dst) =>
      let '(bucket, routeMap) :=
        match routeMapGet i routeMap with
        | Some b => (b, routeMap)
        | None =>
            let b := newRoute i src dst row in (b, routeMapSet i b routeMap)
        end in
      let vehicleEntry := makeVehicleEntry coordsByVehicle row in
      match LiveMergedRow.routeSide row with
      | None => routeMap
      | Some side =>
          routeMapSet i
            (backfill row (withSide side (pushVehicle vehicleEntry) bucket))
            routeMap
      end
  end.

Definition aggregateLiveRoutes (merged : list LiveMergedRow.t)
    (coordsByVehicle : gmap string VehiclePos.t) : list LiveRouteRoute.t :=
  map snd (fold_left (aggregateStep coordsByVehicle) merged []).

(** ** Coordinates from the FMS location maps *)

Definition latLng (e : option LocationEntry.t) : option float * option float :=
  (LocationEntry.lat <$> e, LocationEntry.lng <$> e).

(** The city list first, the landmarks by name second. *)
Definition fmsCityOrLandmark (loc : LocationMaps.t) (key : string)
  : option float * option float :=
  match LocationMaps.cityByNormName loc !! key with
  | Some cityEntry => latLng (Some cityEntry)
  | None => latLng (LocationMaps.landmarkByNormName loc !! key)
  end.

(** [fmsSrcLat] and [fmsSrcLng] at the end of the source block. *)
Definition fmsSource (loc : LocationMaps.t) (consigner : string)
  : option float * option float :=
  let srcCityRaw := extractCityFromConsignerName consigner in
  if JS.truthy srcCityRaw
  then fmsCityOrLandmark loc (normalizeLocationKey srcCityRaw)
  else (None, None).

(** [fmsDestLat] and [fmsDestLng] at the end of the destination block:
    the landmark by branch code, then the city fallback. *)
Definition fmsDestination (loc : LocationMaps.t) (consignee : string)
  : option float * option float :=
  let destBranchCode := extractBranchCodeFromConsignee consignee in
  let byCode :=
    if JS.truthy destBranchCode
    then latLng (LocationMaps.landmarkByNormCode loc
                   !! normalizeLocationKey destBranchCode)
    else (None, None) in
  match byCode with
  | (Some _, Some _) => byCode
  | _ =>
      let destCityRaw := extractCityFromConsigneeName consignee in
      if JS.truthy destCityRaw
      then
        let cityKey := normalizeLocationKey destCityRaw in
        match LocationMaps.cityByNormName loc !! cityKey with
        | Some cityEntry => latLng (Some cityEntry)
        | None =>
            match LocationMaps.landmarkByNormName loc !! cityKey with
            | Some lmByName => latLng (Some lmByName)
            | None => byCode
            end
        end
      else byCode
  end.

(** [a ?? b ?? null] *)
Definition firstNonNull (a b : option float) : option float :=
  match a with Some _ => a | None => b end.

(** The body of the loop of [attachLocationCoordsFromFms]: the four
    coordinate fields of the row are overwritten. *)
Definition attachRow (loc : LocationMaps.t) (row : LiveMergedRow.t) : LiveMergedRow.t :=
  let consigner := ParsedRow.consignerName (LiveMergedRow.rec row) in
  let consignee := ParsedRow.consigneeName (LiveMergedRow.rec row) in
  let '(fmsSrcLat, fmsSrcLng) := fmsSource loc consigner in
  let '(fmsDestLat, fmsDestLng) := fmsDestination loc consignee in
  {| LiveMergedRow.rec := LiveMergedRow.rec row;
     LiveMergedRow.routeId := LiveMergedRow.routeId row;
     LiveMergedRow.routeName := LiveMergedRow.routeName row;
     LiveMergedRow.routeSource := LiveMergedRow.routeSource row;
     LiveMergedRow.routeDestination := LiveMergedRow.routeDestination row;
     LiveMergedRow.routeSourceLat :=
       firstNonNull fmsSrcLat (LiveMergedRow.routeSourceLat row);
     LiveMergedRow.routeSourceLng :=
       firstNonNull fmsSrcLng (LiveMergedRow.routeSourceLng row);
     LiveMergedRow.routeDestinationLat :=
       firstNonNull fmsDestLat (LiveMergedRow.routeDestinationLat row);
     LiveMergedRow.routeDestinationLng :=
       firstNonNull fmsDestLng (LiveMergedRow.routeDestinationLng row);
     LiveMergedRow.routeSide := LiveMergedRow.routeSide row;
     LiveMergedRow.routeMiddleStops := LiveMergedRow.routeMiddleStops row;
     LiveMergedRow.sourceExtracted := LiveMergedRow.sourceExtracted row;
     LiveMergedRow.destinationExtracted := LiveMergedRow.destinationExtracted row;
     LiveMergedRow.matchKey := LiveMergedRow.matchKey row |}.

(** The rows are mutated in place, one after the other; the array after
    the call holds the updated rows in the same order. *)
Definition attachLocationCoordsFromFms (merged : list LiveMergedRow.t)
    (loc : LocationMaps.t) : list LiveMergedRow.t :=
  map (attachRow loc) merged.

(** ** Fuzzy location matching *)

(** [s.replace(/\s*\(/g, ' (')]: [pend] is the whitespace read since the
    last character that was not whitespace. *)
Fixpoint spaceBeforeParen (pend : string) (s : string) : string :=
  match s with
  | EmptyString => pend
  | String c r =>
      if JS.eqc c "(" then " (" +:+ spaceBeforeParen EmptyString r
      else if JS.isWhite c then spaceBeforeParen (pend +:+ String c EmptyString) r
      else pend +:+ String c (spaceBeforeParen EmptyString r)
  end.

Definition isAlnum (c : ascii) : bool := JS.isLower c || JS.isDigit c.

(** The complement of [[a-z0-9()\s]]. *)
Definition notBaseChar (c : ascii) : bool :=
  negb (isAlnum c || isParen c || JS.isWhite c).

(** The complement of [[a-z0-9\s]]. *)
Definition notCoreChar (c : ascii) : bool := negb (isAlnum c || JS.isWhite c).

Definition normalizeBaseName (s : string) : string :=
  JS.trim
    (JS.collapseWhite
       (JS.collapseRuns notBaseChar false
          (spaceBeforeParen EmptyString (JS.toLowerCase s)))).

Definition extractCodeLower (name : string) : string :=
  let str := normalizeBaseName name in
  match JS.lastOpt (parenGroups None str) with
  | None => EmptyString
  | Some last => JS.toLowerCase (JS.trim (JS.remove isParen last))
  end.

Fixpoint hasClose (s : string) : bool :=
  match s with
  | EmptyString => false
  | String c r => JS.eqc c ")" || hasClose r
  end.

(** [s.replace(/\([^)]*\)/g, ' ')]: an opening parenthesis with a closing
    one somewhere after it is replaced, up to the first closing one, by a
    space. [inGroup] tells that such a group is being skipped. *)
Fixpoint stripParens (inGroup : bool) (s : string) : string :=
  match s with
  | EmptyString => EmptyString
  | String c r =>
      if inGroup
      then (if JS.eqc c ")" then String " " (stripParens false r)
            else stripParens true r)
      else if JS.eqc c "(" && hasClose r then stripParens true r
      else String c (stripParens false r)
  end.

Definition stopwords : gset string := list_to_set ["at"; "hub"; "the"; "pvt"; "ltd"].

Definition tokenizeNameWithoutCode (name : string) : list string :=
  let norm := normalizeBaseName name in
  let norm := stripParens false norm in
  let tokens := filter JS.truthy (JS.splitWhite norm) in
  filter (fun t => negb (bool_decide (t ∈ stopwords))) tokens.

Definition jaccardSimilarity (tokensA tokensB : list string) : float :=
  let setA : gset string := list_to_set tokensA in
  let setB : gset string := list_to_set tokensB in
  let common := length (filter (fun t => bool_decide (t ∈ setB)) (elements setA)) in
  let unionSize := size setA + size setB - common in
  if (unionSize =? 0)%nat then 0%float
  else (JS.ofNat common / JS.ofNat unionSize)%float.

(** [code1 && code2 && code1 === code2] *)
Definition sameCode (code1 code2 : string) : bool :=
  JS.truthy code1 && JS.truthy code2 && String.eqb code1 code2.

Definition computeLocationMatchScore (endpointName candidateName : string)
  : LocationMatchScore.t :=
  let code1 := extractCodeLower endpointName in
  let code2 := extractCodeLower candidateName in
  if sameCode code1 code2
  then {| LocationMatchScore.score := 1%float; LocationMatchScore.byCode := true |}
  else
    let tokens1 := tokenizeNameWithoutCode endpointName in
    let tokens2 := tokenizeNameWithoutCode candidateName in
    {| LocationMatchScore.score := jaccardSimilarity tokens1 tokens2;
       LocationMatchScore.byCode := false |}.

Fixpoint revAppend (s acc : string) : string :=
  match s with
  | EmptyString => acc
  | String c r => revAppend r (String c acc)
  end.

Definition reverse (s : string) : string := revAppend s EmptyString.

(** [Some rest] when [s] is [p] followed by [rest]. *)
Fixpoint dropPrefix (p s : string) : option string :=
  match p, s with
  | EmptyString, _ => Some s
  | String a p', String b s' => if JS.eqc a b then dropPrefix p' s' else None
  | String _ _, EmptyString => None
  end.

Definition startsWhite (s : string) : bool :=
  match s with
  | String c _ => JS.isWhite c
  | EmptyString => false
  end.

(** [s.replace(/^safexpress\s+/, '')] *)
Definition stripSafexpress (s : string) : string :=
  match dropPrefix "safexpress" s with
  | Some rest => if startsWhite rest then JS.trimStart rest else s
  | None => s
  end.

Definition coreSuffixes : list string := ["hub"; "sds"; "inbound"; "outbound"].

(** [s.replace(/\s+(hub|sds|inbound|outbound)\s*$/g, '')], read from the
    end of the string: trailing whitespace, one of the words, and the whole
    run of whitespace before it are removed. *)
Definition stripCoreSuffix (s : string) : string :=
  let t := JS.trimStart (reverse s) in
  let cut (w : string) : option string :=
    match dropPrefix (reverse w) t with
    | Some rest => if startsWhite rest then Some (JS.trimStart rest) else None
    | None => None
    end in
  match omap cut coreSuffixes with
  | rest :: _ => reverse rest
  | [] => s
  end.

Definition buildEndpointCoreKey (name : string) : string :=
  let s := JS.toLowerCase name in
  let s := stripParens false s in
  let s := JS.replaceChar "-" " " s in
  let s := JS.collapseRuns notCoreChar false s in
  let s := JS.trim (JS.collapseWhite s) in
  let s := stripSafexpress s in
  let s := stripCoreSuffix s in
  let s := JS.trim (JS.collapseWhite s) in
  JS.removeWhite s.

Definition buildLocationCoreKey (name : string) : string :=
  let s := JS.toLowerCase name in
  let s := stripParens false s in
  let s := JS.replaceChar "-" " " s in
  let s := JS.collapseRuns notCoreChar false s in
  JS.removeWhite s.

(** Tier 1: the trimmed names are equal up to case. *)
Definition exactMatch (endpointNorm : string) (l : LocationRow.t) : bool :=
  String.eqb (JS.toLowerCase (JS.trim (LocationRow.name l))) endpointNorm.

(** Tier 2: equal once all whitespace is removed. *)
Definition exactNoSpaceMatch (endpointNoSpace : string) (l : LocationRow.t) : bool :=
  String.eqb (JS.removeWhite (JS.toLowerCase (JS.trim (LocationRow.name l))))
             endpointNoSpace.

(** Tier 3: the core of the endpoint occurs inside the location name. *)
Definition searchMatch (endpointCore : string) (l : LocationRow.t) : bool :=
  let locNoSpace := JS.removeWhite (JS.toLowerCase (LocationRow.name l)) in
  let locCore := buildLocationCoreKey (LocationRow.name l) in
  JS.includes locNoSpace endpointCore || JS.includes locCore endpointCore.

(** Tier 4: the variables [best], [bestScore] and [bestByCode] of the loop. *)
Module Best.
Record t : Type := mk { best : option LocationRow.t; bestScore : float; bestByCode : bool }.
End Best.

Definition bestInit : Best.t :=
  {| Best.best := None; Best.bestScore := 0%float; Best.bestByCode := false |}.

Definition bestStep (endpointName : string) (st : Best.t) (loc : LocationRow.t) : Best.t :=
  let sc := computeLocationMatchScore endpointName (LocationRow.name loc) in
  let score := LocationMatchScore.score sc in
  let byCode := LocationMatchScore.byCode sc in
  let isBetter :=
    (Best.bestScore st <? score)%float ||
    (byCode && negb (Best.bestByCode st) && (score =? Best.bestScore st)%float) in
  if isBetter
  then {| Best.best := Some loc; Best.bestScore := score; Best.bestByCode := byCode |}
  else st.

Definition scoreTier (endpointName : string) (locs : list LocationRow.t)
    (threshold : float) : option LocationRow.t :=
  let st := fold_left (bestStep endpointName) locs bestInit in
  match Best.best st with
  | None => None
  | Some b => if (Best.bestScore st <? threshold)%float then None else Some b
  end.

(** The default value of the parameter [threshold], 0.9. *)
Definition defaultThreshold : float := 0x1.ccccccccccccdp-1%float.

(** Tier 3 is tried only with a non-empty core. *)
Definition searchTier (endpointName : string) (locs : list LocationRow.t)
  : option LocationRow.t :=
  let endpointCore := buildEndpointCoreKey endpointName in
  if JS.truthy endpointCore then JS.find (searchMatch endpointCore) locs else None.

Definition findBestLocationMatch (endpointName : string) (locs : list LocationRow.t)
    (threshold : float) : option LocationRow.t :=
  if JS.isEmpty (JS.trim endpointName) || (length locs =? 0)%nat then None
  else
    let endpointTrim := JS.trim endpointName in
    let endpointNorm := JS.toLowerCase endpointTrim in
    match JS.find (exactMatch endpointNorm) locs with
    | Some exact => Some exact
    | None =>
        let endpointNoSpace := JS.removeWhite endpointNorm in
        match JS.find (exactNoSpaceMatch endpointNoSpace) locs with
        | Some exactNoSpace => Some exactNoSpace
        | None =>
            match searchTier endpointName locs with
            | Some found => Some found
            | None => scoreTier endpointName locs threshold
            end
        end
    end.

(** ** Vocabulary of the properties *)

(** A string made of whitespace only. *)
Definition allWhite (s : string) : bool := JS.isEmpty (JS.removeWhite s).

(** *** Case of the ASCII letters *)

(** A string made of ASCII characters (U+0000 to U+007F) only. *)
Fixpoint isAscii (s : string) : bool :=
  match s with
  | EmptyString => true
  | String c r => (JS.code c <? 128)%N && isAscii r
  end.

(** The change of case of the ASCII letters alone; every other character
    is kept. *)
Definition asciiUpperChar (c : ascii) : ascii :=
  if JS.isLower c then ascii_of_N (JS.code c - 32) else c.

Definition asciiLowerChar (c : ascii) : ascii :=
  if JS.isUpper c then ascii_of_N (JS.code c + 32) else c.

Definition asciiUpperCase (s : string) : string := JS.smap asciiUpperChar s.

Definition asciiLowerCase (s : string) : string := JS.smap asciiLowerChar s.

(** The word "Strasse" written with a sharp s (U+00DF) for its double s. *)
Definition strasse : string := "Stra" +:+ String (ascii_of_N 223) "e".

(** *** Delay strings *)

(** The integer a field of a delay string starts with, after optional
    whitespace and sign; [None] when the field does not start with one. *)
Definition fieldInt (f : string) : option Z :=
  match JS.parseInt f with
  | JS.NaN => None
  | JS.Int false n => Some (Z.of_N n)
  | JS.Int true n => Some (- Z.of_N n)%Z
  end.

(** An integer as a number; zero has no sign. *)
Definition numberOfInt (z : Z) : float :=
  match z with
  | Z0 => 0%float
  | Zpos p => JS.ofZ (Zpos p)
  | Zneg p => PrimFloat.opp (JS.ofZ (Zpos p))
  end.

(** A delay is well formed when it has at least two fields and every
    field starts with an integer. *)
Definition wellFormedDelay (fields : list string) : bool :=
  (2 <=? length fields)%nat && forallb (fun f => bool_decide (is_Some (fieldInt f))) fields.

(** The value of field [i]; a missing field counts for [0]. *)
Definition fieldValue (fields : list string) (i : nat) : float :=
  match nth_error fields i ≫= fieldInt with
  | Some z => numberOfInt z
  | None => 0%float
  end.

(** [hh + mm/60 + ss/3600] on a well-formed delay, [0] otherwise. *)
Definition delayHours (delay : string) : float :=
  let fields := JS.split ":" delay in
  if wellFormedDelay fields
  then (fieldValue fields 0 + fieldValue fields 1 / 60 + fieldValue fields 2 / 3600)%float
  else 0%float.

(** *** Unmatched pairs *)

(** The compound key [matchKey|consignerName|consigneeName] of an entry of
    the unmatched output. *)
Definition pairKey (p : UnmatchedRoutePair.t) : string :=
  UnmatchedRoutePair.matchKey p +:+ "|" +:+
  UnmatchedRoutePair.consignerName p +:+ "|" +:+
  UnmatchedRoutePair.consigneeName p.

Definition lacksRouteId (row : LiveMergedRow.t) : bool := negb (hasRouteId row).

(** The rows without a route id whose key is neither in [seen] nor carried
    by an earlier such row. *)
Fixpoint freshRows (seen : gset string) (rows : list LiveMergedRow.t)
  : list LiveMergedRow.t :=
  match rows with
  | [] => []
  | row :: rest =>
      if hasRouteId row then freshRows seen rest
      else if decide (unmatchedKey row ∈ seen) then freshRows seen rest
      else row :: freshRows ({[unmatchedKey row]} ∪ seen) rest
  end.

(** *** Side buckets *)

Definition lateCount (vs : list LiveRouteVehicleEntry.t) : nat :=
  length (filter (fun v => isLate (LiveRouteVehicleEntry.lateHours v)) vs).

Definition bucketOfEntries (vs : list LiveRouteVehicleEntry.t) : LiveRouteSideBucket.t :=
  {| LiveRouteSideBucket.totalVehicles := length vs;
     LiveRouteSideBucket.lateVehicles := lateCount vs;
     LiveRouteSideBucket.vehicles := vs |}.

Definition addEntries (vs : list LiveRouteVehicleEntry.t) (b : LiveRouteSideBucket.t)
  : LiveRouteSideBucket.t :=
  fold_left (fun b v => pushVehicle v b) vs b.

Definition sideEqb (a b : TripSide) : bool :=
  match a, b with
  | Up, Up | Down, Down => true
  | _, _ => false
  end.

(** The row passes the guard of the aggregation loop with route id [i]. *)
Definition aggregatedAs (i : string) (row : LiveMergedRow.t) : bool :=
  match aggregated row with
  | Some (i', _, _) => String.eqb i i'
  | None => false
  end.

(** The row is aggregated under route id [i] and its route declares [side]. *)
Definition rowOf (i : string) (side : TripSide) (row : LiveMergedRow.t) : bool :=
  aggregatedAs i row &&
  match LiveMergedRow.routeSide row with
  | Some s => sideEqb s side
  | None => false
  end.

Definition entriesOf (coordsByVehicle : gmap string VehiclePos.t) (i : string)
    (side : TripSide) (merged : list LiveMergedRow.t) : list LiveRouteVehicleEntry.t :=
  map (makeVehicleEntry coordsByVehicle) (filter (rowOf i side) merged).

(** The Up and Down buckets held under key [i] of the [Map]; two empty
    buckets when the key is absent. *)
Definition bucketsAt (i : string) (routeMap : list (string * LiveRouteRoute.t))
  : LiveRouteSideBucket.t * LiveRouteSideBucket.t :=
  match routeMapGet i routeMap with
  | Some r => (LiveRouteRoute.up r, LiveRouteRoute.down r)
  | None => (emptyBucket, emptyBucket)
  end.

Definition routeById (i : string) (routes : list LiveRouteRoute.t)
  : option LiveRouteRoute.t :=
  List.find (fun r => String.eqb i (LiveRouteRoute.id r)) routes.

(** The Up and Down buckets of the aggregate with id [i] in the output. *)
Definition bucketsOf (i : string) (routes : list LiveRouteRoute.t)
  : LiveRouteSideBucket.t * LiveRouteSideBucket.t :=
  match routeById i routes with
  | Some r => (LiveRouteRoute.up r, LiveRouteRoute.down r)
  | None => (emptyBucket, emptyBucket)
  end.

(** The invariant of the [Map]: keys are distinct and each value is stored
    under its own id. *)
Definition wfRouteMap (m : list (string * LiveRouteRoute.t)) : Prop :=
  NoDup (map fst m) /\ Forall (fun kv => LiveRouteRoute.id (snd kv) = fst kv) m.

(** *** The end-to-end example *)

Definition exampleRoute (source destination : string) : RouteIndexItem.t :=
  {| RouteIndexItem.id := "R1";
     RouteIndexItem.RouteName := "";
     RouteIndexItem.Route_Side := Some Up;
     RouteIndexItem.Source := Some source;
     RouteIndexItem.Destination := Some destination;
     RouteIndexItem.Middle_Stops := None |}.

(** The shipment of the example; the fields the example leaves open are
    the arguments. *)
Definition exampleShipment (vehicleNumber lastLocationDate vehicleGroup lastLocation
    speedKmph dispatchDate plannedDistance remainingDistance tripStatus
    rpsNumber : string) : ParsedRow.t :=
  {| ParsedRow.vehicleNumber := vehicleNumber;
     ParsedRow.lastLocationDate := lastLocationDate;
     ParsedRow.vehicleGroup := vehicleGroup;
     ParsedRow.lastLocation := lastLocation;
     ParsedRow.speedKmph := speedKmph;
     ParsedRow.consignerName := "LUCKNOW-11";
     ParsedRow.consigneeName := "SAFEXPRESS AMBALA(AML11)";
     ParsedRow.dispatchDate := dispatchDate;
     ParsedRow.eta := "NA;15/06/2024 09:00:00";
     ParsedRow.plannedDistance := plannedDistance;
     ParsedRow.remainingDistance := remainingDistance;
     ParsedRow.tripStatus := tripStatus;
     ParsedRow.delayTime := "01:15:00";
     ParsedRow.rpsNumber := rpsNumber |}.

Definition blankShipment : ParsedRow.t :=
  exampleShipment "" "" "" "" "" "" "" "" "" "".

(** The same shipment against a route whose source and destination are
    the strings the shipment carries. *)
Definition exampleIndex : gmap string RouteIndexItem.t :=
  buildRouteIndex [exampleRoute "LUCKNOW-11" "SAFEXPRESS AMBALA(AML11)"].

Definition exampleMerged : list LiveMergedRow.t :=
  mergeWithRoutes [blankShipment] exampleIndex.

Definition exampleEntry : LiveRouteVehicleEntry.t :=
  {| LiveRouteVehicleEntry.vehicleNumber := "";
     LiveRouteVehicleEntry.rpsNumber := None;
     LiveRouteVehicleEntry.dispatchDate := "";
     LiveRouteVehicleEntry.lastLocationDate := "";
     LiveRouteVehicleEntry.lastLocation := "";
     LiveRouteVehicleEntry.lateHours := 1.25%float;
     LiveRouteVehicleEntry.middleStops := [];
     LiveRouteVehicleEntry.expectedArrival := "15/06/2024 09:00:00";
     LiveRouteVehicleEntry.lat := None;
     LiveRouteVehicleEntry.lng := None |}.

Definition exampleAggregate : LiveRouteRoute.t :=
  {| LiveRouteRoute.id := "R1";
     LiveRouteRoute.source := "LUCKNOW-11";
     LiveRouteRoute.destination := "SAFEXPRESS AMBALA(AML11)";
     LiveRouteRoute.sourceLat := None;
     LiveRouteRoute.sourceLng := None;
     LiveRouteRoute.destLat := None;
     LiveRouteRoute.destLng := None;
     LiveRouteRoute.up :=
       {| LiveRouteSideBucket.totalVehicles := 1;
          LiveRouteSideBucket.lateVehicles := 1;
          LiveRouteSideBucket.vehicles := [exampleEntry] |};
     LiveRouteRoute.down := emptyBucket |}.

(** A route of the table that declares no side, and the shipment merged
    with it. *)
Definition sidelessRoute : RouteIndexItem.t :=
  {| RouteIndexItem.id := "R1";
     RouteIndexItem.RouteName := "";
     RouteIndexItem.Route_Side := None;
     RouteIndexItem.Source := Some "LUCKNOW-11";
     RouteIndexItem.Destination := Some "SAFEXPRESS AMBALA(AML11)";
     RouteIndexItem.Middle_Stops := None |}.

Definition sidelessMerged : list LiveMergedRow.t :=
  mergeWithRoutes [blankShipment] (buildRouteIndex [sidelessRoute]).

(** A shipment that matches no route of an empty table. *)
Definition unmatchedRow : LiveMergedRow.t := mergeRow ∅ blankShipment.

(** A row that already holds coordinates of its reference route, and FMS
    location maps that know the city of its consigner. *)
Definition routedRow : LiveMergedRow.t :=
  {| LiveMergedRow.rec := blankShipment;
     LiveMergedRow.routeId := Some "R1";
     LiveMergedRow.routeName := Some "";
     LiveMergedRow.routeSource := Some "LUCKNOW-11";
     LiveMergedRow.routeDestination := Some "SAFEXPRESS AMBALA(AML11)";
     LiveMergedRow.routeSourceLat := Some 1%float;
     LiveMergedRow.routeSourceLng := Some 2%float;
     LiveMergedRow.routeDestinationLat := Some 3%float;
     LiveMergedRow.routeDestinationLng := Some 4%float;
     LiveMergedRow.routeSide := Some Up;
     LiveMergedRow.routeMiddleStops := None;
     LiveMergedRow.sourceExtracted := "LUCKNOW-11";
     LiveMergedRow.destinationExtracted := "SAFEXPRESS AMBALA(AML11)";
     LiveMergedRow.matchKey := "lucknow-11___safexpressambala(aml11)" |}.

Definition exampleLocationMaps : LocationMaps.t :=
  {| LocationMaps.cityByNormName :=
       {[ "LUCKNOW" := {| LocationEntry.rawName := "Lucknow";
                          LocationEntry.lat := 26.5%float;
                          LocationEntry.lng := 80.5%float |} ]};
     LocationMaps.landmarkByNormCode := ∅;
     LocationMaps.landmarkByNormName := ∅ |}.

Definition location (name : string) : LocationRow.t :=
  {| LocationRow.name := name;
     LocationRow.Latitude := 28.5%float;
     LocationRow.Longitude := 77.25%float |}.

(** ** Further functions of the program *)

(** [normalizeHeader]: whitespace runs collapsed to one space, then
    trimmed, then lower case. The same function heads
    [backend/script/rpsTripScrapper.ts]. *)
Definition normalizeHeader (h : string) : string :=
  JS.toLowerCase (JS.trim (JS.collapseWhite h)).

(** [a || b] on strings. *)
Definition orElse (a b : string) : string := if JS.truthy a then a else b.

(** [parts.join(sep)] *)
Fixpoint join (sep : string) (parts : list string) : string :=
  match parts with
  | [] => EmptyString
  | [p] => p
  | p :: rest => p +:+ sep +:+ join sep rest
  end.

(** [parts.slice(0, -1)] *)
Definition dropLast (parts : list string) : list string := removelast parts.

Module UnmatchedRouteInfo.
Record t : Type := mk { routeName : string; source : string; destination : string }.
End UnmatchedRouteInfo.

(** The [;]-separated parts of the consignee, trimmed, the empty ones
    dropped. *)
Definition consigneeParts (consigneeName : string) : list string :=
  filter JS.truthy (map JS.trim (JS.split ";" consigneeName)).

Definition middleStopsOf (consigneeName : string) : list string :=
  let parts := consigneeParts consigneeName in
  if (1 <? length parts)%nat then dropLast parts else [].

Definition buildUnmatchedRouteInfo (pair : UnmatchedRoutePair.t)
  : option UnmatchedRouteInfo.t :=
  let sourceRaw :=
    orElse (UnmatchedRoutePair.sourceExtracted pair)
      (orElse (extractSourceFromConsigner (UnmatchedRoutePair.consignerName pair))
              (UnmatchedRoutePair.consignerName pair)) in
  let destinationRaw :=
    orElse (UnmatchedRoutePair.destinationExtracted pair)
      (orElse (extractDestinationFromConsignee (UnmatchedRoutePair.consigneeName pair))
              (UnmatchedRoutePair.consigneeName pair)) in
  let source := JS.trim sourceRaw in
  let destination := JS.trim destinationRaw in
  if negb (JS.truthy source) || negb (JS.truthy destination) then None
  else
    let middleStops := middleStopsOf (UnmatchedRoutePair.consigneeName pair) in
    let routeName :=
      if (0 <? length middleStops)%nat
      then join "/" ([source] ++ middleStops ++ [destination])
      else source +:+ "/" +:+ destination in
    Some {| UnmatchedRouteInfo.routeName := routeName;
            UnmatchedRouteInfo.source := source;
            UnmatchedRouteInfo.destination := destination |}.

(** *** Location maps *)

(** An item of the two dropdown lists of the map view, as
    [fetchLocationMaps] reads it: the name after [String(item.itemName ||
    '')], and each coordinate when it is a number. *)
Module DropdownItem.
Record t : Type := mk { itemName : string; lat : option float; lng : option float }.
End DropdownItem.

Module WireEntry.
Record t : Type := mk { key : string; rawName : string; lat : float; lng : float }.
End WireEntry.

(** An item with both coordinates, under the given key; items without are
    filtered out (cities) or skipped (landmarks) before they reach a map. *)
Definition wire (key : string) (item : DropdownItem.t) : option WireEntry.t :=
  match DropdownItem.lat item, DropdownItem.lng item with
  | Some la, Some ln =>
      Some {| WireEntry.key := key;
              WireEntry.rawName := DropdownItem.itemName item;
              WireEntry.lat := la;
              WireEntry.lng := ln |}
  | _, _ => None
  end.

Definition wireCity (cityList : list DropdownItem.t) : list WireEntry.t :=
  omap (fun item => wire (normalizeLocationKey (DropdownItem.itemName item)) item)
       cityList.

Definition wireLandmarkByName (landmarkList : list DropdownItem.t) : list WireEntry.t :=
  omap (fun lm => wire (normalizeLocationKey (DropdownItem.itemName lm)) lm)
       landmarkList.

Definition wireLandmarkByCode (landmarkList : list DropdownItem.t) : list WireEntry.t :=
  omap (fun lm =>
          let code := extractCodeInParensTS (DropdownItem.itemName lm) in
          if JS.truthy code then wire (normalizeLocationKey code) lm else None)
       landmarkList.

(** [if (!map.has(key)) map.set(key, entry)]: the first entry of a key stays. *)
Definition setIfAbsent (m : gmap string LocationEntry.t) (w : WireEntry.t)
  : gmap string LocationEntry.t :=
  match m !! WireEntry.key w with
  | Some _ => m
  | None =>
      <[WireEntry.key w := {| LocationEntry.rawName := WireEntry.rawName w;
                              LocationEntry.lat := WireEntry.lat w;
                              LocationEntry.lng := WireEntry.lng w |}]> m
  end.

Definition locationMapOf (entries : list WireEntry.t) : gmap string LocationEntry.t :=
  fold_left setIfAbsent entries ∅.

(** What [fetchLocationMaps] builds from the two dropdown lists. *)
Definition buildLocationMaps (cityList landmarkList : list DropdownItem.t)
  : LocationMaps.t :=
  {| LocationMaps.cityByNormName := locationMapOf (wireCity cityList);
     LocationMaps.landmarkByNormCode := locationMapOf (wireLandmarkByCode landmarkList);
     LocationMaps.landmarkByNormName := locationMapOf (wireLandmarkByName landmarkList) |}.

(** *** Coordinates from the Location table *)

Definition bothKnown (lat lng : option float) : bool :=
  match lat, lng with
  | Some _, Some _ => true
  | _, _ => false
  end.

(** The body of the loop of [enrichLiveRoutesWithLocation]; the threshold
    passed to the matcher is 0.9. *)
Definition enrichRoute (locs : list LocationRow.t) (r : LiveRouteRoute.t)
  : LiveRouteRoute.t :=
  let bestSrc :=
    if JS.truthy (LiveRouteRoute.source r) &&
       negb (bothKnown (LiveRouteRoute.sourceLat r) (LiveRouteRoute.sourceLng r))
    then findBestLocationMatch (LiveRouteRoute.source r) locs defaultThreshold
    else None in
  let bestDest :=
    if JS.truthy (LiveRouteRoute.destination r) &&
       negb (bothKnown (LiveRouteRoute.destLat r) (LiveRouteRoute.destLng r))
    then findBestLocationMatch (LiveRouteRoute.destination r) locs defaultThreshold
    else None in
  {| LiveRouteRoute.id := LiveRouteRoute.id r;
     LiveRouteRoute.source := LiveRouteRoute.source r;
     LiveRouteRoute.destination := LiveRouteRoute.destination r;
     LiveRouteRoute.sourceLat :=
       match bestSrc with
       | Some l => Some (LocationRow.Latitude l)
       | None => LiveRouteRoute.sourceLat r
       end;
     LiveRouteRoute.sourceLng :=
       match bestSrc with
       | Some l => Some (LocationRow.Longitude l)
       | None => LiveRouteRoute.sourceLng r
       end;
     LiveRouteRoute.destLat :=
       match bestDest with
       | Some l => Some (LocationRow.Latitude l)
       | None => LiveRouteRoute.destLat r
       end;
     LiveRouteRoute.destLng :=
       match bestDest with
       | Some l => Some (LocationRow.Longitude l)
       | None => LiveRouteRoute.destLng r
       end;
     LiveRouteRoute.up := LiveRouteRoute.up r;
     LiveRouteRoute.down := LiveRouteRoute.down r |}.

(** [enrichLiveRoutesWithLocation] on the rows read from the Location
    table: nothing is done without routes or without locations. *)
Definition enrichLiveRoutesWithLocation (liveRoutes : list LiveRouteRoute.t)
    (locs : list LocationRow.t) : list LiveRouteRoute.t :=
  if (length liveRoutes =? 0)%nat then liveRoutes
  else if (length locs =? 0)%nat then liveRoutes
  else map (enrichRoute locs) liveRoutes.

(** *** The pipeline of [main] *)

(** The pure steps of [main] between the parsed sheet and the database:
    the merged rows after the coordinates are attached, the aggregates and
    the unmatched pairs. *)
Definition mergedRows (records : list ParsedRow.t) (routes : list RouteIndexItem.t)
    (locationMaps : LocationMaps.t) : list LiveMergedRow.t :=
  attachLocationCoordsFromFms (mergeWithRoutes records (buildRouteIndex routes))
                              locationMaps.

(** *** Vocabulary of the further properties *)

(** The key under which [buildRouteIndex] stores a route; [None] for a
    route it skips. *)
Definition routeKey (r : RouteIndexItem.t) : option string :=
  match RouteIndexItem.Source r, RouteIndexItem.Destination r with
  | Some s, Some d =>
      if JS.truthy s && JS.truthy d then Some (makeRouteKey s d) else None
  | _, _ => None
  end.

Definition hasRouteKey (k : string) (r : RouteIndexItem.t) : bool :=
  bool_decide (routeKey r = Some k).

(** The route id under which the aggregation loop files a row. *)
Definition aggregatedId (row : LiveMergedRow.t) : option string :=
  match aggregated row with
  | Some (i, _, _) => Some i
  | None => None
  end.

(** The elements of a list in the order of their first occurrence, the
    ones in [seen] left out. *)
Fixpoint firstOccurrences (seen : list string) (l : list string) : list string :=
  match l with
  | [] => []
  | x :: rest =>
      if bool_decide (x ∈ seen) then firstOccurrences seen rest
      else x :: firstOccurrences (x :: seen) rest
  end.

(** The row ends up in a side bucket: it passes the guard and its route
    declares a side. *)
Definition placed (row : LiveMergedRow.t) : bool :=
  match aggregated row, LiveMergedRow.routeSide row with
  | Some _, Some _ => true
  | _, _ => false
  end.

Definition vehicleCount (r : LiveRouteRoute.t) : nat :=
  LiveRouteSideBucket.totalVehicles (LiveRouteRoute.up r) +
  LiveRouteSideBucket.totalVehicles (LiveRouteRoute.down r).

(** The sum of the vehicle counters held by the [Map]. *)
Definition totalOf (m : list (string * LiveRouteRoute.t)) : nat :=
  sum_list (map (fun kv => vehicleCount (snd kv)) m).

(** What later rows keep of an aggregate: its id, source and destination,
    and each pair of coordinates whose latitude is known. *)
Definition keeps (b b' : LiveRouteRoute.t) : Prop :=
  LiveRouteRoute.id b' = LiveRouteRoute.id b /\
  LiveRouteRoute.source b' = LiveRouteRoute.source b /\
  LiveRouteRoute.destination b' = LiveRouteRoute.destination b /\
  (is_Some (LiveRouteRoute.sourceLat b) ->
   LiveRouteRoute.sourceLat b' = LiveRouteRoute.sourceLat b /\
   LiveRouteRoute.sourceLng b' = LiveRouteRoute.sourceLng b) /\
  (is_Some (LiveRouteRoute.destLat b) ->
   LiveRouteRoute.destLat b' = LiveRouteRoute.destLat b /\
   LiveRouteRoute.destLng b' = LiveRouteRoute.destLng b).

(** The character occurs in the string. *)
Fixpoint hasChar (p : ascii -> bool) (s : string) : bool :=
  match s with
  | EmptyString => false
  | String c r => p c || hasChar p r
  end.

Definition toLocationEntry (w : WireEntry.t) : LocationEntry.t :=
  {| LocationEntry.rawName := WireEntry.rawName w;
     LocationEntry.lat := WireEntry.lat w;
     LocationEntry.lng := WireEntry.lng w |}.

Definition hasKey (k : string) (w : WireEntry.t) : bool := String.eqb (WireEntry.key w) k.

Definition isSemicolon (c : ascii) : bool := JS.eqc c ";".

(** The characters [normalizeLocationKey] removes. *)
Definition isKeyNoise (c : ascii) : bool :=
  JS.isWhite c || (JS.eqc "-" c || (JS.eqc "." c || JS.eqc "_" c)).

(** The route pattern of the unmatched example shipment. *)
Definition examplePattern : UnmatchedRouteInfo.t :=
  {| UnmatchedRouteInfo.routeName := "LUCKNOW-11/SAFEXPRESS AMBALA(AML11)";
     UnmatchedRouteInfo.source := "LUCKNOW-11";
     UnmatchedRouteInfo.destination := "SAFEXPRESS AMBALA(AML11)" |}.

(** Whitespace occurs in the string only as single spaces: no other
    whitespace character and no two in a row. [afterSpace] tells that the
    character before the string is a space. *)
Fixpoint singleSpaced (afterSpace : bool) (s : string) : bool :=
  match s with
  | EmptyString => true
  | String c r =>
      if JS.isWhite c
      then negb afterSpace && JS.eqc c " " && singleSpaced true r
      else singleSpaced false r
  end.

(** The key [mergeRow] looks up for a shipment. *)
Definition shipmentKey (consignerName consigneeName : string) : string :=
  makeRouteKey (extractSourceFromConsigner consignerName)
               (extractDestinationFromConsignee consigneeName).

(** A city of the dropdown list, with its coordinates. *)
Definition lucknowItem : DropdownItem.t :=
  {| DropdownItem.itemName := "Lucknow";
     DropdownItem.lat := Some 26.5%float;
     DropdownItem.lng := Some 80.5%float |}.

Definition cityItem (name : string) (lat lng : option float) : DropdownItem.t :=
  {| DropdownItem.itemName := name; DropdownItem.lat := lat; DropdownItem.lng := lng |}.

(** The bucket of an aggregate for a side. *)
Definition bucketOfSide (side : TripSide) (r : LiveRouteRoute.t) : LiveRouteSideBucket.t :=
  match side with
  | Up => LiveRouteRoute.up r
  | Down => LiveRouteRoute.down r
  end.

(** The route of the row declares a side. *)
Definition hasSide (row : LiveMergedRow.t) : bool :=
  match LiveMergedRow.routeSide row with
  | Some _ => true
  | None => false
  end.

(** * Properties *)

(** ** Worked examples

    The values the functions take on the inputs quoted in the comments of
    the program and in its specification. *)

Example normalizeLocationKey_example :
  normalizeLocationKey "Safexpress - AMBALA (AML-11)" = "SAFEXPRESSAMBALA(AML11)".
Proof. reflexivity. Qed.

Example extractCodeInParensTS_examples :
  extractCodeInParensTS "Safexpress Ambala (AML-11)" = "AML-11" /\
  extractCodeInParensTS "No code" = "" /\
  extractCodeInParensTS "a () b ((x) (y" = "x".
Proof. repeat split. Qed.

Example extractCity_examples :
  extractCityFromConsignerName "LUCKNOW-11" = "LUCKNOW" /\
  extractCityFromConsigneeName "SAFEXPRESS AMBALA(AML11)" = "AMBALA" /\
  extractBranchCodeFromConsignee "X;SAFEXPRESS AMBALA(AML11)" = "AML11".
Proof. repeat split. Qed.

Example split_examples :
  JS.split ";" "" = [""] /\
  JS.split ";" "a;;b;" = ["a"; ""; "b"; ""] /\
  JS.splitWhite " a  b " = [""; "a"; "b"; ""] /\
  JS.trim "  a b  " = "a b".
Proof. repeat split. Qed.

Example pickEtaForDestination_examples :
  pickEtaForDestination "10/05/2024 10:00:00;NA;12/05/2024 08:00:00"
    = "12/05/2024 08:00:00" /\
  pickEtaForDestination "NA;NA" = "" /\
  pickEtaForDestination " na ;x; " = "x".
Proof. repeat split. Qed.

Example parseDelayToHours_examples :
  parseDelayToHours "01:15:00" = 1.25%float /\
  parseDelayToHours "02:30" = 2.5%float /\
  parseDelayToHours "5" = 0%float /\
  parseDelayToHours "02::30" = 0%float /\
  parseDelayToHours "-1:30:00" = (-0.5)%float.
Proof. repeat split; vm_compute; reflexivity. Qed.

Example coreKey_examples :
  buildEndpointCoreKey "Safexpress - AMBALA Hub (AML-11)" = "ambala" /\
  buildEndpointCoreKey "SAFEXPRESS  delhi north  inbound " = "delhinorth" /\
  buildLocationCoreKey "Safexpress - AMBALA Hub (AML-11)" = "safexpressambalahub".
Proof. repeat split. Qed.

Example tokens_examples :
  normalizeBaseName "Safexpress  Ambala(AML-11) Pvt. Ltd"
    = "safexpress ambala (aml 11) pvt ltd" /\
  extractCodeLower "Safexpress  Ambala(AML-11)" = "aml 11" /\
  tokenizeNameWithoutCode "The Safexpress  Ambala(AML-11) Pvt. Ltd at HUB"
    = ["safexpress"; "ambala"].
Proof. repeat split; vm_compute; reflexivity. Qed.

Example jaccardSimilarity_examples :
  jaccardSimilarity ["a"; "b"; "a"] ["a"; "b"] = 1%float /\
  jaccardSimilarity ["north"; "delhi"] ["delhi"] = 0.5%float /\
  jaccardSimilarity [] [] = 0%float.
Proof. repeat split; vm_compute; reflexivity. Qed.

(** The tiers in order: an exact name beats a name that merely contains the
    core of the query; a core inside a name beats the scores; a shared code
    scores 1. *)
Example findBestLocationMatch_examples :
  findBestLocationMatch "delhi" [location "New Delhi Hub"; location "DELHI "]
    defaultThreshold = Some (location "DELHI ") /\
  findBestLocationMatch "Safexpress Delhi Hub" [location "zz"; location "New Delhi (D1)"]
    defaultThreshold = Some (location "New Delhi (D1)") /\
  findBestLocationMatch "north delhi (ab1)" [location "zzz"; location "yyy (AB1)"]
    defaultThreshold = Some (location "yyy (AB1)") /\
  findBestLocationMatch "north delhi" [location "delhi"] defaultThreshold = None.
Proof. repeat split; vm_compute; reflexivity. Qed.

(** ** Characters and strings *)

Arguments JS.lowerChar : simpl never.
Arguments JS.upperChar : simpl never.
Arguments JS.isSharpS : simpl never.
Arguments asciiLowerChar : simpl never.
Arguments asciiUpperChar : simpl never.
Arguments JS.isWhite : simpl never.
Arguments JS.eqc : simpl never.

Section Strings.

Local Ltac by_cases c := destruct c as [[] [] [] [] [] [] [] []]; reflexivity.

Lemma isWhite_lowerChar (c : ascii) : JS.isWhite (JS.lowerChar c) = JS.isWhite c.
Proof. by_cases c. Qed.

Lemma lowerChar_asciiUpperChar (c : ascii) :
  JS.lowerChar (asciiUpperChar c) = JS.lowerChar c.
Proof. by_cases c. Qed.

Lemma isWhite_asciiUpperChar (c : ascii) : JS.isWhite (asciiUpperChar c) = JS.isWhite c.
Proof. by_cases c. Qed.

Lemma isWhite_asciiLowerChar (c : ascii) : JS.isWhite (asciiLowerChar c) = JS.isWhite c.
Proof. by_cases c. Qed.

Lemma toLowerCase_asciiUpperCase (s : string) :
  JS.toLowerCase (asciiUpperCase s) = JS.toLowerCase s.
Proof.
  unfold JS.toLowerCase, asciiUpperCase.
  induction s as [|c s IH]; simpl; [reflexivity|].
  rewrite lowerChar_asciiUpperChar. f_equal. exact IH.
Qed.

(** On an ASCII character the case mappings of JavaScript are the change
    of case of the ASCII letters. *)
Lemma upperChar_ascii (c : ascii) :
  (JS.code c <? 128)%N = true ->
  JS.isSharpS c = false /\ JS.upperChar c = asciiUpperChar c /\
  JS.lowerChar c = asciiLowerChar c.
Proof.
  destruct c as [[] [] [] [] [] [] [] []]; intros H;
    first [discriminate H | repeat split; reflexivity].
Qed.

Lemma toUpperCase_ascii (s : string) :
  isAscii s = true -> JS.toUpperCase s = asciiUpperCase s.
Proof.
  unfold asciiUpperCase. induction s as [|c s IH]; simpl; [reflexivity|].
  intros [Hc Hs]%andb_true_iff.
  destruct (upperChar_ascii c Hc) as (-> & -> & _). now rewrite IH.
Qed.

Lemma append_cons (c : ascii) (a b : string) : String c a +:+ b = String c (a +:+ b).
Proof. reflexivity. Qed.

Lemma append_empty_l (b : string) : "" +:+ b = b.
Proof. reflexivity. Qed.

Lemma smap_append (f : ascii -> ascii) (a b : string) :
  JS.smap f (a +:+ b) = JS.smap f a +:+ JS.smap f b.
Proof.
  induction a as [|c a IH]; [reflexivity|].
  rewrite append_cons. simpl. now rewrite append_cons, IH.
Qed.

Lemma remove_append (p : ascii -> bool) (a b : string) :
  JS.remove p (a +:+ b) = JS.remove p a +:+ JS.remove p b.
Proof.
  induction a as [|c a IH]; [reflexivity|].
  rewrite append_cons. simpl.
  destruct (p c); [exact IH | now rewrite append_cons, IH].
Qed.

Lemma append_empty_r (a : string) : a +:+ "" = a.
Proof. induction a as [|c a IH]; [reflexivity | now rewrite append_cons, IH]. Qed.

Lemma isEmpty_true (s : string) : JS.isEmpty s = true -> s = "".
Proof. destruct s; [reflexivity | discriminate]. Qed.

Lemma trimStart_toLowerCase (s : string) :
  JS.trimStart (JS.toLowerCase s) = JS.toLowerCase (JS.trimStart s).
Proof.
  unfold JS.toLowerCase.
  induction s as [|c s IH]; simpl; [reflexivity|].
  rewrite isWhite_lowerChar. destruct (JS.isWhite c); [exact IH | reflexivity].
Qed.

Lemma isEmpty_smap (f : ascii -> ascii) (s : string) :
  JS.isEmpty (JS.smap f s) = JS.isEmpty s.
Proof. destruct s; reflexivity. Qed.

Lemma trimEnd_toLowerCase (s : string) :
  JS.trimEnd (JS.toLowerCase s) = JS.toLowerCase (JS.trimEnd s).
Proof.
  unfold JS.toLowerCase.
  induction s as [|c s IH]; simpl; [reflexivity|].
  rewrite isWhite_lowerChar, IH, isEmpty_smap.
  destruct (JS.isWhite c && JS.isEmpty (JS.trimEnd s)); reflexivity.
Qed.

Lemma trim_toLowerCase (s : string) :
  JS.trim (JS.toLowerCase s) = JS.toLowerCase (JS.trim s).
Proof. unfold JS.trim. now rewrite trimStart_toLowerCase, trimEnd_toLowerCase. Qed.

(** Whitespace at either end does not survive [normalizeSimple]. *)
Lemma normalizeSimple_trimStart (s : string) :
  normalizeSimple (JS.trimStart s) = normalizeSimple s.
Proof.
  unfold normalizeSimple, JS.removeWhite, JS.toLowerCase.
  induction s as [|c s IH]; simpl; [reflexivity|].
  destruct (JS.isWhite c) eqn:W; simpl.
  - now rewrite isWhite_lowerChar, W.
  - reflexivity.
Qed.

Lemma normalizeSimple_trimEnd (s : string) :
  normalizeSimple (JS.trimEnd s) = normalizeSimple s.
Proof.
  unfold normalizeSimple, JS.removeWhite, JS.toLowerCase.
  induction s as [|c s IH]; simpl; [reflexivity|].
  destruct (JS.isWhite c) eqn:W; simpl.
  - rewrite isWhite_lowerChar, W.
    destruct (JS.isEmpty (JS.trimEnd s)) eqn:E; simpl.
    + apply isEmpty_true in E. rewrite E in IH. exact IH.
    + rewrite isWhite_lowerChar, W. exact IH.
  - rewrite isWhite_lowerChar, W. now rewrite IH.
Qed.

Lemma normalizeSimple_trim (s : string) : normalizeSimple (JS.trim s) = normalizeSimple s.
Proof. unfold JS.trim. now rewrite normalizeSimple_trimEnd, normalizeSimple_trimStart. Qed.

Lemma normalizeSimple_append (a b : string) :
  normalizeSimple (a +:+ b) = normalizeSimple a +:+ normalizeSimple b.
Proof.
  unfold normalizeSimple, JS.removeWhite, JS.toLowerCase.
  now rewrite smap_append, remove_append.
Qed.

Lemma normalizeSimple_allWhite (w : string) : allWhite w = true -> normalizeSimple w = "".
Proof.
  unfold allWhite, normalizeSimple, JS.removeWhite, JS.toLowerCase.
  induction w as [|c w IH]; simpl; [reflexivity|].
  rewrite isWhite_lowerChar. destruct (JS.isWhite c); [exact IH | discriminate].
Qed.

Lemma normalizeSimple_padded (l s r : string) :
  allWhite l = true -> allWhite r = true ->
  normalizeSimple (l +:+ s +:+ r) = normalizeSimple s.
Proof.
  intros Hl Hr. rewrite !normalizeSimple_append.
  rewrite (normalizeSimple_allWhite l Hl), (normalizeSimple_allWhite r Hr).
  rewrite append_empty_l. apply append_empty_r.
Qed.

Lemma normalizeSimple_asciiUpperCase (s : string) :
  normalizeSimple (asciiUpperCase s) = normalizeSimple s.
Proof. unfold normalizeSimple. now rewrite toLowerCase_asciiUpperCase. Qed.

End Strings.

(** ** Route keys *)

(** C8, for ASCII strings: the route key of two strings made of ASCII
    characters is the route key of their upper-case forms. For all
    strings, changing the ASCII letters to upper case does not change the
    key, and neither does whitespace around either argument (removed by
    [trim], or added as padding made of whitespace). *)
Theorem makeRouteKey_case_whitespace (s t : string) :
  (isAscii s = true -> isAscii t = true ->
   makeRouteKey s t = makeRouteKey (JS.toUpperCase s) (JS.toUpperCase t)) /\
  makeRouteKey s t = makeRouteKey (asciiUpperCase s) (asciiUpperCase t) /\
  makeRouteKey (JS.trim s) (JS.trim t) = makeRouteKey s t /\
  (forall l1 r1 l2 r2 : string,
     allWhite l1 = true -> allWhite r1 = true ->
     allWhite l2 = true -> allWhite r2 = true ->
     makeRouteKey (l1 +:+ s +:+ r1) (l2 +:+ t +:+ r2) = makeRouteKey s t).
Proof.
  unfold makeRouteKey. split; [|split; [|split]].
  - intros Hs Ht. rewrite (toUpperCase_ascii s Hs), (toUpperCase_ascii t Ht).
    now rewrite !normalizeSimple_asciiUpperCase.
  - now rewrite !normalizeSimple_asciiUpperCase.
  - now rewrite !normalizeSimple_trim.
  - intros l1 r1 l2 r2 H1 H2 H3 H4.
    now rewrite !normalizeSimple_padded.
Qed.

Lemma makeRouteKey_case_whitespace_witness :
  makeRouteKey "Lucknow" "Ambala (AML11)"
    = makeRouteKey (JS.toUpperCase "Lucknow") (JS.toUpperCase "Ambala (AML11)") /\
  JS.toUpperCase "Lucknow" = "LUCKNOW" /\
  makeRouteKey ("  " +:+ "Lucknow" +:+ " ") ("" +:+ "Ambala (AML11)" +:+ "  ")
    = makeRouteKey "Lucknow" "Ambala (AML11)".
Proof.
  split; [|split].
  - apply (proj1 (makeRouteKey_case_whitespace "Lucknow" "Ambala (AML11)"));
      reflexivity.
  - reflexivity.
  - apply (proj2 (proj2 (proj2
             (makeRouteKey_case_whitespace "Lucknow" "Ambala (AML11)"))));
      reflexivity.
Defined.

(** C8, as stated for all strings, fails: the upper-case form of the sharp
    s is SS, whose lower-case form is ss, so the key of "Strasse" written
    with a sharp s is not the key of its upper-case form. *)
Lemma upper_case_changes_route_key :
  JS.toUpperCase strasse = "STRASSE" /\
  makeRouteKey strasse "x" = String.append "stra" (String (ascii_of_N 223) "e___x") /\
  makeRouteKey (JS.toUpperCase strasse) (JS.toUpperCase "x") = "strasse___x" /\
  makeRouteKey strasse "x"
    <> makeRouteKey (JS.toUpperCase strasse) (JS.toUpperCase "x").
Proof.
  assert (H1 : makeRouteKey strasse "x"
               = String.append "stra" (String (ascii_of_N 223) "e___x"))
    by (vm_compute; reflexivity).
  assert (H2 : makeRouteKey (JS.toUpperCase strasse) (JS.toUpperCase "x")
               = "strasse___x") by (vm_compute; reflexivity).
  split; [vm_compute; reflexivity|]. split; [exact H1|]. split; [exact H2|].
  rewrite H1, H2. vm_compute. discriminate.
Qed.

(** ** Delay strings *)

Section Delay.

Lemma orZero_parseInt (f : string) :
  JS.orZero (Some (JS.parseInt f)) =
  match fieldInt f with Some z => numberOfInt z | None => 0%float end.
Proof. unfold fieldInt. destruct (JS.parseInt f) as [|[] [|p]]; reflexivity. Qed.

Lemma orZero_part (fields : list string) (i : nat) :
  JS.orZero (part (map JS.parseInt fields) i) = fieldValue fields i.
Proof.
  unfold part, fieldValue. rewrite nth_error_map.
  destruct (nth_error fields i) as [f|]; simpl; [apply orZero_parseInt | reflexivity].
Qed.

Lemma isNaN_parseInt (f : string) :
  JS.isNaN (JS.parseInt f) = negb (bool_decide (is_Some (fieldInt f))).
Proof.
  unfold fieldInt. destruct (JS.parseInt f) as [|[] n]; reflexivity.
Qed.

Lemma existsb_isNaN (fields : list string) :
  existsb JS.isNaN (map JS.parseInt fields) =
  negb (forallb (fun f => bool_decide (is_Some (fieldInt f))) fields).
Proof.
  induction fields as [|f fields IH]; simpl; [reflexivity|].
  rewrite IH, isNaN_parseInt, negb_andb. reflexivity.
Qed.

Lemma malformed_iff (fields : list string) :
  (length (map JS.parseInt fields) <? 2)%nat || existsb JS.isNaN (map JS.parseInt fields)
  = negb (wellFormedDelay fields).
Proof.
  unfold wellFormedDelay. rewrite length_map, existsb_isNaN, negb_andb.
  f_equal. destruct (Nat.ltb_spec (length fields) 2), (Nat.leb_spec 2 (length fields));
    simpl; try reflexivity; lia.
Qed.

End Delay.

(** C3, as the program has it: [parseDelayToHours] is total and returns,
    on every string, [hh + mm/60 + ss/3600] when the string has at least
    two [:]-separated fields that all start with an integer (what follows
    the integer in a field, and the fields after the third, are ignored; a
    missing seconds field counts for 0), and [0] on any other string; so
    "02:30:00" gives 2.5, and the empty string and "garbage" give 0. *)
Theorem parseDelayToHours_spec (delay : string) :
  parseDelayToHours delay = delayHours delay /\
  parseDelayToHours "02:30:00" = 2.5%float /\
  parseDelayToHours "" = 0%float /\
  parseDelayToHours "garbage" = 0%float.
Proof.
  split; [|repeat split; vm_compute; reflexivity].
  unfold parseDelayToHours, delayHours.
  destruct (JS.isEmpty delay) eqn:E.
  - apply isEmpty_true in E. subst delay. reflexivity.
  - rewrite malformed_iff.
    destruct (wellFormedDelay (JS.split ":" delay)); cbn [negb]; [|reflexivity].
    now rewrite !orZero_part.
Qed.

(** C3, as stated, fails: a field that starts with digits counts for these
    digits whatever follows them, so a malformed string such as "1x:30:00"
    does not give 0. *)
Lemma malformed_delay_is_not_zero :
  parseDelayToHours "1x:30:00" = 1.5%float /\
  parseDelayToHours "1x:30:00" <> 0%float.
Proof.
  assert (H : parseDelayToHours "1x:30:00" = 1.5%float) by (vm_compute; reflexivity).
  split; [exact H|]. rewrite H. intros Heq.
  assert (Hne : (1.5 =? 0)%float = false) by reflexivity.
  rewrite Heq in Hne. discriminate Hne.
Qed.

(** ** Unmatched rows *)

Section Unmatched.

Lemma collect_fold (rows : list LiveMergedRow.t) (seen : gset string)
    (res : list UnmatchedRoutePair.t) :
  snd (fold_left collectStep rows (seen, res))
  = res ++ map toUnmatchedPair (freshRows seen rows).
Proof.
  revert seen res. induction rows as [|row rows IH]; intros seen res; simpl.
  - now rewrite app_nil_r.
  - destruct (hasRouteId row); [apply IH|].
    destruct (decide (unmatchedKey row ∈ seen)); [apply IH|].
    rewrite IH. simpl. now rewrite <- app_assoc.
Qed.

Lemma collectUnmatched_freshRows (merged : list LiveMergedRow.t) :
  collectUnmatched merged = map toUnmatchedPair (freshRows ∅ merged).
Proof. unfold collectUnmatched. now rewrite collect_fold. Qed.

Lemma freshRows_elem (seen : gset string) (rows : list LiveMergedRow.t) (r : LiveMergedRow.t) :
  r ∈ freshRows seen rows ->
  r ∈ rows /\ hasRouteId r = false /\ unmatchedKey r ∉ seen.
Proof.
  revert seen. induction rows as [|row rows IH]; intros seen; simpl.
  - intros H. inversion H.
  - destruct (hasRouteId row) eqn:E.
    { intros H. destruct (IH _ H) as (? & ? & ?). repeat split; auto. now right. }
    destruct (decide (unmatchedKey row ∈ seen)) as [Hin|Hin].
    { intros H. destruct (IH _ H) as (? & ? & ?). repeat split; auto. now right. }
    intros H. apply elem_of_cons in H as [->|H].
    + repeat split; auto. now left.
    + destruct (IH _ H) as (? & ? & Hn). repeat split; auto; [now right|].
      intros Hs. apply Hn, elem_of_union. now right.
Qed.

Lemma freshRows_NoDup (seen : gset string) (rows : list LiveMergedRow.t) :
  NoDup (map unmatchedKey (freshRows seen rows)).
Proof.
  revert seen. induction rows as [|row rows IH]; intros seen; simpl.
  - constructor.
  - destruct (hasRouteId row); [apply IH|].
    destruct (decide (unmatchedKey row ∈ seen)); [apply IH|].
    simpl. constructor; [|apply IH].
    change (map unmatchedKey ?l) with (unmatchedKey <$> l).
    intros (r & Hk & Hr)%list_elem_of_fmap.
    apply freshRows_elem in Hr as (_ & _ & Hn).
    apply Hn, elem_of_union. left. now apply elem_of_singleton.
Qed.

(** Every row without a route id has its key in [seen] or in the output. *)
Lemma freshRows_cover (seen : gset string) (rows : list LiveMergedRow.t) (r : LiveMergedRow.t) :
  r ∈ rows -> hasRouteId r = false ->
  unmatchedKey r ∈ seen \/ unmatchedKey r ∈ map unmatchedKey (freshRows seen rows).
Proof.
  revert seen. induction rows as [|row rows IH]; intros seen Hr Hl; simpl.
  - inversion Hr.
  - apply elem_of_cons in Hr as [->|Hr].
    + rewrite Hl. destruct (decide (unmatchedKey row ∈ seen)); [now left|].
      right. simpl. now left.
    + destruct (hasRouteId row); [now apply IH|].
      destruct (decide (unmatchedKey row ∈ seen)); [now apply IH|].
      destruct (IH ({[unmatchedKey row]} ∪ seen) Hr Hl) as [H|H].
      * apply elem_of_union in H as [H|H]; [|now left].
        apply elem_of_singleton in H. right. simpl. rewrite H. now left.
      * right. simpl. now right.
Qed.

(** The first row carrying a key is the one that is kept. *)
Lemma freshRows_first (seen : gset string) (l1 l2 : list LiveMergedRow.t)
    (row : LiveMergedRow.t) :
  hasRouteId row = false -> unmatchedKey row ∉ seen ->
  (forall r', r' ∈ l1 -> hasRouteId r' = false -> unmatchedKey r' <> unmatchedKey row) ->
  row ∈ freshRows seen (l1 ++ row :: l2).
Proof.
  revert seen. induction l1 as [|r l1 IH]; intros seen Hl Hs Hfirst; simpl.
  - rewrite Hl. destruct (decide (unmatchedKey row ∈ seen)); [contradiction | now left].
  - assert (Hrest : forall r', r' ∈ l1 -> hasRouteId r' = false ->
                               unmatchedKey r' <> unmatchedKey row)
      by (intros r' Hr'; apply Hfirst; now right).
    destruct (hasRouteId r) eqn:E; [now apply IH|].
    destruct (decide (unmatchedKey r ∈ seen)); [now apply IH|].
    right. apply IH; auto.
    assert (unmatchedKey r <> unmatchedKey row) by (apply Hfirst; [now left | exact E]).
    intros [Hu|Hu]%elem_of_union; [|contradiction].
    apply elem_of_singleton in Hu. congruence.
Qed.

Lemma freshRows_sublist (seen : gset string) (rows : list LiveMergedRow.t) :
  freshRows seen rows `sublist_of` filter lacksRouteId rows.
Proof.
  revert seen. induction rows as [|row rows IH]; intros seen; simpl.
  - constructor.
  - destruct (hasRouteId row) eqn:E.
    + rewrite filter_cons_False by (unfold lacksRouteId; rewrite E; exact id).
      apply IH.
    + rewrite filter_cons_True by (unfold lacksRouteId; rewrite E; exact I).
      destruct (decide (unmatchedKey row ∈ seen)).
      * apply sublist_cons, IH.
      * apply sublist_skip, IH.
Qed.

End Unmatched.

(** C10: the unmatched output holds one entry per distinct compound key
    [matchKey|consignerName|consigneeName] among the rows without a route
    id: keys of the output are pairwise distinct, every entry comes from a
    row without a route id, every such row has its key in the output, the
    entry kept for a key is the one of its first occurrence, and the output
    is in input order. *)
Theorem collectUnmatched_first_occurrences (merged : list LiveMergedRow.t) :
  NoDup (map pairKey (collectUnmatched merged)) /\
  (forall p, p ∈ collectUnmatched merged ->
     exists row, row ∈ merged /\ hasRouteId row = false /\ p = toUnmatchedPair row) /\
  (forall row, row ∈ merged -> hasRouteId row = false ->
     unmatchedKey row ∈ map pairKey (collectUnmatched merged)) /\
  (forall l1 row l2, merged = l1 ++ row :: l2 -> hasRouteId row = false ->
     (forall r', r' ∈ l1 -> hasRouteId r' = false ->
                 unmatchedKey r' <> unmatchedKey row) ->
     toUnmatchedPair row ∈ collectUnmatched merged) /\
  collectUnmatched merged
    `sublist_of` map toUnmatchedPair (filter lacksRouteId merged).
Proof.
  rewrite collectUnmatched_freshRows.
  assert (Hk : map pairKey (map toUnmatchedPair (freshRows ∅ merged))
               = map unmatchedKey (freshRows ∅ merged))
    by (rewrite map_map; reflexivity).
  rewrite Hk. repeat split.
  - apply freshRows_NoDup.
  - change (map toUnmatchedPair ?l) with (toUnmatchedPair <$> l).
    intros p (row & -> & Hr)%list_elem_of_fmap.
    apply freshRows_elem in Hr as (? & ? & _). now exists row.
  - intros row Hr Hl.
    destruct (freshRows_cover ∅ merged row Hr Hl) as [H|H]; [|exact H].
    now apply not_elem_of_empty in H.
  - intros l1 row l2 -> Hl Hfirst.
    change (map toUnmatchedPair ?l) with (toUnmatchedPair <$> l).
    apply list_elem_of_fmap_2, freshRows_first; auto. apply not_elem_of_empty.
  - change (map toUnmatchedPair ?l) with (toUnmatchedPair <$> l).
    apply fmap_sublist, freshRows_sublist.
Qed.

(** ** Aggregation *)

Section RouteMap.

Lemma routeMapGet_set (k i : string) (v : LiveRouteRoute.t)
    (m : list (string * LiveRouteRoute.t)) :
  routeMapGet i (routeMapSet k v m)
  = if String.eqb i k then Some v else routeMapGet i m.
Proof.
  induction m as [|[k' v'] m IH]; simpl; [reflexivity|].
  destruct (String.eqb_spec k k') as [->|Hk]; simpl.
  - destruct (String.eqb i k'); reflexivity.
  - destruct (String.eqb_spec i k') as [->|Hi].
    + destruct (String.eqb_spec k' k) as [->|_]; [contradiction | reflexivity].
    + exact IH.
Qed.

Lemma routeMapSet_elem (k : string) (v : LiveRouteRoute.t)
    (m : list (string * LiveRouteRoute.t)) (kv : string * LiveRouteRoute.t) :
  kv ∈ routeMapSet k v m -> kv = (k, v) \/ kv ∈ m.
Proof.
  induction m as [|[k' v'] m IH]; simpl.
  - intros H. apply list_elem_of_singleton in H. now left.
  - destruct (String.eqb k k').
    + intros [->|H]%elem_of_cons; [now left | right; now right].
    + intros [->|H]%elem_of_cons; [right; now left|].
      destruct (IH H) as [->|H']; [now left | right; now right].
Qed.

Lemma routeMapSet_key (k x : string) (v : LiveRouteRoute.t)
    (m : list (string * LiveRouteRoute.t)) :
  x ∈ map fst (routeMapSet k v m) -> x = k \/ x ∈ map fst m.
Proof.
  change (map fst ?l) with (fst <$> l).
  intros ([k' v'] & -> & H)%list_elem_of_fmap.
  apply routeMapSet_elem in H as [H|H].
  - inversion H. now left.
  - right. apply list_elem_of_fmap. now exists (k', v').
Qed.

Lemma routeMapSet_key_mono (k x : string) (v : LiveRouteRoute.t)
    (m : list (string * LiveRouteRoute.t)) :
  x = k \/ x ∈ map fst m -> x ∈ map fst (routeMapSet k v m).
Proof.
  induction m as [|[k' v'] m IH]; simpl.
  - intros [->|H]; [now left | inversion H].
  - destruct (String.eqb_spec k k') as [->|Hk]; simpl.
    + intros [->|H]; [now left | exact H].
    + intros [->|[->|H]%elem_of_cons].
      * right. apply IH. now left.
      * now left.
      * right. apply IH. now right.
Qed.

Lemma routeMapSet_wf (k : string) (v : LiveRouteRoute.t)
    (m : list (string * LiveRouteRoute.t)) :
  LiveRouteRoute.id v = k -> wfRouteMap m -> wfRouteMap (routeMapSet k v m).
Proof.
  intros Hid [Hnd Hall]. split.
  - clear Hall. induction m as [|[k' v'] m IH]; simpl.
    + repeat constructor. intros H. inversion H.
    + apply NoDup_cons in Hnd as [Hn Hnd].
      destruct (String.eqb_spec k k') as [->|Hk]; simpl.
      * now apply NoDup_cons.
      * apply NoDup_cons. split; [|now apply IH].
        intros [->|H]%routeMapSet_key; [now apply Hk | now apply Hn].
  - apply Forall_forall. intros kv [->|H]%routeMapSet_elem; [exact Hid|].
    rewrite Forall_forall in Hall. now apply Hall.
Qed.

Lemma routeMapGet_elem_of (i : string) (v : LiveRouteRoute.t)
    (m : list (string * LiveRouteRoute.t)) :
  routeMapGet i m = Some v -> (i, v) ∈ m.
Proof.
  induction m as [|[k' v'] m IH]; simpl; [discriminate|].
  destruct (String.eqb_spec i k') as [->|_].
  - intros [= ->]. now left.
  - intros H. right. now apply IH.
Qed.

Lemma routeMapGet_of_elem (k : string) (v : LiveRouteRoute.t)
    (m : list (string * LiveRouteRoute.t)) :
  NoDup (map fst m) -> (k, v) ∈ m -> routeMapGet k m = Some v.
Proof.
  induction m as [|[k' v'] m IH]; simpl; intros Hnd H; [inversion H|].
  apply NoDup_cons in Hnd as [Hn Hnd].
  apply elem_of_cons in H as [[= -> ->]|H].
  - now rewrite String.eqb_refl.
  - destruct (String.eqb_spec k k') as [->|_]; [|now apply IH].
    exfalso. apply Hn. change (map fst m) with (fst <$> m).
    apply list_elem_of_fmap. now exists (k', v).
Qed.

Lemma routeById_values (i : string) (m : list (string * LiveRouteRoute.t)) :
  Forall (fun kv => LiveRouteRoute.id (snd kv) = fst kv) m ->
  routeById i (map snd m) = routeMapGet i m.
Proof.
  unfold routeById.
  induction m as [|[k v] m IH]; simpl; intros Hall; [reflexivity|].
  apply Forall_cons in Hall as [Hid Hall]. simpl in Hid. rewrite Hid.
  destruct (String.eqb i k); [reflexivity | now apply IH].
Qed.

End RouteMap.

Section Aggregation.

Variable coordsByVehicle : gmap string VehiclePos.t.

Local Abbreviation step := (aggregateStep coordsByVehicle).
Local Abbreviation entry := (makeVehicleEntry coordsByVehicle).

Lemma step_wf (m : list (string * LiveRouteRoute.t)) (row : LiveMergedRow.t) :
  wfRouteMap m -> wfRouteMap (step m row).
Proof.
  intros Hwf. unfold aggregateStep.
  destruct (aggregated row) as [[[i s] d]|]; [|exact Hwf].
  destruct (routeMapGet i m) as [b|] eqn:G.
  - destruct (LiveMergedRow.routeSide row) as [side|]; [|exact Hwf].
    apply routeMapSet_wf; [|exact Hwf]. simpl.
    apply routeMapGet_elem_of in G. destruct Hwf as [_ Hall].
    rewrite Forall_forall in Hall. exact (Hall _ G).
  - destruct (LiveMergedRow.routeSide row) as [side|];
      repeat (apply routeMapSet_wf; [reflexivity|]); exact Hwf.
Qed.

Lemma fold_wf (rows : list LiveMergedRow.t) (m : list (string * LiveRouteRoute.t)) :
  wfRouteMap m -> wfRouteMap (fold_left step rows m).
Proof.
  revert m. induction rows as [|row rows IH]; intros m Hwf; simpl; [exact Hwf|].
  apply IH, step_wf, Hwf.
Qed.

Lemma wf_empty : wfRouteMap [].
Proof. split; constructor. Qed.

(** What one iteration does to the buckets held under a key. *)
Lemma step_buckets (m : list (string * LiveRouteRoute.t)) (row : LiveMergedRow.t)
    (i : string) :
  bucketsAt i (step m row) =
  (if rowOf i Up row then pushVehicle (entry row) (fst (bucketsAt i m))
   else fst (bucketsAt i m),
   if rowOf i Down row then pushVehicle (entry row) (snd (bucketsAt i m))
   else snd (bucketsAt i m)).
Proof.
  unfold aggregateStep, rowOf, aggregatedAs, bucketsAt.
  destruct (aggregated row) as [[[i' s] d]|];
    [|simpl; destruct (routeMapGet i m); reflexivity].
  destruct (routeMapGet i' m) as [b|] eqn:G;
    destruct (LiveMergedRow.routeSide row) as [[]|];
    rewrite ?routeMapGet_set;
    destruct (String.eqb_spec i i') as [->|Hi];
    rewrite ?G; simpl; try reflexivity;
    destruct (routeMapGet i m); reflexivity.
Qed.

Lemma entriesOf_cons (i : string) (side : TripSide) (row : LiveMergedRow.t)
    (rows : list LiveMergedRow.t) :
  entriesOf coordsByVehicle i side (row :: rows) =
  if rowOf i side row then entry row :: entriesOf coordsByVehicle i side rows
  else entriesOf coordsByVehicle i side rows.
Proof.
  unfold entriesOf. destruct (rowOf i side row) eqn:E.
  - rewrite filter_cons_True by (rewrite E; exact I). reflexivity.
  - rewrite filter_cons_False by (rewrite E; exact id). reflexivity.
Qed.

Lemma fold_buckets (rows : list LiveMergedRow.t) (m : list (string * LiveRouteRoute.t))
    (i : string) :
  bucketsAt i (fold_left step rows m) =
  (addEntries (entriesOf coordsByVehicle i Up rows) (fst (bucketsAt i m)),
   addEntries (entriesOf coordsByVehicle i Down rows) (snd (bucketsAt i m))).
Proof.
  revert m. induction rows as [|row rows IH]; intros m; simpl.
  - now destruct (bucketsAt i m).
  - rewrite IH, step_buckets, !entriesOf_cons. simpl.
    destruct (rowOf i Up row), (rowOf i Down row); reflexivity.
Qed.

Lemma lateCount_cons (v : LiveRouteVehicleEntry.t) (vs : list LiveRouteVehicleEntry.t) :
  lateCount (v :: vs) =
  (if isLate (LiveRouteVehicleEntry.lateHours v) then 1 else 0) + lateCount vs.
Proof.
  unfold lateCount. destruct (isLate (LiveRouteVehicleEntry.lateHours v)) eqn:E.
  - rewrite filter_cons_True by (rewrite E; exact I). reflexivity.
  - rewrite filter_cons_False by (rewrite E; exact id). reflexivity.
Qed.

Lemma lateCount_le (vs : list LiveRouteVehicleEntry.t) : lateCount vs <= length vs.
Proof. unfold lateCount. apply length_filter. Qed.

Lemma addEntries_spec (vs : list LiveRouteVehicleEntry.t) (b : LiveRouteSideBucket.t) :
  addEntries vs b =
  {| LiveRouteSideBucket.totalVehicles := LiveRouteSideBucket.totalVehicles b + length vs;
     LiveRouteSideBucket.lateVehicles := LiveRouteSideBucket.lateVehicles b + lateCount vs;
     LiveRouteSideBucket.vehicles := LiveRouteSideBucket.vehicles b ++ vs |}.
Proof.
  unfold addEntries. revert b. induction vs as [|v vs IH]; intros b; simpl.
  - destruct b. simpl. f_equal; [lia | unfold lateCount; simpl; lia | now rewrite app_nil_r].
  - rewrite IH, lateCount_cons. unfold pushVehicle. simpl.
    destruct (isLate (LiveRouteVehicleEntry.lateHours v)); simpl;
      f_equal; try lia; now rewrite <- app_assoc.
Qed.

Lemma addEntries_empty (vs : list LiveRouteVehicleEntry.t) :
  addEntries vs emptyBucket = bucketOfEntries vs.
Proof. rewrite addEntries_spec. reflexivity. Qed.

(** The buckets of every route id after the whole loop. *)
Lemma bucketsOf_aggregate (merged : list LiveMergedRow.t) (i : string) :
  bucketsOf i (aggregateLiveRoutes merged coordsByVehicle) =
  (bucketOfEntries (entriesOf coordsByVehicle i Up merged),
   bucketOfEntries (entriesOf coordsByVehicle i Down merged)).
Proof.
  unfold bucketsOf, aggregateLiveRoutes.
  rewrite routeById_values by (apply (fold_wf merged [] wf_empty)).
  fold (bucketsAt i (fold_left step merged [])).
  rewrite fold_buckets. simpl. now rewrite !addEntries_empty.
Qed.

Lemma aggregate_routeById (merged : list LiveMergedRow.t) (r : LiveRouteRoute.t) :
  r ∈ aggregateLiveRoutes merged coordsByVehicle ->
  routeById (LiveRouteRoute.id r) (aggregateLiveRoutes merged coordsByVehicle) = Some r.
Proof.
  unfold aggregateLiveRoutes.
  destruct (fold_wf merged [] wf_empty) as [Hnd Hall].
  change (map snd ?l) with (snd <$> l) at 1.
  intros ([k v] & -> & H)%list_elem_of_fmap. simpl.
  rewrite routeById_values by exact Hall.
  rewrite Forall_forall in Hall. pose proof (Hall _ H) as Hid.
  simpl in Hid. rewrite Hid. now apply routeMapGet_of_elem.
Qed.

(** The buckets of an aggregate of the output. *)
Lemma aggregate_buckets (merged : list LiveMergedRow.t) (r : LiveRouteRoute.t) :
  r ∈ aggregateLiveRoutes merged coordsByVehicle ->
  LiveRouteRoute.up r
    = bucketOfEntries (entriesOf coordsByVehicle (LiveRouteRoute.id r) Up merged) /\
  LiveRouteRoute.down r
    = bucketOfEntries (entriesOf coordsByVehicle (LiveRouteRoute.id r) Down merged).
Proof.
  intros Hr. pose proof (bucketsOf_aggregate merged (LiveRouteRoute.id r)) as H.
  unfold bucketsOf in H. rewrite (aggregate_routeById merged r Hr) in H.
  now inversion H.
Qed.

(** Keys enter the [Map] only through rows that pass the guard, and every
    such row has its key in the [Map] afterwards. *)
Lemma step_keys (m : list (string * LiveRouteRoute.t)) (row : LiveMergedRow.t)
    (k : string) :
  k ∈ map fst (step m row) <-> k ∈ map fst m \/ aggregatedAs k row = true.
Proof.
  unfold aggregateStep, aggregatedAs.
  destruct (aggregated row) as [[[i s] d]|]; [|split; [now left | now intros [|]]].
  assert (Hget : forall b, routeMapGet i m = Some b -> i ∈ map fst m).
  { intros b G. apply routeMapGet_elem_of in G.
    change (map fst m) with (fst <$> m). apply list_elem_of_fmap. now exists (i, b). }
  split.
  - destruct (routeMapGet i m) as [b|] eqn:G;
      destruct (LiveMergedRow.routeSide row) as [side|]; intros H;
      repeat (apply routeMapSet_key in H as [->|H]);
      try (right; apply String.eqb_refl); now left.
  - intros H.
    assert (Hk : k = i \/ k ∈ map fst m).
    { destruct H as [H|H]; [now right | left]. now apply String.eqb_eq in H. }
    destruct (routeMapGet i m) as [b|] eqn:G;
      destruct (LiveMergedRow.routeSide row) as [side|].
    + now apply routeMapSet_key_mono.
    + destruct Hk as [->|Hk]; [now apply (Hget b) | exact Hk].
    + apply routeMapSet_key_mono. right. now apply routeMapSet_key_mono.
    + now apply routeMapSet_key_mono.
Qed.

Lemma fold_keys (rows : list LiveMergedRow.t) (m : list (string * LiveRouteRoute.t))
    (k : string) :
  k ∈ map fst (fold_left step rows m) <->
  k ∈ map fst m \/ exists row, row ∈ rows /\ aggregatedAs k row = true.
Proof.
  revert m. induction rows as [|row rows IH]; intros m; simpl.
  - split; [now left | intros [H|(row & H & _)]; [exact H | inversion H]].
  - rewrite IH, step_keys. split.
    + intros [[H|H]|(r & Hr & H)]; [now left | right | right].
      * exists row. split; [now left | exact H].
      * exists r. split; [now right | exact H].
    + intros [H|(r & [->|Hr]%elem_of_cons & H)].
      * left. now left.
      * left. now right.
      * right. now exists r.
Qed.

(** The ids of the output are the route ids of the rows that pass the guard. *)
Lemma aggregate_ids (merged : list LiveMergedRow.t) (i : string) :
  (exists r, r ∈ aggregateLiveRoutes merged coordsByVehicle /\ LiveRouteRoute.id r = i)
  <-> exists row, row ∈ merged /\ aggregatedAs i row = true.
Proof.
  unfold aggregateLiveRoutes.
  destruct (fold_wf merged [] wf_empty) as [_ Hall]. rewrite Forall_forall in Hall.
  pose proof (fold_keys merged [] i) as Hk. simpl in Hk.
  change (map fst ?l) with (fst <$> l) in Hk.
  change (map snd ?l) with (snd <$> l).
  split.
  - intros (r & ([k v] & -> & H)%list_elem_of_fmap & <-).
    destruct (proj1 Hk) as [Hn|Hrow]; [|inversion Hn | exact Hrow].
    apply list_elem_of_fmap. exists (k, v). split; [|exact H].
    exact (Hall _ H).
  - intros Hrow.
    pose proof (proj2 Hk (or_intror Hrow)) as Hin.
    apply list_elem_of_fmap in Hin as ([k v] & -> & H).
    exists v. split; [|exact (Hall _ H)].
    apply list_elem_of_fmap. now exists (k, v).
Qed.

End Aggregation.

Section Buckets.

Variable coordsByVehicle : gmap string VehiclePos.t.

Lemma entriesOf_nonempty (i : string) (side : TripSide) (merged : list LiveMergedRow.t) :
  entriesOf coordsByVehicle i side merged <> [] <->
  exists row, row ∈ merged /\ rowOf i side row = true.
Proof.
  induction merged as [|row rows IH].
  - split; [intros H; now contradiction H | intros (row & H & _); inversion H].
  - rewrite entriesOf_cons. destruct (rowOf i side row) eqn:E.
    + split; [intros _ | discriminate]. exists row. split; [now left | exact E].
    + rewrite IH. split.
      * intros (r & Hr & H). exists r. split; [now right | exact H].
      * intros (r & [->|Hr]%elem_of_cons & H); [congruence | now exists r].
Qed.

Lemma entriesOf_sideless (i : string) (side : TripSide) (l1 l2 : list LiveMergedRow.t)
    (row : LiveMergedRow.t) :
  LiveMergedRow.routeSide row = None ->
  entriesOf coordsByVehicle i side (l1 ++ row :: l2)
  = entriesOf coordsByVehicle i side (l1 ++ l2).
Proof.
  intros Hs. unfold entriesOf. rewrite !filter_app. f_equal. f_equal.
  apply filter_cons_False. unfold rowOf. rewrite Hs, andb_false_r. exact id.
Qed.

End Buckets.

(** C6: in every aggregate of the output, each of the two side buckets has
    [lateVehicles <= totalVehicles], and [lateVehicles] is the number of
    its vehicle entries with [lateHours > 0]; [totalVehicles] is the number
    of its entries. *)
Theorem sideBucket_late_le_total (merged : list LiveMergedRow.t)
    (coordsByVehicle : gmap string VehiclePos.t) (r : LiveRouteRoute.t)
    (b : LiveRouteSideBucket.t) :
  r ∈ aggregateLiveRoutes merged coordsByVehicle ->
  b = LiveRouteRoute.up r \/ b = LiveRouteRoute.down r ->
  LiveRouteSideBucket.lateVehicles b <= LiveRouteSideBucket.totalVehicles b /\
  LiveRouteSideBucket.lateVehicles b = lateCount (LiveRouteSideBucket.vehicles b) /\
  LiveRouteSideBucket.totalVehicles b = length (LiveRouteSideBucket.vehicles b).
Proof.
  intros Hr Hb.
  destruct (aggregate_buckets coordsByVehicle merged r Hr) as [Hu Hd].
  assert (Hbucket : exists vs, b = bucketOfEntries vs)
    by (destruct Hb as [->| ->]; eauto).
  destruct Hbucket as [vs ->]. simpl.
  repeat split. apply lateCount_le.
Qed.

Lemma sideBucket_late_le_total_witness :
  exampleAggregate ∈ aggregateLiveRoutes exampleMerged ∅ /\
  LiveRouteSideBucket.lateVehicles (LiveRouteRoute.up exampleAggregate)
    <= LiveRouteSideBucket.totalVehicles (LiveRouteRoute.up exampleAggregate).
Proof.
  assert (H : exampleAggregate ∈ aggregateLiveRoutes exampleMerged ∅)
    by (vm_compute; left).
  split; [exact H|].
  exact (proj1 (sideBucket_late_le_total exampleMerged ∅ exampleAggregate
                  (LiveRouteRoute.up exampleAggregate) H (or_introl eq_refl))).
Defined.

(** C7: a row whose route declares neither Up nor Down leaves the two
    buckets of every route id as they are, in the iteration that reads it
    and therefore in the output: no entry is added and neither counter
    moves. *)
Theorem sideless_row_adds_nothing (coordsByVehicle : gmap string VehiclePos.t)
    (row : LiveMergedRow.t) :
  LiveMergedRow.routeSide row = None ->
  (forall (routeMap : list (string * LiveRouteRoute.t)) (i : string),
     bucketsAt i (aggregateStep coordsByVehicle routeMap row) = bucketsAt i routeMap) /\
  (forall (l1 l2 : list LiveMergedRow.t) (i : string),
     bucketsOf i (aggregateLiveRoutes (l1 ++ row :: l2) coordsByVehicle)
     = bucketsOf i (aggregateLiveRoutes (l1 ++ l2) coordsByVehicle)).
Proof.
  intros Hs. split.
  - intros m i. rewrite step_buckets. unfold rowOf. rewrite Hs, andb_false_r.
    now destruct (bucketsAt i m).
  - intros l1 l2 i. rewrite !bucketsOf_aggregate.
    now rewrite !entriesOf_sideless.
Qed.

Lemma sideless_row_adds_nothing_witness :
  bucketsOf "R1" (aggregateLiveRoutes (exampleMerged ++ sidelessMerged ++ []) ∅)
  = bucketsOf "R1" (aggregateLiveRoutes (exampleMerged ++ []) ∅).
Proof.
  exact (proj2 (sideless_row_adds_nothing ∅ (mergeRow (buildRouteIndex [sidelessRoute])
                                                 blankShipment) eq_refl)
           exampleMerged [] "R1").
Defined.

(** C2, as the program has it: every aggregate of the output stems from a
    row with a route id, a route source and a route destination, whatever
    its side; it holds a vehicle entry in its Up or Down bucket exactly
    when one of the rows of its route id declares Up or Down. *)
Theorem aggregate_rows (merged : list LiveMergedRow.t)
    (coordsByVehicle : gmap string VehiclePos.t) (r : LiveRouteRoute.t) :
  r ∈ aggregateLiveRoutes merged coordsByVehicle ->
  (exists row, row ∈ merged /\ aggregatedAs (LiveRouteRoute.id r) row = true) /\
  (LiveRouteSideBucket.vehicles (LiveRouteRoute.up r) <> [] \/
   LiveRouteSideBucket.vehicles (LiveRouteRoute.down r) <> []
   <-> exists row side, row ∈ merged /\ rowOf (LiveRouteRoute.id r) side row = true).
Proof.
  intros Hr. split.
  - apply (aggregate_ids coordsByVehicle merged (LiveRouteRoute.id r)). now exists r.
  - destruct (aggregate_buckets coordsByVehicle merged r Hr) as [-> ->]. simpl.
    rewrite !entriesOf_nonempty. split.
    + intros [(row & H)|(row & H)]; exists row; [exists Up | exists Down]; exact H.
    + intros (row & [] & H); [left | right]; now exists row.
Qed.

Lemma aggregate_rows_witness :
  exampleAggregate ∈ aggregateLiveRoutes exampleMerged ∅ /\
  exists row, row ∈ exampleMerged /\ aggregatedAs "R1" row = true.
Proof.
  assert (H : exampleAggregate ∈ aggregateLiveRoutes exampleMerged ∅)
    by (vm_compute; left).
  split; [exact H|].
  exact (proj1 (aggregate_rows exampleMerged ∅ exampleAggregate H)).
Defined.

(** C2, as stated, fails: a shipment matched to a route without a side
    yields an aggregate whose two buckets are empty. *)
Lemma aggregate_with_empty_buckets :
  ~ (forall merged coordsByVehicle r,
       r ∈ aggregateLiveRoutes merged coordsByVehicle ->
       LiveRouteSideBucket.vehicles (LiveRouteRoute.up r) <> [] \/
       LiveRouteSideBucket.vehicles (LiveRouteRoute.down r) <> []).
Proof.
  intros H.
  destruct (H sidelessMerged ∅
              (newRoute "R1" "LUCKNOW-11" "SAFEXPRESS AMBALA(AML11)"
                        (mergeRow (buildRouteIndex [sidelessRoute]) blankShipment)))
    as [Hne|Hne].
  - vm_compute. left.
  - now apply Hne.
  - now apply Hne.
Qed.

(** ** Coordinates of a shipment *)

(** C9: after [attachLocationCoordsFromFms], each of the four endpoint
    coordinates of a row for which the FMS lookup gave a value and the row
    already held a value (the one of the reference route) is the FMS one;
    the rows keep their order. *)
Theorem attach_prefers_fms (merged : list LiveMergedRow.t) (loc : LocationMaps.t)
    (n : nat) (row : LiveMergedRow.t) :
  nth_error merged n = Some row ->
  exists row', nth_error (attachLocationCoordsFromFms merged loc) n = Some row' /\
  let consigner := ParsedRow.consignerName (LiveMergedRow.rec row) in
  let consignee := ParsedRow.consigneeName (LiveMergedRow.rec row) in
  (forall fms db, (fmsSource loc consigner).1 = Some fms ->
                  LiveMergedRow.routeSourceLat row = Some db ->
                  LiveMergedRow.routeSourceLat row' = Some fms) /\
  (forall fms db, (fmsSource loc consigner).2 = Some fms ->
                  LiveMergedRow.routeSourceLng row = Some db ->
                  LiveMergedRow.routeSourceLng row' = Some fms) /\
  (forall fms db, (fmsDestination loc consignee).1 = Some fms ->
                  LiveMergedRow.routeDestinationLat row = Some db ->
                  LiveMergedRow.routeDestinationLat row' = Some fms) /\
  (forall fms db, (fmsDestination loc consignee).2 = Some fms ->
                  LiveMergedRow.routeDestinationLng row = Some db ->
                  LiveMergedRow.routeDestinationLng row' = Some fms).
Proof.
  intros Hn. exists (attachRow loc row). split.
  - unfold attachLocationCoordsFromFms. rewrite nth_error_map, Hn. reflexivity.
  - unfold attachRow. simpl.
    destruct (fmsSource loc _) as [sLat sLng], (fmsDestination loc _) as [dLat dLng].
    simpl. repeat split; intros fms db -> _; reflexivity.
Qed.

Lemma attach_prefers_fms_witness :
  exists row', nth_error (attachLocationCoordsFromFms [routedRow] exampleLocationMaps) 0
               = Some row' /\
               LiveMergedRow.routeSourceLat row' = Some 26.5%float.
Proof.
  destruct (attach_prefers_fms [routedRow] exampleLocationMaps 0 routedRow eq_refl)
    as (row' & Hn & Hlat & _).
  exists row'. split; [exact Hn|].
  apply (Hlat 26.5%float 1%float); reflexivity.
Defined.

(** ** Fuzzy location matching *)

Section Matcher.

Lemma find_first {A} (p : A -> bool) (l : list A) (x : A) :
  JS.find p l = Some x ->
  exists l1 l2, l = l1 ++ x :: l2 /\ p x = true /\ forall y, y ∈ l1 -> p y = false.
Proof.
  unfold JS.find. induction l as [|a l IH]; simpl; [discriminate|].
  destruct (p a) eqn:E.
  - intros [= ->]. exists [], l. repeat split; [exact E|]. intros y Hy. inversion Hy.
  - intros H. destruct (IH H) as (l1 & l2 & -> & Hx & Hl1).
    exists (a :: l1), l2. repeat split; [exact Hx|].
    intros y [->|Hy]%elem_of_cons; [exact E | now apply Hl1].
Qed.

Lemma find_hit {A} (p : A -> bool) (l : list A) (x : A) :
  x ∈ l -> p x = true -> exists y, JS.find p l = Some y.
Proof.
  unfold JS.find. induction l as [|a l IH]; simpl; intros Hx Hp; [inversion Hx|].
  destruct (p a) eqn:E; [now exists a|].
  apply elem_of_cons in Hx as [->|Hx]; [congruence | now apply IH].
Qed.

Lemma exactMatch_eq (endpointNorm : string) (l : LocationRow.t) :
  exactMatch endpointNorm l = true <->
  JS.toLowerCase (JS.trim (LocationRow.name l)) = endpointNorm.
Proof. unfold exactMatch. apply String.eqb_eq. Qed.

Lemma nonempty_locs {A} (l : list A) (x : A) : x ∈ l -> (length l =? 0)%nat = false.
Proof. destruct l; [intros H; inversion H | reflexivity]. Qed.

(** Tier 4 on candidates that share no code with the endpoint and score
    below the threshold. *)
Lemma scoreTier_below (endpointName : string) (locs : list LocationRow.t)
    (threshold : float) :
  (forall l, l ∈ locs ->
     sameCode (extractCodeLower endpointName)
              (extractCodeLower (LocationRow.name l)) = false) ->
  (forall l, l ∈ locs ->
     (jaccardSimilarity (tokenizeNameWithoutCode endpointName)
                        (tokenizeNameWithoutCode (LocationRow.name l))
      <? threshold)%float = true) ->
  scoreTier endpointName locs threshold = None.
Proof.
  intros Hcode Hscore. unfold scoreTier.
  assert (Inv : forall st,
             (Best.best st = None \/ (Best.bestScore st <? threshold)%float = true) ->
             let st' := fold_left (bestStep endpointName) locs st in
             Best.best st' = None \/ (Best.bestScore st' <? threshold)%float = true).
  { induction locs as [|l locs IH]; intros st Hst; simpl; [exact Hst|].
    apply IH.
    - intros x Hx. apply Hcode. now right.
    - intros x Hx. apply Hscore. now right.
    - unfold bestStep, computeLocationMatchScore.
      rewrite (Hcode l) by now left. simpl.
      match goal with |- context [if ?c then _ else _] => destruct c end;
        [right; simpl; apply Hscore; now left | exact Hst]. }
  destruct (Inv bestInit (or_introl eq_refl)) as [-> | Hlt]; [reflexivity|].
  destruct (Best.best _); [|reflexivity]. now rewrite Hlt.
Qed.

End Matcher.

(** C4, as the program has it: for a query that is not blank, when some
    candidate's name equals the query up to case, the result is the first
    candidate of the list whose trimmed name equals the trimmed query up to
    case, whatever the scores of the other candidates and the threshold;
    it is that candidate itself when no other candidate qualifies. *)
Theorem exact_name_wins (endpointName : string) (locs : list LocationRow.t)
    (threshold : float) (c : LocationRow.t) :
  c ∈ locs ->
  JS.toLowerCase (LocationRow.name c) = JS.toLowerCase endpointName ->
  JS.isEmpty (JS.trim endpointName) = false ->
  exists l1 found l2,
    locs = l1 ++ found :: l2 /\
    findBestLocationMatch endpointName locs threshold = Some found /\
    JS.toLowerCase (JS.trim (LocationRow.name found))
      = JS.toLowerCase (JS.trim endpointName) /\
    (forall l, l ∈ l1 ->
       JS.toLowerCase (JS.trim (LocationRow.name l))
         <> JS.toLowerCase (JS.trim endpointName)) /\
    ((forall l, l ∈ locs ->
        JS.toLowerCase (JS.trim (LocationRow.name l))
          = JS.toLowerCase (JS.trim endpointName) -> l = c) ->
     found = c).
Proof.
  intros Hc Hname Hblank.
  assert (Hexact : exactMatch (JS.toLowerCase (JS.trim endpointName)) c = true).
  { apply exactMatch_eq. now rewrite <- !trim_toLowerCase, Hname. }
  destruct (find_hit _ locs c Hc Hexact) as [found Hfind].
  destruct (find_first _ _ _ Hfind) as (l1 & l2 & Hlocs & Hfound & Hbefore).
  exists l1, found, l2. split; [exact Hlocs|].
  apply exactMatch_eq in Hfound. repeat split.
  - unfold findBestLocationMatch.
    rewrite Hblank, (nonempty_locs locs c Hc). simpl. now rewrite Hfind.
  - exact Hfound.
  - intros l Hl Heq. apply exactMatch_eq in Heq.
    rewrite (Hbefore l Hl) in Heq. discriminate.
  - intros Honly. apply Honly; [|exact Hfound].
    rewrite Hlocs. apply elem_of_app. right. now left.
Qed.

Lemma exact_name_wins_witness :
  exists found,
    findBestLocationMatch "delhi" [location "New Delhi Hub"; location "DELHI"]
                          defaultThreshold = Some found /\
    JS.toLowerCase (JS.trim (LocationRow.name found)) = "delhi".
Proof.
  destruct (exact_name_wins "delhi" [location "New Delhi Hub"; location "DELHI"]
              defaultThreshold (location "DELHI"))
    as (l1 & found & l2 & _ & Hfind & Hname & _).
  - right. left.
  - reflexivity.
  - reflexivity.
  - exists found. split; [exact Hfind | exact Hname].
Defined.

(** C4, as stated, fails on a blank query: the guard at the head of the
    function answers none although a candidate carries the very same name. *)
Lemma blank_query_matches_nothing :
  ~ (forall endpointName locs threshold c,
       c ∈ locs ->
       JS.toLowerCase (LocationRow.name c) = JS.toLowerCase endpointName ->
       findBestLocationMatch endpointName locs threshold = Some c).
Proof.
  intros H.
  assert (Hnone : findBestLocationMatch " " [location " "] defaultThreshold = None)
    by reflexivity.
  rewrite (H " " [location " "] defaultThreshold (location " ")) in Hnone;
    [discriminate | left | reflexivity].
Qed.

(** C5: when the exact tier, the space-insensitive tier and the core
    substring tier have no hit, no candidate shares the parenthetical code
    of the query, and every candidate's Jaccard score is strictly below the
    threshold, the result is none; in particular with the threshold 0.9. *)
Theorem below_threshold_is_none (endpointName : string) (locs : list LocationRow.t)
    (threshold : float) :
  JS.find (exactMatch (JS.toLowerCase (JS.trim endpointName))) locs = None ->
  JS.find (exactNoSpaceMatch (JS.removeWhite (JS.toLowerCase (JS.trim endpointName))))
          locs = None ->
  searchTier endpointName locs = None ->
  (forall l, l ∈ locs ->
     sameCode (extractCodeLower endpointName)
              (extractCodeLower (LocationRow.name l)) = false) ->
  (forall l, l ∈ locs ->
     (jaccardSimilarity (tokenizeNameWithoutCode endpointName)
                        (tokenizeNameWithoutCode (LocationRow.name l))
      <? threshold)%float = true) ->
  findBestLocationMatch endpointName locs threshold = None.
Proof.
  intros H1 H2 H3 Hcode Hscore. unfold findBestLocationMatch.
  destruct (JS.isEmpty (JS.trim endpointName) || (length locs =? 0)%nat);
    [reflexivity|].
  simpl. rewrite H1, H2, H3. now apply scoreTier_below.
Qed.

Lemma below_threshold_is_none_witness :
  findBestLocationMatch "north delhi" [location "delhi"] defaultThreshold = None.
Proof.
  apply below_threshold_is_none.
  - reflexivity.
  - reflexivity.
  - vm_compute. reflexivity.
  - intros l Hl. apply list_elem_of_singleton in Hl. subst l. vm_compute. reflexivity.
  - intros l Hl. apply list_elem_of_singleton in Hl. subst l. vm_compute. reflexivity.
Defined.

(** ** Unmatched rows and the end-to-end example *)

Lemma collectUnmatched_first_occurrences_witness :
  toUnmatchedPair unmatchedRow ∈ collectUnmatched ([] ++ unmatchedRow :: [unmatchedRow]) /\
  NoDup (map pairKey (collectUnmatched [unmatchedRow; unmatchedRow])).
Proof.
  pose proof (collectUnmatched_first_occurrences [unmatchedRow; unmatchedRow])
    as (Hnd & _ & _ & Hfirst & _).
  split; [|exact Hnd].
  apply (Hfirst [] unmatchedRow [unmatchedRow]).
  - reflexivity.
  - reflexivity.
  - intros r' Hr'. inversion Hr'.
Defined.

(** C1, as stated, fails: the key of the shipment,
    [lucknow-11___safexpressambala(aml11)], is not the key of the route,
    [lucknow___ambala(aml11)]; the shipment is unmatched and the pipeline
    returns no aggregate. *)
Lemma example_as_stated_is_unmatched :
  makeRouteKey (extractSourceFromConsigner "LUCKNOW-11")
               (extractDestinationFromConsignee "SAFEXPRESS AMBALA(AML11)")
    = "lucknow-11___safexpressambala(aml11)" /\
  makeRouteKey "LUCKNOW" "AMBALA(AML11)" = "lucknow___ambala(aml11)" /\
  aggregateLiveRoutes
    (mergeWithRoutes [blankShipment]
       (buildRouteIndex [exampleRoute "LUCKNOW" "AMBALA(AML11)"])) ∅ = [].
Proof. repeat split; vm_compute; reflexivity. Qed.

(** The shipment of the example is merged with route "R1". *)
Lemma example_merge (shipment : ParsedRow.t) :
  ParsedRow.consignerName shipment = "LUCKNOW-11" ->
  ParsedRow.consigneeName shipment = "SAFEXPRESS AMBALA(AML11)" ->
  exists row,
    mergeWithRoutes [shipment] exampleIndex = [row] /\
    LiveMergedRow.rec row = shipment /\
    aggregated row = Some ("R1", "LUCKNOW-11", "SAFEXPRESS AMBALA(AML11)") /\
    LiveMergedRow.routeSide row = Some Up.
Proof.
  intros Hr He. eexists. split; [reflexivity|].
  unfold mergeRow. rewrite Hr, He.
  split; [|split]; reflexivity.
Qed.

(** C1, as the program has it: against the route whose source and
    destination are the strings the shipment carries, "LUCKNOW-11" and
    "SAFEXPRESS AMBALA(AML11)", the pipeline returns exactly one aggregate,
    with id "R1", an Up bucket with [totalVehicles = 1], [lateVehicles = 1]
    and one entry with [lateHours = 1.25] and [expectedArrival =
    "15/06/2024 09:00:00"], and an empty Down bucket; this holds whatever
    the other fields of the shipment and the vehicle coordinates are. *)
Theorem example_end_to_end
    (vehicleNumber lastLocationDate vehicleGroup lastLocation speedKmph
     dispatchDate plannedDistance remainingDistance tripStatus rpsNumber : string)
    (coordsByVehicle : gmap string VehiclePos.t) :
  exists r v,
    aggregateLiveRoutes
      (mergeWithRoutes
         [exampleShipment vehicleNumber lastLocationDate vehicleGroup lastLocation
            speedKmph dispatchDate plannedDistance remainingDistance tripStatus
            rpsNumber]
         exampleIndex)
      coordsByVehicle = [r] /\
    LiveRouteRoute.id r = "R1" /\
    LiveRouteRoute.up r =
      {| LiveRouteSideBucket.totalVehicles := 1;
         LiveRouteSideBucket.lateVehicles := 1;
         LiveRouteSideBucket.vehicles := [v] |} /\
    LiveRouteVehicleEntry.lateHours v = 1.25%float /\
    LiveRouteVehicleEntry.expectedArrival v = "15/06/2024 09:00:00" /\
    LiveRouteRoute.down r = emptyBucket.
Proof.
  destruct (example_merge
              (exampleShipment vehicleNumber lastLocationDate vehicleGroup lastLocation
                 speedKmph dispatchDate plannedDistance remainingDistance tripStatus
                 rpsNumber) eq_refl eq_refl)
    as (row & -> & Hrec & Hagg & Hside).
  assert (Hlate : LiveRouteVehicleEntry.lateHours (makeVehicleEntry coordsByVehicle row)
                  = 1.25%float).
  { unfold makeVehicleEntry. cbn [LiveRouteVehicleEntry.lateHours]. rewrite Hrec.
    vm_compute. reflexivity. }
  assert (Heta : LiveRouteVehicleEntry.expectedArrival (makeVehicleEntry coordsByVehicle row)
                 = "15/06/2024 09:00:00").
  { unfold makeVehicleEntry. cbn [LiveRouteVehicleEntry.expectedArrival]. rewrite Hrec.
    vm_compute. reflexivity. }
  unfold aggregateLiveRoutes. cbn [fold_left]. unfold aggregateStep.
  rewrite Hagg, Hside. cbn [routeMapGet routeMapSet String.eqb Ascii.eqb Bool.eqb map snd].
  eexists _, (makeVehicleEntry coordsByVehicle row).
  split; [reflexivity|].
  cbn [backfill withSide newRoute LiveRouteRoute.id LiveRouteRoute.up LiveRouteRoute.down].
  unfold pushVehicle. rewrite Hlate.
  repeat split; assumption.
Qed.

(** * Further properties *)

(** ** The route index *)

Section RouteIndex.

Lemma indexRoute_routeKey (m : gmap string RouteIndexItem.t) (r : RouteIndexItem.t) :
  indexRoute m r = match routeKey r with Some k => <[k := r]> m | None => m end.
Proof.
  unfold indexRoute, routeKey.
  destruct (RouteIndexItem.Source r) as [s|], (RouteIndexItem.Destination r) as [d|];
    try reflexivity.
  destruct (JS.truthy s && JS.truthy d); reflexivity.
Qed.

Lemma find_snoc {A} (p : A -> bool) (l : list A) (x : A) :
  List.find p (l ++ [x]) =
  match List.find p l with Some y => Some y | None => if p x then Some x else None end.
Proof.
  induction l as [|a l IH]; simpl; [reflexivity|].
  destruct (p a); [reflexivity | exact IH].
Qed.

Lemma fold_indexRoute (routes : list RouteIndexItem.t) (m : gmap string RouteIndexItem.t)
    (k : string) :
  fold_left indexRoute routes m !! k =
  match List.find (hasRouteKey k) (rev routes) with
  | Some r => Some r
  | None => m !! k
  end.
Proof.
  revert m. induction routes as [|r routes IH]; intros m; simpl; [reflexivity|].
  rewrite IH, find_snoc.
  destruct (List.find (hasRouteKey k) (rev routes)); [reflexivity|].
  rewrite indexRoute_routeKey. unfold hasRouteKey.
  destruct (routeKey r) as [k'|].
  - destruct (decide (k' = k)) as [->|Hne].
    + rewrite bool_decide_eq_true_2 by reflexivity. apply lookup_insert_eq.
    + rewrite bool_decide_eq_false_2 by congruence. now apply lookup_insert_ne.
  - rewrite bool_decide_eq_false_2 by discriminate. reflexivity.
Qed.

End RouteIndex.

(** X1: a lookup in the route index returns the last route of the table
    stored under that key, and nothing when no route has the key; routes
    without a source or a destination have no key. *)
Theorem buildRouteIndex_last_wins (routes : list RouteIndexItem.t) (k : string) :
  buildRouteIndex routes !! k = List.find (hasRouteKey k) (rev routes).
Proof.
  unfold buildRouteIndex. rewrite fold_indexRoute.
  destruct (List.find (hasRouteKey k) (rev routes)); [reflexivity | apply lookup_empty].
Qed.

Section Merge.

Lemma buildRouteIndex_Some (routes : list RouteIndexItem.t) (k : string)
    (r : RouteIndexItem.t) :
  buildRouteIndex routes !! k = Some r -> r ∈ routes /\ routeKey r = Some k.
Proof.
  unfold buildRouteIndex. rewrite fold_indexRoute.
  destruct (List.find (hasRouteKey k) (rev routes)) as [r'|] eqn:F;
    [|rewrite lookup_empty; discriminate].
  intros [= ->]. apply find_some in F as [Hin Hk]. split.
  - apply list_elem_of_In. now apply in_rev.
  - unfold hasRouteKey in Hk. now apply bool_decide_eq_true in Hk.
Qed.

Lemma routeKey_Some (r : RouteIndexItem.t) (k : string) :
  routeKey r = Some k ->
  exists s d, RouteIndexItem.Source r = Some s /\ RouteIndexItem.Destination r = Some d /\
              JS.truthy s = true /\ JS.truthy d = true /\ k = makeRouteKey s d.
Proof.
  unfold routeKey.
  destruct (RouteIndexItem.Source r) as [s|], (RouteIndexItem.Destination r) as [d|];
    try discriminate.
  destruct (JS.truthy s) eqn:Hs, (JS.truthy d) eqn:Hd; try discriminate.
  intros [= <-]. now exists s, d.
Qed.

End Merge.

(** X2: a merged row that carries a route id carries the id, name, side,
    source, destination and middle stops of one route of the table, and
    the route key of that route is the match key of the row, which is the
    key of the source and destination extracted from the shipment. *)
Theorem merged_route_is_from_table (records : list ParsedRow.t)
    (routes : list RouteIndexItem.t) (row : LiveMergedRow.t) (i : string) :
  row ∈ mergeWithRoutes records (buildRouteIndex routes) ->
  LiveMergedRow.routeId row = Some i ->
  exists r s d,
    r ∈ routes /\
    RouteIndexItem.id r = i /\
    RouteIndexItem.Source r = Some s /\ RouteIndexItem.Destination r = Some d /\
    LiveMergedRow.routeSource row = Some s /\
    LiveMergedRow.routeDestination row = Some d /\
    LiveMergedRow.routeName row = Some (RouteIndexItem.RouteName r) /\
    LiveMergedRow.routeSide row = RouteIndexItem.Route_Side r /\
    LiveMergedRow.routeMiddleStops row = RouteIndexItem.Middle_Stops r /\
    LiveMergedRow.matchKey row = makeRouteKey s d /\
    LiveMergedRow.matchKey row =
      makeRouteKey (LiveMergedRow.sourceExtracted row)
                   (LiveMergedRow.destinationExtracted row).
Proof.
  unfold mergeWithRoutes. change (map ?f ?l) with (f <$> l).
  intros (rec & -> & _)%list_elem_of_fmap. unfold mergeRow. simpl.
  destruct (buildRouteIndex routes !! _) as [r|] eqn:L; [|discriminate].
  simpl. intros [= <-].
  apply buildRouteIndex_Some in L as [Hin Hk].
  destruct (routeKey_Some r _ Hk) as (s & d & Hs & Hd & _ & _ & Hkey).
  exists r, s, d. rewrite Hs, Hd. repeat split; try assumption.
Qed.

Lemma merged_route_is_from_table_witness :
  exists r s d,
    r ∈ [exampleRoute "LUCKNOW-11" "SAFEXPRESS AMBALA(AML11)"] /\
    RouteIndexItem.id r = "R1" /\
    RouteIndexItem.Source r = Some s /\ RouteIndexItem.Destination r = Some d /\
    LiveMergedRow.matchKey (mergeRow exampleIndex blankShipment) = makeRouteKey s d.
Proof.
  destruct (merged_route_is_from_table [blankShipment]
              [exampleRoute "LUCKNOW-11" "SAFEXPRESS AMBALA(AML11)"]
              (mergeRow exampleIndex blankShipment) "R1")
    as (r & s & d & Hr & Hid & Hs & Hd & _ & _ & _ & _ & _ & Hk & _).
  - left.
  - reflexivity.
  - exists r, s, d. repeat split; assumption.
Defined.

(** X3: a row merged against the route index is filed by the aggregation
    loop under its route id exactly when it has one (a non-empty one), so
    each merged row is taken either by [aggregateLiveRoutes] or by
    [collectUnmatched], never by both and never by none. *)
Theorem merged_row_aggregated_or_unmatched (records : list ParsedRow.t)
    (routes : list RouteIndexItem.t) (row : LiveMergedRow.t) :
  row ∈ mergeWithRoutes records (buildRouteIndex routes) ->
  aggregatedId row = (if hasRouteId row then LiveMergedRow.routeId row else None) /\
  (hasRouteId row = false -> unmatchedKey row ∈
     map pairKey (collectUnmatched (mergeWithRoutes records (buildRouteIndex routes)))).
Proof.
  intros Hrow. split.
  - unfold mergeWithRoutes in Hrow. change (map ?f ?l) with (f <$> l) in Hrow.
    apply list_elem_of_fmap in Hrow as (rec & -> & _).
    unfold aggregatedId, aggregated, hasRouteId, mergeRow. simpl.
    destruct (buildRouteIndex routes !! _) as [r|] eqn:L; [|reflexivity]. simpl.
    apply buildRouteIndex_Some in L as [_ Hk].
    destruct (routeKey_Some r _ Hk) as (s & d & -> & -> & Hs & Hd & _). simpl.
    rewrite Hs, Hd. destruct (JS.truthy (RouteIndexItem.id r)); reflexivity.
  - intros Hl. rewrite collectUnmatched_freshRows, map_map.
    destruct (freshRows_cover ∅ _ row Hrow Hl) as [H|H]; [|exact H].
    now apply not_elem_of_empty in H.
Qed.

Lemma merged_row_aggregated_or_unmatched_witness :
  aggregatedId (mergeRow exampleIndex blankShipment) = Some "R1".
Proof.
  apply (merged_row_aggregated_or_unmatched [blankShipment]
           [exampleRoute "LUCKNOW-11" "SAFEXPRESS AMBALA(AML11)"]).
  left.
Defined.

(** ** More on the aggregation *)

Section AggregationOrder.

Variable coordsByVehicle : gmap string VehiclePos.t.

Local Abbreviation step := (aggregateStep coordsByVehicle).

Lemma routeMapSet_keys (k : string) (v : LiveRouteRoute.t)
    (m : list (string * LiveRouteRoute.t)) :
  map fst (routeMapSet k v m) =
  if bool_decide (k ∈ map fst m) then map fst m else map fst m ++ [k].
Proof.
  induction m as [|[k' v'] m IH]; cbn [routeMapSet map fst].
  - rewrite bool_decide_eq_false_2; [reflexivity | intros H; inversion H].
  - destruct (String.eqb_spec k k') as [->|Hk]; cbn [map fst].
    + rewrite bool_decide_eq_true_2 by now left. reflexivity.
    + rewrite IH. destruct (bool_decide (k ∈ map fst m)) eqn:E.
      * apply bool_decide_eq_true in E.
        rewrite bool_decide_eq_true_2 by now right. reflexivity.
      * apply bool_decide_eq_false in E.
        rewrite bool_decide_eq_false_2; [reflexivity|].
        intros [?|?]%elem_of_cons; [now apply Hk | now apply E].
Qed.

Lemma routeMapGet_keys (k : string) (m : list (string * LiveRouteRoute.t)) :
  is_Some (routeMapGet k m) <-> k ∈ map fst m.
Proof.
  induction m as [|[k' v'] m IH]; simpl.
  - split; [intros [? H]; discriminate | intros H; inversion H].
  - destruct (String.eqb_spec k k') as [->|Hk].
    + split; [intros _; now left | intros _; now eexists].
    + rewrite IH. split; [now right | intros [?|?]%elem_of_cons; [contradiction | assumption]].
Qed.

Lemma step_keys_list (m : list (string * LiveRouteRoute.t)) (row : LiveMergedRow.t) :
  map fst (step m row) =
  match aggregatedId row with
  | Some i => if bool_decide (i ∈ map fst m) then map fst m else map fst m ++ [i]
  | None => map fst m
  end.
Proof.
  unfold aggregateStep, aggregatedId.
  destruct (aggregated row) as [[[i s] d]|]; [|reflexivity].
  destruct (routeMapGet i m) as [b|] eqn:G.
  - assert (Hin : i ∈ map fst m) by (apply routeMapGet_keys; rewrite G; eauto).
    rewrite (bool_decide_eq_true_2 _ Hin).
    destruct (LiveMergedRow.routeSide row); [|reflexivity].
    now rewrite routeMapSet_keys, (bool_decide_eq_true_2 _ Hin).
  - assert (Hnin : i ∉ map fst m).
    { intros H. apply routeMapGet_keys in H as [? H]. congruence. }
    rewrite (bool_decide_eq_false_2 _ Hnin).
    destruct (LiveMergedRow.routeSide row).
    + rewrite !routeMapSet_keys, (bool_decide_eq_false_2 _ Hnin).
      rewrite bool_decide_eq_true_2; [reflexivity|].
      apply elem_of_app. right. now left.
    + now rewrite routeMapSet_keys, (bool_decide_eq_false_2 _ Hnin).
Qed.

Lemma firstOccurrences_ext (s1 s2 l : list string) :
  (forall x, x ∈ s1 <-> x ∈ s2) -> firstOccurrences s1 l = firstOccurrences s2 l.
Proof.
  revert s1 s2. induction l as [|x l IH]; intros s1 s2 H; simpl; [reflexivity|].
  rewrite (bool_decide_ext _ _ (H x)).
  destruct (bool_decide (x ∈ s2)); [now apply IH|].
  f_equal. apply IH. intros y. rewrite !elem_of_cons, H. reflexivity.
Qed.

Lemma fold_keys_list (rows : list LiveMergedRow.t) (m : list (string * LiveRouteRoute.t)) :
  map fst (fold_left step rows m) =
  map fst m ++ firstOccurrences (map fst m) (omap aggregatedId rows).
Proof.
  revert m. induction rows as [|row rows IH]; intros m; simpl.
  - now rewrite app_nil_r.
  - rewrite IH, step_keys_list.
    destruct (aggregatedId row) as [i|]; simpl; [|reflexivity].
    destruct (bool_decide (i ∈ map fst m)); [reflexivity|].
    rewrite <- app_assoc. simpl. do 2 f_equal.
    apply firstOccurrences_ext. intros x. split.
    + intros [H|H%list_elem_of_singleton]%elem_of_app; [now right | subst; now left].
    + intros [->|H]%elem_of_cons; apply elem_of_app; [right; now left | now left].
Qed.

Lemma ids_are_keys (m : list (string * LiveRouteRoute.t)) :
  Forall (fun kv => LiveRouteRoute.id (snd kv) = fst kv) m ->
  map LiveRouteRoute.id (map snd m) = map fst m.
Proof.
  induction m as [|[k v] m IH]; intros H; simpl; [reflexivity|].
  apply Forall_cons in H as [Hid H]. simpl in Hid. rewrite Hid. f_equal. now apply IH.
Qed.

End AggregationOrder.

(** X4: the output has one aggregate per route id, in the order in which
    the route ids first occur among the rows that pass the guard of the
    loop. *)
Theorem aggregates_in_first_occurrence_order (merged : list LiveMergedRow.t)
    (coordsByVehicle : gmap string VehiclePos.t) :
  map LiveRouteRoute.id (aggregateLiveRoutes merged coordsByVehicle)
    = firstOccurrences [] (omap aggregatedId merged) /\
  NoDup (map LiveRouteRoute.id (aggregateLiveRoutes merged coordsByVehicle)).
Proof.
  unfold aggregateLiveRoutes.
  destruct (fold_wf coordsByVehicle merged [] wf_empty) as [Hnd Hall].
  rewrite ids_are_keys by exact Hall. split; [|exact Hnd].
  now rewrite fold_keys_list.
Qed.

(** X5: the Up bucket of an aggregate of the output lists the vehicle
    entries of the rows of its route id whose route declares Up, in input
    order, and its Down bucket those of the rows that declare Down. *)
Theorem bucket_lists_rows_in_input_order (merged : list LiveMergedRow.t)
    (coordsByVehicle : gmap string VehiclePos.t) (r : LiveRouteRoute.t) :
  r ∈ aggregateLiveRoutes merged coordsByVehicle ->
  LiveRouteSideBucket.vehicles (LiveRouteRoute.up r)
    = map (makeVehicleEntry coordsByVehicle)
          (filter (rowOf (LiveRouteRoute.id r) Up) merged) /\
  LiveRouteSideBucket.vehicles (LiveRouteRoute.down r)
    = map (makeVehicleEntry coordsByVehicle)
          (filter (rowOf (LiveRouteRoute.id r) Down) merged).
Proof.
  intros Hr. destruct (aggregate_buckets coordsByVehicle merged r Hr) as [-> ->].
  split; reflexivity.
Qed.

Lemma bucket_lists_rows_in_input_order_witness :
  exampleAggregate ∈ aggregateLiveRoutes exampleMerged ∅ /\
  LiveRouteSideBucket.vehicles (LiveRouteRoute.up exampleAggregate)
    = map (makeVehicleEntry ∅) (filter (rowOf "R1" Up) exampleMerged).
Proof.
  assert (H : exampleAggregate ∈ aggregateLiveRoutes exampleMerged ∅)
    by (vm_compute; left).
  split; [exact H|].
  exact (proj1 (bucket_lists_rows_in_input_order exampleMerged ∅ exampleAggregate H)).
Defined.

Section Conservation.

Variable coordsByVehicle : gmap string VehiclePos.t.

Local Abbreviation step := (aggregateStep coordsByVehicle).

Lemma totalOf_set (k : string) (v : LiveRouteRoute.t) (m : list (string * LiveRouteRoute.t)) :
  totalOf (routeMapSet k v m) +
  match routeMapGet k m with Some b => vehicleCount b | None => 0 end
  = totalOf m + vehicleCount v.
Proof.
  unfold totalOf. induction m as [|[k' v'] m IH]; simpl; [lia|].
  destruct (String.eqb_spec k k') as [->|Hk]; simpl; lia.
Qed.

Lemma vehicleCount_push (row : LiveMergedRow.t) (side : TripSide)
    (v : LiveRouteVehicleEntry.t) (b : LiveRouteRoute.t) :
  vehicleCount (backfill row (withSide side (pushVehicle v) b)) = vehicleCount b + 1.
Proof. unfold vehicleCount. destruct side; simpl; lia. Qed.

Lemma step_total (m : list (string * LiveRouteRoute.t)) (row : LiveMergedRow.t) :
  totalOf (step m row) = totalOf m + (if placed row then 1 else 0).
Proof.
  unfold aggregateStep, placed.
  destruct (aggregated row) as [[[i s] d]|]; [|lia].
  destruct (routeMapGet i m) as [b|] eqn:G;
    destruct (LiveMergedRow.routeSide row) as [side|]; try lia.
  - pose proof (totalOf_set i
        (backfill row (withSide side (pushVehicle (makeVehicleEntry coordsByVehicle row)) b)) m)
      as H.
    rewrite G, vehicleCount_push in H. lia.
  - set (new := newRoute i s d row).
    pose proof (totalOf_set i new m) as H1. rewrite G in H1.
    pose proof (totalOf_set i
        (backfill row (withSide side (pushVehicle (makeVehicleEntry coordsByVehicle row)) new))
        (routeMapSet i new m)) as H2.
    rewrite routeMapGet_set, String.eqb_refl, vehicleCount_push in H2.
    change (vehicleCount new) with 0 in *. lia.
  - pose proof (totalOf_set i (newRoute i s d row) m) as H1. rewrite G in H1.
    change (vehicleCount (newRoute i s d row)) with 0 in H1. lia.
Qed.

Lemma fold_total (rows : list LiveMergedRow.t) (m : list (string * LiveRouteRoute.t)) :
  totalOf (fold_left step rows m) = totalOf m + length (filter placed rows).
Proof.
  revert m. induction rows as [|row rows IH]; intros m; simpl; [lia|].
  rewrite IH, step_total. destruct (placed row) eqn:E.
  - rewrite filter_cons_True by (rewrite E; exact I). simpl. lia.
  - rewrite filter_cons_False by (rewrite E; exact id). lia.
Qed.

End Conservation.

(** X6: the vehicle counters of the output add up to the number of rows
    that pass the guard of the loop and whose route declares a side: each
    such row is counted once, and no other row is counted. *)
Theorem vehicle_counters_count_placed_rows (merged : list LiveMergedRow.t)
    (coordsByVehicle : gmap string VehiclePos.t) :
  sum_list (map vehicleCount (aggregateLiveRoutes merged coordsByVehicle))
  = length (filter placed merged).
Proof.
  unfold aggregateLiveRoutes. rewrite map_map.
  pose proof (fold_total coordsByVehicle merged []) as H.
  unfold totalOf in H. simpl in H. exact H.
Qed.

(** X7: [aggregateLiveRoutes] returns no aggregate exactly when no row
    has a route id, a route source and a route destination. *)
Theorem no_aggregate_iff_no_routed_row (merged : list LiveMergedRow.t)
    (coordsByVehicle : gmap string VehiclePos.t) :
  aggregateLiveRoutes merged coordsByVehicle = [] <->
  forall row, row ∈ merged -> aggregated row = None.
Proof.
  split.
  - intros Hnil row Hrow.
    destruct (aggregated row) as [[[i s] d]|] eqn:E; [|reflexivity].
    destruct (proj2 (aggregate_ids coordsByVehicle merged i)) as (r & Hr & _).
    + exists row. split; [exact Hrow|]. unfold aggregatedAs. rewrite E.
      apply String.eqb_refl.
    + rewrite Hnil in Hr. inversion Hr.
  - intros Hall.
    destruct (aggregateLiveRoutes merged coordsByVehicle) as [|r rest] eqn:E;
      [reflexivity|].
    destruct (proj1 (aggregate_ids coordsByVehicle merged (LiveRouteRoute.id r)))
      as (row & Hrow & Hagg).
    + exists r. split; [rewrite E; now left | reflexivity].
    + unfold aggregatedAs in Hagg. rewrite (Hall row Hrow) in Hagg. discriminate.
Qed.

Section AppendOnly.

Variable coordsByVehicle : gmap string VehiclePos.t.

Local Abbreviation step := (aggregateStep coordsByVehicle).

Lemma keeps_refl (b : LiveRouteRoute.t) : keeps b b.
Proof. unfold keeps. tauto. Qed.

Lemma keeps_trans (a b c : LiveRouteRoute.t) : keeps a b -> keeps b c -> keeps a c.
Proof.
  unfold keeps. intros (H1 & H2 & H3 & H4 & H5) (K1 & K2 & K3 & K4 & K5).
  repeat split; try congruence.
  - destruct (H4 H) as [E1 E2]. rewrite <- E1 in H. destruct (K4 H). congruence.
  - destruct (H4 H) as [E1 E2]. rewrite <- E1 in H. destruct (K4 H). congruence.
  - destruct (H5 H) as [E1 E2]. rewrite <- E1 in H. destruct (K5 H). congruence.
  - destruct (H5 H) as [E1 E2]. rewrite <- E1 in H. destruct (K5 H). congruence.
Qed.

Lemma keeps_backfill (row : LiveMergedRow.t) (side : TripSide)
    (f : LiveRouteSideBucket.t -> LiveRouteSideBucket.t) (b : LiveRouteRoute.t) :
  keeps b (backfill row (withSide side f b)).
Proof.
  unfold keeps, backfill, fillsSource, fillsDest. simpl.
  do 3 (split; [reflexivity|]).
  split; intros [x Hx]; rewrite Hx; split; reflexivity.
Qed.

Lemma step_keeps (m : list (string * LiveRouteRoute.t)) (row : LiveMergedRow.t)
    (i : string) (b : LiveRouteRoute.t) :
  routeMapGet i m = Some b ->
  exists b', routeMapGet i (step m row) = Some b' /\ keeps b b'.
Proof.
  intros G. unfold aggregateStep.
  destruct (aggregated row) as [[[i' s] d]|]; [|exists b; split; [exact G | apply keeps_refl]].
  destruct (routeMapGet i' m) as [b0|] eqn:G';
    destruct (LiveMergedRow.routeSide row) as [side|];
    rewrite ?routeMapGet_set;
    destruct (String.eqb_spec i i') as [->|Hi];
    try (exists b; split; [exact G | apply keeps_refl]);
    try congruence.
  rewrite G in G'. injection G' as <-.
  eexists. split; [reflexivity | apply keeps_backfill].
Qed.

Lemma fold_keeps (rows : list LiveMergedRow.t) (m : list (string * LiveRouteRoute.t))
    (i : string) (b : LiveRouteRoute.t) :
  routeMapGet i m = Some b ->
  exists b', routeMapGet i (fold_left step rows m) = Some b' /\ keeps b b'.
Proof.
  revert m b. induction rows as [|row rows IH]; intros m b G; simpl.
  - exists b. split; [exact G | apply keeps_refl].
  - destruct (step_keeps m row i b G) as (b1 & G1 & K1).
    destruct (IH _ _ G1) as (b2 & G2 & K2).
    exists b2. split; [exact G2 | exact (keeps_trans _ _ _ K1 K2)].
Qed.

Lemma values_of_get (m : list (string * LiveRouteRoute.t)) (r : LiveRouteRoute.t) :
  wfRouteMap m -> r ∈ map snd m -> routeMapGet (LiveRouteRoute.id r) m = Some r.
Proof.
  intros [Hnd Hall]. change (map snd m) with (snd <$> m).
  intros ([k v] & -> & H)%list_elem_of_fmap. simpl.
  rewrite Forall_forall in Hall. pose proof (Hall _ H) as Hid. simpl in Hid.
  rewrite Hid. now apply routeMapGet_of_elem.
Qed.

Lemma get_of_values (m : list (string * LiveRouteRoute.t)) (i : string)
    (r : LiveRouteRoute.t) :
  routeMapGet i m = Some r -> r ∈ map snd m.
Proof.
  intros G. apply routeMapGet_elem_of in G. change (map snd m) with (snd <$> m).
  apply list_elem_of_fmap. now exists (i, r).
Qed.

(** The creation of an aggregate by the first row of its route id. *)
Lemma step_creates (m : list (string * LiveRouteRoute.t)) (row : LiveMergedRow.t)
    (i s d : string) :
  aggregated row = Some (i, s, d) -> routeMapGet i m = None ->
  exists b, routeMapGet i (step m row) = Some b /\ keeps (newRoute i s d row) b.
Proof.
  intros Hagg G. unfold aggregateStep. rewrite Hagg, G.
  destruct (LiveMergedRow.routeSide row) as [side|];
    rewrite !routeMapGet_set, String.eqb_refl; eexists; (split; [reflexivity|]).
  - apply keeps_backfill.
  - apply keeps_refl.
Qed.

End AppendOnly.

(** X8: rows read later only add to what the earlier rows built: an
    aggregate obtained from a prefix of the input is found again, under the
    same id, in the output for the whole input, with the same source and
    destination, with its vehicle entries followed by the entries of the
    later rows of its route id, and with each pair of coordinates whose
    latitude was known unchanged. *)
Theorem later_rows_only_append (l1 l2 : list LiveMergedRow.t)
    (coordsByVehicle : gmap string VehiclePos.t) (r1 : LiveRouteRoute.t) :
  r1 ∈ aggregateLiveRoutes l1 coordsByVehicle ->
  exists r, r ∈ aggregateLiveRoutes (l1 ++ l2) coordsByVehicle /\
    keeps r1 r /\
    LiveRouteSideBucket.vehicles (LiveRouteRoute.up r)
      = LiveRouteSideBucket.vehicles (LiveRouteRoute.up r1)
        ++ entriesOf coordsByVehicle (LiveRouteRoute.id r1) Up l2 /\
    LiveRouteSideBucket.vehicles (LiveRouteRoute.down r)
      = LiveRouteSideBucket.vehicles (LiveRouteRoute.down r1)
        ++ entriesOf coordsByVehicle (LiveRouteRoute.id r1) Down l2.
Proof.
  unfold aggregateLiveRoutes. rewrite fold_left_app.
  set (m1 := fold_left (aggregateStep coordsByVehicle) l1 []).
  intros Hr1.
  assert (G1 : routeMapGet (LiveRouteRoute.id r1) m1 = Some r1)
    by (apply values_of_get; [apply fold_wf, wf_empty | exact Hr1]).
  destruct (fold_keeps coordsByVehicle l2 m1 _ _ G1) as (r & G & K).
  exists r. split; [exact (get_of_values _ _ _ G)|]. split; [exact K|].
  pose proof (fold_buckets coordsByVehicle l2 m1 (LiveRouteRoute.id r1)) as Hb.
  unfold bucketsAt in Hb. rewrite G, G1 in Hb. simpl in Hb.
  injection Hb as -> ->. rewrite !addEntries_spec. split; reflexivity.
Qed.

Lemma later_rows_only_append_witness :
  exists r, r ∈ aggregateLiveRoutes (exampleMerged ++ exampleMerged) ∅ /\
            LiveRouteRoute.source r = "LUCKNOW-11" /\
            length (LiveRouteSideBucket.vehicles (LiveRouteRoute.up r)) = 2.
Proof.
  destruct (later_rows_only_append exampleMerged exampleMerged ∅ exampleAggregate)
    as (r & Hr & (_ & Hs & _) & Hup & _).
  - vm_compute. left.
  - exists r. split; [exact Hr|]. split; [exact Hs|]. rewrite Hup. reflexivity.
Defined.

(** X9: the source and the destination of an aggregate are the route
    source and route destination of the first row filed under its id. *)
Theorem aggregate_endpoints_of_first_row (l1 l2 : list LiveMergedRow.t)
    (row : LiveMergedRow.t) (coordsByVehicle : gmap string VehiclePos.t)
    (i s d : string) :
  (forall row', row' ∈ l1 -> aggregatedId row' <> Some i) ->
  aggregated row = Some (i, s, d) ->
  exists r, r ∈ aggregateLiveRoutes (l1 ++ row :: l2) coordsByVehicle /\
            LiveRouteRoute.id r = i /\
            LiveRouteRoute.source r = s /\
            LiveRouteRoute.destination r = d.
Proof.
  intros Hfirst Hagg. unfold aggregateLiveRoutes.
  rewrite fold_left_app. simpl.
  set (m1 := fold_left (aggregateStep coordsByVehicle) l1 []).
  assert (G1 : routeMapGet i m1 = None).
  { destruct (routeMapGet i m1) as [b|] eqn:G; [exfalso | reflexivity].
    assert (Hk : i ∈ map fst m1) by (apply routeMapGet_keys; rewrite G; eauto).
    apply (fold_keys coordsByVehicle l1 [] i) in Hk as [Hk|(row' & Hrow' & Ha)].
    - inversion Hk.
    - apply (Hfirst row' Hrow'). unfold aggregatedId. unfold aggregatedAs in Ha.
      destruct (aggregated row') as [[[i' ?] ?]|]; [|discriminate].
      apply String.eqb_eq in Ha. now subst. }
  destruct (step_creates coordsByVehicle m1 row i s d Hagg G1) as (b & G & K).
  destruct (fold_keeps coordsByVehicle l2 _ _ _ G) as (r & Gr & Kr).
  exists r. split; [exact (get_of_values _ _ _ Gr)|].
  destruct (keeps_trans _ _ _ K Kr) as (Hid & Hs & Hd & _). simpl in *.
  now rewrite Hid, Hs, Hd.
Qed.

Lemma aggregate_endpoints_of_first_row_witness :
  exists r, r ∈ aggregateLiveRoutes ([] ++ mergeRow exampleIndex blankShipment :: []) ∅ /\
            LiveRouteRoute.id r = "R1" /\
            LiveRouteRoute.source r = "LUCKNOW-11" /\
            LiveRouteRoute.destination r = "SAFEXPRESS AMBALA(AML11)".
Proof.
  apply aggregate_endpoints_of_first_row.
  - intros row' H. inversion H.
  - reflexivity.
Defined.

(** ** More on the coordinates of a shipment *)

Section Attach.

Variable loc : LocationMaps.t.

Lemma attachRow_fields (row : LiveMergedRow.t) :
  attachRow loc row =
  let consigner := ParsedRow.consignerName (LiveMergedRow.rec row) in
  let consignee := ParsedRow.consigneeName (LiveMergedRow.rec row) in
  {| LiveMergedRow.rec := LiveMergedRow.rec row;
     LiveMergedRow.routeId := LiveMergedRow.routeId row;
     LiveMergedRow.routeName := LiveMergedRow.routeName row;
     LiveMergedRow.routeSource := LiveMergedRow.routeSource row;
     LiveMergedRow.routeDestination := LiveMergedRow.routeDestination row;
     LiveMergedRow.routeSourceLat :=
       firstNonNull (fmsSource loc consigner).1 (LiveMergedRow.routeSourceLat row);
     LiveMergedRow.routeSourceLng :=
       firstNonNull (fmsSource loc consigner).2 (LiveMergedRow.routeSourceLng row);
     LiveMergedRow.routeDestinationLat :=
       firstNonNull (fmsDestination loc consignee).1
                    (LiveMergedRow.routeDestinationLat row);
     LiveMergedRow.routeDestinationLng :=
       firstNonNull (fmsDestination loc consignee).2
                    (LiveMergedRow.routeDestinationLng row);
     LiveMergedRow.routeSide := LiveMergedRow.routeSide row;
     LiveMergedRow.routeMiddleStops := LiveMergedRow.routeMiddleStops row;
     LiveMergedRow.sourceExtracted := LiveMergedRow.sourceExtracted row;
     LiveMergedRow.destinationExtracted := LiveMergedRow.destinationExtracted row;
     LiveMergedRow.matchKey := LiveMergedRow.matchKey row |}.
Proof.
  unfold attachRow. simpl.
  destruct (fmsSource loc _), (fmsDestination loc _). reflexivity.
Qed.

Lemma firstNonNull_idem (a b : option float) :
  firstNonNull a (firstNonNull a b) = firstNonNull a b.
Proof. destruct a; reflexivity. Qed.

Lemma attachRow_idem (row : LiveMergedRow.t) :
  attachRow loc (attachRow loc row) = attachRow loc row.
Proof.
  rewrite (attachRow_fields (attachRow loc row)), (attachRow_fields row).
  simpl. now rewrite !firstNonNull_idem.
Qed.

Lemma attachRow_aggregatedId (row : LiveMergedRow.t) :
  aggregatedId (attachRow loc row) = aggregatedId row.
Proof. rewrite attachRow_fields. reflexivity. Qed.

Lemma attachRow_rowOf (i : string) (side : TripSide) (row : LiveMergedRow.t) :
  rowOf i side (attachRow loc row) = rowOf i side row.
Proof. rewrite attachRow_fields. reflexivity. Qed.

Lemma attachRow_entry (coordsByVehicle : gmap string VehiclePos.t) (row : LiveMergedRow.t) :
  makeVehicleEntry coordsByVehicle (attachRow loc row) = makeVehicleEntry coordsByVehicle row.
Proof. rewrite attachRow_fields. reflexivity. Qed.

Lemma attach_entriesOf (coordsByVehicle : gmap string VehiclePos.t) (i : string)
    (side : TripSide) (merged : list LiveMergedRow.t) :
  entriesOf coordsByVehicle i side (map (attachRow loc) merged)
  = entriesOf coordsByVehicle i side merged.
Proof.
  induction merged as [|row rows IH]; [reflexivity|].
  simpl. rewrite !entriesOf_cons, attachRow_rowOf, attachRow_entry, IH. reflexivity.
Qed.

Lemma attach_aggregatedIds (merged : list LiveMergedRow.t) :
  omap aggregatedId (map (attachRow loc) merged) = omap aggregatedId merged.
Proof.
  induction merged as [|row rows IH]; [reflexivity|].
  simpl. rewrite attachRow_aggregatedId.
  destruct (aggregatedId row); [f_equal|]; apply IH.
Qed.

Lemma attach_freshRows (seen : gset string) (merged : list LiveMergedRow.t) :
  map toUnmatchedPair (freshRows seen (map (attachRow loc) merged))
  = map toUnmatchedPair (freshRows seen merged).
Proof.
  revert seen. induction merged as [|row rows IH]; intros seen; [reflexivity|].
  simpl.
  assert (Hid : hasRouteId (attachRow loc row) = hasRouteId row)
    by (rewrite attachRow_fields; reflexivity).
  assert (Hkey : unmatchedKey (attachRow loc row) = unmatchedKey row)
    by (rewrite attachRow_fields; reflexivity).
  assert (Hpair : toUnmatchedPair (attachRow loc row) = toUnmatchedPair row)
    by (rewrite attachRow_fields; reflexivity).
  rewrite Hid, Hkey. destruct (hasRouteId row); [apply IH|].
  destruct (decide (unmatchedKey row ∈ seen)); [apply IH|].
  simpl. now rewrite Hpair, IH.
Qed.

End Attach.

(** X10: attaching the FMS coordinates a second time changes nothing. *)
Theorem attach_is_idempotent (merged : list LiveMergedRow.t) (loc : LocationMaps.t) :
  attachLocationCoordsFromFms (attachLocationCoordsFromFms merged loc) loc
  = attachLocationCoordsFromFms merged loc.
Proof.
  unfold attachLocationCoordsFromFms. rewrite map_map.
  apply map_ext. intros row. apply attachRow_idem.
Qed.

(** X11: [attachLocationCoordsFromFms] never erases a coordinate: a
    coordinate for which the FMS lookup gives nothing keeps the value the
    row held, so a coordinate that was known stays known. *)
Theorem attach_falls_back_to_row (loc : LocationMaps.t) (row : LiveMergedRow.t) :
  let consigner := ParsedRow.consignerName (LiveMergedRow.rec row) in
  let consignee := ParsedRow.consigneeName (LiveMergedRow.rec row) in
  let row' := attachRow loc row in
  ((fmsSource loc consigner).1 = None ->
   LiveMergedRow.routeSourceLat row' = LiveMergedRow.routeSourceLat row) /\
  ((fmsSource loc consigner).2 = None ->
   LiveMergedRow.routeSourceLng row' = LiveMergedRow.routeSourceLng row) /\
  ((fmsDestination loc consignee).1 = None ->
   LiveMergedRow.routeDestinationLat row' = LiveMergedRow.routeDestinationLat row) /\
  ((fmsDestination loc consignee).2 = None ->
   LiveMergedRow.routeDestinationLng row' = LiveMergedRow.routeDestinationLng row) /\
  (is_Some (LiveMergedRow.routeSourceLat row) ->
   is_Some (LiveMergedRow.routeSourceLat row')) /\
  (is_Some (LiveMergedRow.routeSourceLng row) ->
   is_Some (LiveMergedRow.routeSourceLng row')) /\
  (is_Some (LiveMergedRow.routeDestinationLat row) ->
   is_Some (LiveMergedRow.routeDestinationLat row')) /\
  (is_Some (LiveMergedRow.routeDestinationLng row) ->
   is_Some (LiveMergedRow.routeDestinationLng row')).
Proof.
  intros consigner consignee row'. subst row'. rewrite attachRow_fields. simpl.
  fold consigner consignee.
  destruct (fmsSource loc consigner) as [[a|] [b|]],
           (fmsDestination loc consignee) as [[c|] [d|]]; simpl;
    repeat split; intros H; try exact H; try discriminate; eauto.
Qed.

Lemma attach_falls_back_to_row_witness :
  LiveMergedRow.routeDestinationLat (attachRow exampleLocationMaps routedRow)
    = Some 3%float.
Proof.
  apply (attach_falls_back_to_row exampleLocationMaps routedRow). reflexivity.
Defined.

(** X12: attaching the FMS coordinates touches the coordinates only: the
    unmatched output, the ids of the aggregates and their order, and the
    buckets of every route id are the ones obtained without it. *)
Theorem attach_changes_coordinates_only (merged : list LiveMergedRow.t)
    (loc : LocationMaps.t) (coordsByVehicle : gmap string VehiclePos.t) :
  let attached := attachLocationCoordsFromFms merged loc in
  collectUnmatched attached = collectUnmatched merged /\
  map LiveRouteRoute.id (aggregateLiveRoutes attached coordsByVehicle)
    = map LiveRouteRoute.id (aggregateLiveRoutes merged coordsByVehicle) /\
  forall i, bucketsOf i (aggregateLiveRoutes attached coordsByVehicle)
            = bucketsOf i (aggregateLiveRoutes merged coordsByVehicle).
Proof.
  intros attached. subst attached. unfold attachLocationCoordsFromFms.
  split; [|split].
  - rewrite !collectUnmatched_freshRows. apply attach_freshRows.
  - unfold aggregateLiveRoutes.
    rewrite !ids_are_keys by (apply fold_wf, wf_empty).
    now rewrite !fold_keys_list, attach_aggregatedIds.
  - intros i. rewrite !bucketsOf_aggregate. now rewrite !attach_entriesOf.
Qed.

(** ** The location maps *)

Section LocationMaps.

Lemma fold_setIfAbsent (entries : list WireEntry.t) (m : gmap string LocationEntry.t)
    (k : string) :
  fold_left setIfAbsent entries m !! k =
  match m !! k with
  | Some e => Some e
  | None => toLocationEntry <$> List.find (hasKey k) entries
  end.
Proof.
  revert m. induction entries as [|w entries IH]; intros m; simpl.
  - now destruct (m !! k).
  - rewrite IH. unfold setIfAbsent, hasKey.
    destruct (String.eqb_spec (WireEntry.key w) k) as [<-|Hne].
    + destruct (m !! WireEntry.key w) as [e|] eqn:L; [now rewrite L|].
      now rewrite lookup_insert_eq.
    + destruct (m !! WireEntry.key w) as [e|] eqn:L; [reflexivity|].
      now rewrite lookup_insert_ne.
Qed.

Lemma locationMapOf_lookup (entries : list WireEntry.t) (k : string) :
  locationMapOf entries !! k = toLocationEntry <$> List.find (hasKey k) entries.
Proof. unfold locationMapOf. rewrite fold_setIfAbsent, lookup_empty. reflexivity. Qed.

(** The first city with both coordinates and a given key, read on the
    dropdown list itself. *)
Lemma wireCity_first (l1 l2 : list DropdownItem.t) (item : DropdownItem.t)
    (k : string) (la ln : float) :
  DropdownItem.lat item = Some la -> DropdownItem.lng item = Some ln ->
  normalizeLocationKey (DropdownItem.itemName item) = k ->
  (forall x, x ∈ l1 ->
     bothKnown (DropdownItem.lat x) (DropdownItem.lng x) = false \/
     normalizeLocationKey (DropdownItem.itemName x) <> k) ->
  List.find (hasKey k) (wireCity (l1 ++ item :: l2))
  = Some {| WireEntry.key := k; WireEntry.rawName := DropdownItem.itemName item;
            WireEntry.lat := la; WireEntry.lng := ln |}.
Proof.
  intros Hla Hln Hk Hfirst. unfold wireCity.
  induction l1 as [|x l1 IH]; simpl.
  - unfold wire. rewrite Hla, Hln, Hk. simpl. unfold hasKey. simpl.
    now rewrite String.eqb_refl.
  - assert (Hrest : forall y, y ∈ l1 ->
              bothKnown (DropdownItem.lat y) (DropdownItem.lng y) = false \/
              normalizeLocationKey (DropdownItem.itemName y) <> k)
      by (intros y Hy; apply Hfirst; now right).
    specialize (IH Hrest).
    destruct (Hfirst x (ltac:(left))) as [Hb|Hn]; unfold wire.
    + destruct (DropdownItem.lat x), (DropdownItem.lng x); try discriminate; exact IH.
    + destruct (DropdownItem.lat x), (DropdownItem.lng x); try exact IH.
      simpl. unfold hasKey at 1. simpl.
      destruct (String.eqb_spec (normalizeLocationKey (DropdownItem.itemName x)) k);
        [contradiction | exact IH].
Qed.

End LocationMaps.

(** X13: each of the three location maps keeps, for a key, the first entry
    of its list that has the key; a later entry with the same key is
    dropped (the route index, instead, keeps the last). *)
Theorem location_map_first_wins (entries : list WireEntry.t) (k : string) :
  locationMapOf entries !! k = toLocationEntry <$> List.find (hasKey k) entries.
Proof. apply locationMapOf_lookup. Qed.

(** X14: when the city read from the consigner of a shipment is not the
    empty string, the source coordinates of the shipment after
    [attachLocationCoordsFromFms] with the maps built from the dropdown
    lists are those of the first city of the list that has both
    coordinates and whose name equals, up to [normalizeLocationKey], the
    city of the consigner; what the row held before does not matter.
    (Without a city the lookup is skipped, whatever the list holds.) *)
Theorem source_coordinates_from_first_city
    (l1 l2 landmarkList : list DropdownItem.t) (item : DropdownItem.t)
    (row : LiveMergedRow.t) (la ln : float) :
  let city := extractCityFromConsignerName
                (ParsedRow.consignerName (LiveMergedRow.rec row)) in
  JS.truthy city = true ->
  DropdownItem.lat item = Some la -> DropdownItem.lng item = Some ln ->
  normalizeLocationKey (DropdownItem.itemName item) = normalizeLocationKey city ->
  (forall x, x ∈ l1 ->
     bothKnown (DropdownItem.lat x) (DropdownItem.lng x) = false \/
     normalizeLocationKey (DropdownItem.itemName x) <> normalizeLocationKey city) ->
  let row' := attachRow (buildLocationMaps (l1 ++ item :: l2) landmarkList) row in
  LiveMergedRow.routeSourceLat row' = Some la /\
  LiveMergedRow.routeSourceLng row' = Some ln.
Proof.
  intros city Hcity Hla Hln Hk Hfirst row'. subst row'.
  unfold attachRow. simpl. unfold fmsSource. fold city. rewrite Hcity.
  unfold fmsCityOrLandmark, buildLocationMaps. simpl.
  rewrite locationMapOf_lookup.
  rewrite (wireCity_first l1 l2 item _ la ln Hla Hln Hk Hfirst). simpl.
  destruct (fmsDestination _ _). simpl. split; reflexivity.
Qed.

Lemma source_coordinates_from_first_city_witness :
  LiveMergedRow.routeSourceLat routedRow = Some 1%float /\
  LiveMergedRow.routeSourceLat
    (attachRow (buildLocationMaps
                  ([cityItem "LUCKNOW" None (Some 1%float);
                    cityItem "Delhi" (Some 28.5%float) (Some 77.25%float)]
                   ++ lucknowItem :: [cityItem "lucknow" (Some 9%float) (Some 9%float)])
                  []) routedRow)
  = Some 26.5%float.
Proof.
  split; [reflexivity|].
  apply (source_coordinates_from_first_city
           [cityItem "LUCKNOW" None (Some 1%float);
            cityItem "Delhi" (Some 28.5%float) (Some 77.25%float)]
           [cityItem "lucknow" (Some 9%float) (Some 9%float)] [] lucknowItem routedRow
           26.5%float 80.5%float);
    try reflexivity.
  intros x Hx. apply elem_of_cons in Hx as [->|Hx]; [left; reflexivity|].
  apply elem_of_cons in Hx as [->|Hx]; [|inversion Hx].
  right. vm_compute. discriminate.
Defined.

(** ** More on the matcher *)

Section Scores.

Lemma common_size (A B : gset string) :
  length (filter (fun t => bool_decide (t ∈ B)) (elements A)) = size (A ∩ B).
Proof.
  unfold size, set_size. simpl. apply Permutation_length.
  apply NoDup_Permutation.
  - apply NoDup_filter, NoDup_elements.
  - apply NoDup_elements.
  - intros x. rewrite list_elem_of_filter, !elem_of_elements, elem_of_intersection.
    rewrite bool_decide_spec. tauto.
Qed.

Lemma jaccardSimilarity_sym (a b : list string) :
  jaccardSimilarity a b = jaccardSimilarity b a.
Proof.
  unfold jaccardSimilarity. rewrite !common_size.
  rewrite (comm_L (∩) (list_to_set b) (list_to_set a)).
  rewrite (Nat.add_comm (size (list_to_set b))). reflexivity.
Qed.

Lemma sameCode_sym (c1 c2 : string) : sameCode c1 c2 = sameCode c2 c1.
Proof.
  unfold sameCode. rewrite (String.eqb_sym c1 c2).
  destruct (JS.truthy c1), (JS.truthy c2); reflexivity.
Qed.

(** The state of the loop of tier 4 is the initial one or holds a
    candidate of the list with its score. *)
Lemma fold_best (endpointName : string) (locs : list LocationRow.t) (st : Best.t) :
  let st' := fold_left (bestStep endpointName) locs st in
  st' = st \/
  exists b, b ∈ locs /\ Best.best st' = Some b /\
            Best.bestScore st' =
              LocationMatchScore.score (computeLocationMatchScore endpointName
                                          (LocationRow.name b)).
Proof.
  revert st. induction locs as [|l locs IH]; intros st; simpl; [now left|].
  destruct (IH (bestStep endpointName st l)) as [->|(b & Hb & Hbest & Hscore)].
  - unfold bestStep.
    match goal with |- context [if ?c then _ else _] => destruct c end; [|now left].
    right. exists l. split; [now left|]. split; reflexivity.
  - right. exists b. split; [now right|]. split; assumption.
Qed.

Lemma scoreTier_Some (endpointName : string) (locs : list LocationRow.t)
    (threshold : float) (b : LocationRow.t) :
  scoreTier endpointName locs threshold = Some b ->
  b ∈ locs /\
  (LocationMatchScore.score (computeLocationMatchScore endpointName (LocationRow.name b))
   <? threshold)%float = false.
Proof.
  unfold scoreTier.
  destruct (fold_best endpointName locs bestInit) as [->|(b' & Hb & Hbest & Hscore)].
  - discriminate.
  - rewrite Hbest, Hscore.
    destruct (_ <? threshold)%float eqn:E; [discriminate|].
    intros [= <-]. now split.
Qed.

Lemma find_elem {A} (p : A -> bool) (l : list A) (x : A) :
  JS.find p l = Some x -> x ∈ l /\ p x = true.
Proof.
  intros H. apply find_some in H as [Hin Hp]. split; [|exact Hp].
  now apply list_elem_of_In.
Qed.

End Scores.

(** X15: a candidate returned by [findBestLocationMatch] is an element of
    the candidate list, the query is not blank, and the candidate
    qualifies for one of the four tiers: its trimmed name equals the
    trimmed query up to case, or up to case and whitespace, or its name
    contains the core of the query, or its score is not below the
    threshold. *)
Theorem match_is_a_qualified_candidate (endpointName : string)
    (locs : list LocationRow.t) (threshold : float) (l : LocationRow.t) :
  findBestLocationMatch endpointName locs threshold = Some l ->
  l ∈ locs /\
  JS.isEmpty (JS.trim endpointName) = false /\
  (exactMatch (JS.toLowerCase (JS.trim endpointName)) l = true \/
   exactNoSpaceMatch (JS.removeWhite (JS.toLowerCase (JS.trim endpointName))) l = true \/
   (JS.truthy (buildEndpointCoreKey endpointName) = true /\
    searchMatch (buildEndpointCoreKey endpointName) l = true) \/
   (LocationMatchScore.score (computeLocationMatchScore endpointName (LocationRow.name l))
    <? threshold)%float = false).
Proof.
  unfold findBestLocationMatch.
  destruct (JS.isEmpty (JS.trim endpointName)) eqn:Hblank; [discriminate|].
  destruct (length locs =? 0)%nat; [discriminate|]. simpl.
  destruct (JS.find (exactMatch _) locs) as [x|] eqn:F1.
  { intros [= <-]. apply find_elem in F1 as [? ?]. repeat split; auto. }
  destruct (JS.find (exactNoSpaceMatch _) locs) as [x|] eqn:F2.
  { intros [= <-]. apply find_elem in F2 as [? ?]. repeat split; auto. }
  unfold searchTier.
  destruct (JS.truthy (buildEndpointCoreKey endpointName)) eqn:Hcore.
  - destruct (JS.find (searchMatch _) locs) as [x|] eqn:F3.
    { intros [= <-]. apply find_elem in F3 as [? ?]. repeat split; auto 6. }
    intros [? ?]%scoreTier_Some. repeat split; auto 6.
  - intros [? ?]%scoreTier_Some. repeat split; auto 6.
Qed.

Lemma match_is_a_qualified_candidate_witness :
  location "DELHI" ∈ [location "New Delhi Hub"; location "DELHI"] /\
  JS.isEmpty (JS.trim "delhi") = false.
Proof.
  destruct (match_is_a_qualified_candidate "delhi"
              [location "New Delhi Hub"; location "DELHI"] defaultThreshold
              (location "DELHI") eq_refl) as (Hin & Hblank & _).
  split; assumption.
Defined.

(** X16: the score of two names does not depend on which of the two is
    the query: the code test and the Jaccard similarity of the token sets
    are symmetric. *)
Theorem computeLocationMatchScore_symmetric (endpointName candidateName : string) :
  computeLocationMatchScore endpointName candidateName
  = computeLocationMatchScore candidateName endpointName.
Proof.
  unfold computeLocationMatchScore.
  rewrite (sameCode_sym (extractCodeLower endpointName)).
  rewrite (jaccardSimilarity_sym (tokenizeNameWithoutCode endpointName)).
  reflexivity.
Qed.

(** ** Coordinates from the Location table *)

Section Enrich.

Variable locs : list LocationRow.t.

Lemma enrichRoute_idem (r : LiveRouteRoute.t) :
  enrichRoute locs (enrichRoute locs r) = enrichRoute locs r.
Proof.
  destruct r as [i s d sLat sLng dLat dLng u dn]. unfold enrichRoute. simpl.
  destruct (JS.truthy s), (JS.truthy d); simpl;
    destruct sLat as [?|], sLng as [?|], dLat as [?|], dLng as [?|]; simpl;
    try reflexivity;
    repeat match goal with
           | |- context [findBestLocationMatch ?q locs defaultThreshold] =>
               destruct (findBestLocationMatch q locs defaultThreshold); simpl
           end;
    reflexivity.
Qed.

End Enrich.

(** X17: enriching the aggregates from the Location table a second time
    changes nothing; it keeps the number of the aggregates and their order:
    the list of ids, each with its two buckets, is the one of the input. *)
Theorem enrich_is_idempotent (liveRoutes : list LiveRouteRoute.t)
    (locs : list LocationRow.t) :
  enrichLiveRoutesWithLocation (enrichLiveRoutesWithLocation liveRoutes locs) locs
  = enrichLiveRoutesWithLocation liveRoutes locs /\
  length (enrichLiveRoutesWithLocation liveRoutes locs) = length liveRoutes /\
  map (fun r => (LiveRouteRoute.id r, LiveRouteRoute.up r, LiveRouteRoute.down r))
      (enrichLiveRoutesWithLocation liveRoutes locs)
  = map (fun r => (LiveRouteRoute.id r, LiveRouteRoute.up r, LiveRouteRoute.down r))
        liveRoutes.
Proof.
  unfold enrichLiveRoutesWithLocation.
  destruct liveRoutes as [|r rest]; [repeat split; reflexivity|].
  destruct locs as [|l locs']; [repeat split; reflexivity|].
  simpl. split; [|split].
  - f_equal; [apply enrichRoute_idem|].
    rewrite map_map. apply map_ext. intros x. apply enrichRoute_idem.
  - now rewrite length_map.
  - f_equal. rewrite map_map. reflexivity.
Qed.

(** X18: enriching touches the coordinates only, and only the pairs that
    are incomplete: the id, the source, the destination and the two
    buckets of an aggregate stay, a pair of coordinates that is fully known
    stays, and a coordinate that was known is never made null. *)
Theorem enrich_fills_incomplete_pairs_only (locs : list LocationRow.t)
    (r : LiveRouteRoute.t) :
  let r' := enrichRoute locs r in
  LiveRouteRoute.id r' = LiveRouteRoute.id r /\
  LiveRouteRoute.source r' = LiveRouteRoute.source r /\
  LiveRouteRoute.destination r' = LiveRouteRoute.destination r /\
  LiveRouteRoute.up r' = LiveRouteRoute.up r /\
  LiveRouteRoute.down r' = LiveRouteRoute.down r /\
  (bothKnown (LiveRouteRoute.sourceLat r) (LiveRouteRoute.sourceLng r) = true ->
   LiveRouteRoute.sourceLat r' = LiveRouteRoute.sourceLat r /\
   LiveRouteRoute.sourceLng r' = LiveRouteRoute.sourceLng r) /\
  (bothKnown (LiveRouteRoute.destLat r) (LiveRouteRoute.destLng r) = true ->
   LiveRouteRoute.destLat r' = LiveRouteRoute.destLat r /\
   LiveRouteRoute.destLng r' = LiveRouteRoute.destLng r) /\
  (is_Some (LiveRouteRoute.sourceLat r) -> is_Some (LiveRouteRoute.sourceLat r')) /\
  (is_Some (LiveRouteRoute.sourceLng r) -> is_Some (LiveRouteRoute.sourceLng r')) /\
  (is_Some (LiveRouteRoute.destLat r) -> is_Some (LiveRouteRoute.destLat r')) /\
  (is_Some (LiveRouteRoute.destLng r) -> is_Some (LiveRouteRoute.destLng r')).
Proof.
  intros r'. subst r'. unfold enrichRoute. simpl.
  do 5 (split; [reflexivity|]).
  split; [|split].
  - intros H. rewrite H, andb_false_r. split; reflexivity.
  - intros H. rewrite H, andb_false_r. split; reflexivity.
  - repeat split; intros H;
      match goal with |- context [if ?c then _ else _] => destruct c end;
      try exact H;
      match goal with
      | |- context [findBestLocationMatch ?q locs defaultThreshold] =>
          destruct (findBestLocationMatch q locs defaultThreshold); eauto
      end.
Qed.

Lemma enrich_fills_incomplete_pairs_only_witness :
  LiveRouteRoute.sourceLat
    (enrichRoute [location "LUCKNOW-11"]
       (newRoute "R1" "LUCKNOW-11" "SAFEXPRESS AMBALA(AML11)" routedRow))
  = Some 1%float.
Proof.
  destruct (enrich_fills_incomplete_pairs_only [location "LUCKNOW-11"]
              (newRoute "R1" "LUCKNOW-11" "SAFEXPRESS AMBALA(AML11)" routedRow))
    as (_ & _ & _ & _ & _ & Hsrc & _).
  exact (proj1 (Hsrc eq_refl)).
Defined.

(** ** More on strings *)

Section MoreStrings.

Local Ltac by_cases c := destruct c as [[] [] [] [] [] [] [] []]; reflexivity.

Lemma upperChar_idem (c : ascii) : JS.upperChar (JS.upperChar c) = JS.upperChar c.
Proof. by_cases c. Qed.

Lemma isLower_upperChar (c : ascii) : JS.isLower (JS.upperChar c) = false.
Proof. by_cases c. Qed.

Lemma startsWhite_trimStart (s : string) : startsWhite (JS.trimStart s) = false.
Proof.
  induction s as [|c s IH]; simpl; [reflexivity|].
  destruct (JS.isWhite c) eqn:W; [exact IH | simpl; exact W].
Qed.

Lemma trimStart_fixed (s : string) : startsWhite s = false -> JS.trimStart s = s.
Proof. destruct s as [|c s]; simpl; [reflexivity | now intros ->]. Qed.

Lemma startsWhite_trimEnd (s : string) :
  startsWhite s = false -> startsWhite (JS.trimEnd s) = false.
Proof.
  destruct s as [|c s]; simpl; [reflexivity|]. intros W. rewrite W. simpl. exact W.
Qed.

Lemma trimEnd_idem (s : string) : JS.trimEnd (JS.trimEnd s) = JS.trimEnd s.
Proof.
  induction s as [|c s IH]; simpl; [reflexivity|].
  destruct (JS.isWhite c && JS.isEmpty (JS.trimEnd s)) eqn:E; [reflexivity|].
  simpl. rewrite IH, E. reflexivity.
Qed.

Lemma trim_idem (s : string) : JS.trim (JS.trim s) = JS.trim s.
Proof.
  unfold JS.trim.
  rewrite (trimStart_fixed (JS.trimEnd (JS.trimStart s)))
    by apply startsWhite_trimEnd, startsWhite_trimStart.
  apply trimEnd_idem.
Qed.

Lemma hasChar_trimStart (p : ascii -> bool) (s : string) :
  hasChar p s = false -> hasChar p (JS.trimStart s) = false.
Proof.
  induction s as [|c s IH]; simpl; [reflexivity|].
  intros [Hc Hs]%orb_false_elim.
  destruct (JS.isWhite c); [now apply IH | simpl; now rewrite Hc, Hs].
Qed.

Lemma hasChar_trimEnd (p : ascii -> bool) (s : string) :
  hasChar p s = false -> hasChar p (JS.trimEnd s) = false.
Proof.
  induction s as [|c s IH]; simpl; [reflexivity|].
  intros [Hc Hs]%orb_false_elim.
  destruct (JS.isWhite c && JS.isEmpty (JS.trimEnd s)); [reflexivity|].
  simpl. now rewrite Hc, IH.
Qed.

Lemma hasChar_trim (p : ascii -> bool) (s : string) :
  hasChar p s = false -> hasChar p (JS.trim s) = false.
Proof. intros H. unfold JS.trim. now apply hasChar_trimEnd, hasChar_trimStart. Qed.

Lemma hasChar_remove (p : ascii -> bool) (s : string) : hasChar p (JS.remove p s) = false.
Proof.
  induction s as [|c s IH]; simpl; [reflexivity|].
  destruct (p c) eqn:E; [exact IH | simpl; now rewrite E, IH].
Qed.

(** The parts of a split do not contain the separator. *)
Lemma split_no_sep (sep : ascii) (s : string) :
  Forall (fun part => hasChar (fun c => JS.eqc c sep) part = false) (JS.split sep s).
Proof.
  induction s as [|c s IH]; simpl; [repeat constructor|].
  destruct (JS.eqc c sep) eqn:E; [constructor; [reflexivity | exact IH]|].
  destruct (JS.split sep s) as [|h t]; simpl.
  - constructor; [simpl; now rewrite E | constructor].
  - apply Forall_cons in IH as [Hh Ht]. constructor; [simpl; now rewrite E, Hh | exact Ht].
Qed.

Lemma split_without_sep (sep : ascii) (s : string) :
  hasChar (fun c => JS.eqc c sep) s = false -> JS.split sep s = [s].
Proof.
  induction s as [|c s IH]; simpl; [reflexivity|].
  intros [Hc Hs]%orb_false_elim. rewrite Hc, (IH Hs). reflexivity.
Qed.

Lemma lastOpt_elem {A} (l : list A) (x : A) : JS.lastOpt l = Some x -> x ∈ l.
Proof.
  unfold JS.lastOpt. induction l as [|a l IH]; simpl; [discriminate|].
  destruct l as [|b l]; simpl in *.
  - intros [= ->]. now left.
  - intros H. right. now apply IH.
Qed.

Lemma lastOpt_nonempty {A} (l : list A) : l <> [] -> is_Some (JS.lastOpt l).
Proof.
  unfold JS.lastOpt. induction l as [|a l IH]; [congruence|]. intros _.
  destruct l as [|b l]; simpl in *; [eauto | apply IH; discriminate].
Qed.

Lemma split_nonempty (sep : ascii) (s : string) : JS.split sep s <> [].
Proof.
  destruct s as [|c s]; simpl; [discriminate|].
  destruct (JS.eqc c sep); [discriminate|].
  destruct (JS.split sep s); discriminate.
Qed.

End MoreStrings.

(** X19: the source extracted from a consigner and the destination
    extracted from a consignee contain no semicolon and have no whitespace
    at either end; for a name without a semicolon both are the trimmed
    name. *)
Theorem extracted_endpoints_are_clean (name : string) :
  hasChar isSemicolon (extractSourceFromConsigner name) = false /\
  JS.trim (extractSourceFromConsigner name) = extractSourceFromConsigner name /\
  hasChar isSemicolon (extractDestinationFromConsignee name) = false /\
  JS.trim (extractDestinationFromConsignee name) = extractDestinationFromConsignee name /\
  (hasChar isSemicolon name = false ->
   extractSourceFromConsigner name = JS.trim name /\
   extractDestinationFromConsignee name = JS.trim name).
Proof.
  unfold isSemicolon.
  unfold extractSourceFromConsigner, extractDestinationFromConsignee.
  pose proof (split_no_sep ";" name) as Hparts.
  destruct (JS.isEmpty name) eqn:E.
  - apply isEmpty_true in E. subst name. repeat split; reflexivity.
  - destruct (lastOpt_nonempty (JS.split ";" name) (split_nonempty ";" name)) as [x Hx].
    rewrite Hx. simpl.
    assert (Hlast : hasChar (fun c => JS.eqc c ";") x = false).
    { apply lastOpt_elem in Hx. rewrite Forall_forall in Hparts. now apply Hparts. }
    assert (Hfirst : hasChar (fun c => JS.eqc c ";") (JS.first (JS.split ";" name)) = false).
    { destruct (JS.split ";" name) as [|h t]; [reflexivity|].
      apply Forall_cons in Hparts as [Hh _]. exact Hh. }
    repeat split.
    + now apply hasChar_trim.
    + apply trim_idem.
    + now apply hasChar_trim.
    + apply trim_idem.
    + rewrite (split_without_sep ";" name H). reflexivity.
    + rewrite (split_without_sep ";" name H) in Hx. injection Hx as <-. reflexivity.
Qed.

Lemma extracted_endpoints_are_clean_witness :
  extractSourceFromConsigner "LUCKNOW-11" = JS.trim "LUCKNOW-11".
Proof.
  apply (extracted_endpoints_are_clean "LUCKNOW-11"). reflexivity.
Defined.

(** X20: the arrival picked from an ETA cell is never "NA" in any case and
    has no whitespace at either end; it is the empty string or the trimmed
    form of one of the [;]-separated parts of the cell. *)
Theorem picked_eta_is_a_clean_part (eta : string) :
  isNA (pickEtaForDestination eta) = false /\
  JS.trim (pickEtaForDestination eta) = pickEtaForDestination eta /\
  (pickEtaForDestination eta = "" \/
   exists part, part ∈ JS.split ";" eta /\ pickEtaForDestination eta = JS.trim part).
Proof.
  unfold pickEtaForDestination.
  destruct (JS.isEmpty eta); [repeat split; now left|].
  destruct (JS.lastOpt _) as [x|] eqn:L; simpl; [|repeat split; now left].
  apply lastOpt_elem in L. apply list_elem_of_filter in L as [Hp Hin].
  change (map JS.trim ?l) with (JS.trim <$> l) in Hin.
  apply list_elem_of_fmap in Hin as (part & -> & Hpart).
  apply Is_true_true, andb_true_iff in Hp as [_ Hna].
  repeat split.
  - now apply negb_true_iff in Hna.
  - apply trim_idem.
  - right. now exists part.
Qed.

Section Codes.

Lemma parenGroups_no_close (st : option string) (s : string) :
  hasChar (fun c => JS.eqc c ")") s = false -> parenGroups st s = [].
Proof.
  revert st. induction s as [|c s IH]; intros st; simpl; [reflexivity|].
  intros [Hc Hs]%orb_false_elim. rewrite Hc.
  destruct st; [now apply IH|]. destruct (JS.eqc c "("); now apply IH.
Qed.

Lemma parenGroups_no_open (s : string) :
  hasChar (fun c => JS.eqc c "(") s = false -> parenGroups None s = [].
Proof.
  induction s as [|c s IH]; simpl; [reflexivity|].
  intros [Hc Hs]%orb_false_elim. rewrite Hc. now apply IH.
Qed.

End Codes.

(** X21: the branch code read from a name contains no parenthesis and has
    no whitespace at either end, and it is empty for a name that lacks an
    opening or a closing parenthesis. *)
Theorem code_in_parens_is_clean (name : string) :
  hasChar isParen (extractCodeInParensTS name) = false /\
  JS.trim (extractCodeInParensTS name) = extractCodeInParensTS name /\
  (hasChar (fun c => JS.eqc c "(") name = false \/
   hasChar (fun c => JS.eqc c ")") name = false ->
   extractCodeInParensTS name = "").
Proof.
  unfold extractCodeInParensTS. split; [|split].
  - destruct (JS.lastOpt _); [|reflexivity]. apply hasChar_trim, hasChar_remove.
  - destruct (JS.lastOpt _); [apply trim_idem | reflexivity].
  - intros [H|H].
    + now rewrite parenGroups_no_open.
    + now rewrite parenGroups_no_close.
Qed.

Lemma code_in_parens_is_clean_witness : extractCodeInParensTS "AMBALA AML11)" = "".
Proof.
  apply (code_in_parens_is_clean "AMBALA AML11)"). left. reflexivity.
Defined.

Section Keys.

Local Ltac by_cases c := destruct c as [[] [] [] [] [] [] [] []]; reflexivity.

Lemma isKeyNoise_upperChar (c : ascii) : isKeyNoise (JS.upperChar c) = isKeyNoise c.
Proof. by_cases c. Qed.

Lemma remove_remove (p q : ascii -> bool) (s : string) :
  JS.remove p (JS.remove q s) = JS.remove (fun c => q c || p c) s.
Proof.
  induction s as [|c s IH]; simpl; [reflexivity|].
  destruct (q c); simpl; [exact IH|]. destruct (p c); [exact IH | now rewrite IH].
Qed.

Lemma normalizeLocationKey_remove (s : string) :
  normalizeLocationKey s = JS.remove isKeyNoise (JS.toUpperCase s).
Proof.
  unfold normalizeLocationKey, JS.removeWhite.
  rewrite !remove_remove. reflexivity.
Qed.

Lemma isSharpS_upperChar (c : ascii) : JS.isSharpS (JS.upperChar c) = JS.isSharpS c.
Proof. by_cases c. Qed.

Lemma isSharpS_asciiLowerChar (c : ascii) : JS.isSharpS (asciiLowerChar c) = JS.isSharpS c.
Proof. by_cases c. Qed.

Lemma upperChar_asciiLowerChar (c : ascii) :
  JS.upperChar (asciiLowerChar c) = JS.upperChar c.
Proof. by_cases c. Qed.

Lemma isKeyNoise_sharpS (c : ascii) : JS.isSharpS c = true -> isKeyNoise c = false.
Proof.
  destruct c as [[] [] [] [] [] [] [] []]; intros H;
    first [discriminate H | reflexivity].
Qed.

Lemma toUpperCase_cons (c : ascii) (s : string) :
  JS.toUpperCase (String c s) =
  if JS.isSharpS c then String "S" (String "S" (JS.toUpperCase s))
  else String (JS.upperChar c) (JS.toUpperCase s).
Proof. reflexivity. Qed.

(** Removing the characters of the key that carry no information commutes
    with the upper-case mapping. *)
Lemma toUpperCase_remove (s : string) :
  JS.toUpperCase (JS.remove isKeyNoise s) = JS.remove isKeyNoise (JS.toUpperCase s).
Proof.
  induction s as [|c s IH]; [reflexivity|].
  rewrite toUpperCase_cons. cbn [JS.remove].
  destruct (JS.isSharpS c) eqn:E.
  - rewrite (isKeyNoise_sharpS c E), toUpperCase_cons, E, IH. reflexivity.
  - destruct (isKeyNoise c) eqn:N.
    + cbn [JS.remove]. now rewrite isKeyNoise_upperChar, N.
    + rewrite toUpperCase_cons, E. cbn [JS.remove].
      now rewrite isKeyNoise_upperChar, N, IH.
Qed.

Lemma toUpperCase_idem (s : string) :
  JS.toUpperCase (JS.toUpperCase s) = JS.toUpperCase s.
Proof.
  induction s as [|c s IH]; [reflexivity|].
  rewrite toUpperCase_cons. destruct (JS.isSharpS c) eqn:E.
  - rewrite !toUpperCase_cons, IH. reflexivity.
  - rewrite toUpperCase_cons, isSharpS_upperChar, E, upperChar_idem, IH. reflexivity.
Qed.

Lemma toUpperCase_asciiLowerCase (s : string) :
  JS.toUpperCase (asciiLowerCase s) = JS.toUpperCase s.
Proof.
  unfold asciiLowerCase. induction s as [|c s IH]; [reflexivity|].
  cbn [JS.smap]. rewrite !toUpperCase_cons.
  now rewrite isSharpS_asciiLowerChar, upperChar_asciiLowerChar, IH.
Qed.

(** No lower-case ASCII letter is left by the upper-case mapping. *)
Lemma hasChar_remove_toUpperCase (s : string) :
  hasChar (fun c => isKeyNoise c || JS.isLower c)
          (JS.remove isKeyNoise (JS.toUpperCase s)) = false.
Proof.
  induction s as [|c s IH]; [reflexivity|].
  rewrite toUpperCase_cons. destruct (JS.isSharpS c).
  - exact IH.
  - cbn [JS.remove]. destruct (isKeyNoise (JS.upperChar c)) eqn:N; [exact IH|].
    cbn [hasChar]. now rewrite N, isLower_upperChar, IH.
Qed.

Lemma remove_idem (p : ascii -> bool) (s : string) :
  JS.remove p (JS.remove p s) = JS.remove p s.
Proof.
  induction s as [|c s IH]; simpl; [reflexivity|].
  destruct (p c) eqn:E; simpl; [exact IH | now rewrite E, IH].
Qed.

End Keys.

(** X22: [normalizeLocationKey] is idempotent, gives the same key for a
    name and for the name with its ASCII letters changed to lower case,
    gives the same key when characters it removes (whitespace, hyphen,
    period, underscore) are inserted or dropped, and its result holds none
    of these characters and no lower-case ASCII letter. *)
Theorem normalizeLocationKey_canonical (s : string) :
  normalizeLocationKey (normalizeLocationKey s) = normalizeLocationKey s /\
  normalizeLocationKey (asciiLowerCase s) = normalizeLocationKey s /\
  normalizeLocationKey (JS.remove isKeyNoise s) = normalizeLocationKey s /\
  hasChar (fun c => isKeyNoise c || JS.isLower c) (normalizeLocationKey s) = false.
Proof.
  rewrite !normalizeLocationKey_remove. repeat split.
  - now rewrite toUpperCase_remove, remove_idem, toUpperCase_idem.
  - now rewrite toUpperCase_asciiLowerCase.
  - rewrite toUpperCase_remove. apply remove_idem.
  - apply hasChar_remove_toUpperCase.
Qed.

Section CaseOfNames.

Variable f : ascii -> ascii.
Hypothesis f_white : forall c, JS.isWhite (f c) = JS.isWhite c.
Hypothesis f_semicolon : forall c, JS.eqc (f c) ";" = JS.eqc c ";".

Lemma trimStart_smap (s : string) : JS.trimStart (JS.smap f s) = JS.smap f (JS.trimStart s).
Proof using f_white.
  induction s as [|c s IH]; simpl; [reflexivity|].
  rewrite f_white. destruct (JS.isWhite c); [exact IH | reflexivity].
Qed.

Lemma trimEnd_smap (s : string) : JS.trimEnd (JS.smap f s) = JS.smap f (JS.trimEnd s).
Proof using f_white.
  induction s as [|c s IH]; simpl; [reflexivity|].
  rewrite f_white, IH, isEmpty_smap.
  destruct (JS.isWhite c && JS.isEmpty (JS.trimEnd s)); reflexivity.
Qed.

Lemma trim_smap (s : string) : JS.trim (JS.smap f s) = JS.smap f (JS.trim s).
Proof using f_white. unfold JS.trim. now rewrite trimStart_smap, trimEnd_smap. Qed.

Lemma split_smap (s : string) :
  JS.split ";" (JS.smap f s) = map (JS.smap f) (JS.split ";" s).
Proof using f_semicolon.
  induction s as [|c s IH]; simpl; [reflexivity|].
  rewrite f_semicolon, IH. destruct (JS.eqc c ";"); [reflexivity|].
  destruct (JS.split ";" s); reflexivity.
Qed.

Lemma lastOpt_map {A B} (g : A -> B) (l : list A) :
  JS.lastOpt (map g l) = g <$> JS.lastOpt l.
Proof.
  unfold JS.lastOpt. induction l as [|a l IH]; simpl; [reflexivity|].
  destruct l as [|b l]; [reflexivity | exact IH].
Qed.

Lemma extractSource_smap (name : string) :
  extractSourceFromConsigner (JS.smap f name) = JS.smap f (extractSourceFromConsigner name).
Proof using f_white f_semicolon.
  unfold extractSourceFromConsigner. rewrite isEmpty_smap.
  destruct (JS.isEmpty name); [reflexivity|].
  rewrite split_smap, <- trim_smap. f_equal.
  destruct (JS.split ";" name); reflexivity.
Qed.

Lemma extractDestination_smap (name : string) :
  extractDestinationFromConsignee (JS.smap f name)
  = JS.smap f (extractDestinationFromConsignee name).
Proof using f_white f_semicolon.
  unfold extractDestinationFromConsignee. rewrite isEmpty_smap.
  destruct (JS.isEmpty name); [reflexivity|].
  rewrite split_smap, lastOpt_map, <- trim_smap. f_equal.
  destruct (JS.lastOpt (JS.split ";" name)); reflexivity.
Qed.

End CaseOfNames.

Section CaseFacts.

Local Ltac by_cases c := destruct c as [[] [] [] [] [] [] [] []]; reflexivity.

Lemma eqc_asciiLowerChar_semicolon (c : ascii) :
  JS.eqc (asciiLowerChar c) ";" = JS.eqc c ";".
Proof. by_cases c. Qed.

Lemma eqc_asciiUpperChar_semicolon (c : ascii) :
  JS.eqc (asciiUpperChar c) ";" = JS.eqc c ";".
Proof. by_cases c. Qed.

Lemma lowerChar_idem (c : ascii) : JS.lowerChar (JS.lowerChar c) = JS.lowerChar c.
Proof. by_cases c. Qed.

Lemma lowerChar_asciiLowerChar (c : ascii) :
  JS.lowerChar (asciiLowerChar c) = JS.lowerChar c.
Proof. by_cases c. Qed.

Lemma toLowerCase_asciiLowerCase (s : string) :
  JS.toLowerCase (asciiLowerCase s) = JS.toLowerCase s.
Proof.
  unfold JS.toLowerCase, asciiLowerCase.
  induction s as [|c s IH]; simpl; [reflexivity | now rewrite lowerChar_asciiLowerChar, IH].
Qed.

Lemma normalizeSimple_asciiLowerCase (s : string) :
  normalizeSimple (asciiLowerCase s) = normalizeSimple s.
Proof. unfold normalizeSimple. now rewrite toLowerCase_asciiLowerCase. Qed.

End CaseFacts.

(** X23: the key under which a shipment is looked up in the route index
    does not depend on the case of the ASCII letters of its consigner and
    consignee: the keys of the two names with their ASCII letters changed
    to upper case, or to lower case, are the key of the names themselves,
    so the same route is found. *)
Theorem match_key_ignores_case (consignerName consigneeName : string) :
  shipmentKey (asciiUpperCase consignerName) (asciiUpperCase consigneeName)
    = shipmentKey consignerName consigneeName /\
  shipmentKey (asciiLowerCase consignerName) (asciiLowerCase consigneeName)
    = shipmentKey consignerName consigneeName /\
  (forall routeIndex rec,
     LiveMergedRow.matchKey (mergeRow routeIndex rec)
     = shipmentKey (ParsedRow.consignerName rec) (ParsedRow.consigneeName rec)).
Proof.
  unfold shipmentKey, asciiUpperCase, asciiLowerCase. split; [|split].
  - rewrite (extractSource_smap _ isWhite_asciiUpperChar eqc_asciiUpperChar_semicolon),
            (extractDestination_smap _ isWhite_asciiUpperChar
               eqc_asciiUpperChar_semicolon).
    unfold makeRouteKey.
    now rewrite !(normalizeSimple_asciiUpperCase).
  - rewrite (extractSource_smap _ isWhite_asciiLowerChar eqc_asciiLowerChar_semicolon),
            (extractDestination_smap _ isWhite_asciiLowerChar
               eqc_asciiLowerChar_semicolon).
    unfold makeRouteKey.
    now rewrite !(normalizeSimple_asciiLowerCase).
  - reflexivity.
Qed.

(** ** Unmatched route patterns *)

Section Blank.

Local Ltac by_cases c := destruct c as [[] [] [] [] [] [] [] []]; try reflexivity; discriminate.

Lemma semicolon_not_white (c : ascii) : JS.isWhite c = true -> JS.eqc c ";" = false.
Proof. by_cases c. Qed.

Lemma allWhite_cons (c : ascii) (s : string) :
  allWhite (String c s) = JS.isWhite c && allWhite s.
Proof.
  unfold allWhite, JS.removeWhite. simpl. destruct (JS.isWhite c); reflexivity.
Qed.

Lemma isEmpty_trimEnd (s : string) : JS.isEmpty (JS.trimEnd s) = allWhite s.
Proof.
  induction s as [|c s IH]; [reflexivity|].
  rewrite allWhite_cons, <- IH. simpl.
  destruct (JS.isWhite c && JS.isEmpty (JS.trimEnd s)); reflexivity.
Qed.

Lemma allWhite_trimStart (s : string) : allWhite (JS.trimStart s) = allWhite s.
Proof.
  induction s as [|c s IH]; [reflexivity|].
  rewrite allWhite_cons. simpl. destruct (JS.isWhite c) eqn:W; [exact IH|].
  now rewrite allWhite_cons, W.
Qed.

Lemma isEmpty_trim (s : string) : JS.isEmpty (JS.trim s) = allWhite s.
Proof. unfold JS.trim. now rewrite isEmpty_trimEnd, allWhite_trimStart. Qed.

Lemma allWhite_no_semicolon (s : string) :
  allWhite s = true -> hasChar isSemicolon s = false.
Proof.
  induction s as [|c s IH]; [reflexivity|].
  rewrite allWhite_cons. intros [W Hs]%andb_true_iff. simpl.
  unfold isSemicolon at 1. rewrite (semicolon_not_white c W). now apply IH.
Qed.

Lemma extractSource_trimmed (name : string) :
  JS.trim (extractSourceFromConsigner name) = extractSourceFromConsigner name.
Proof.
  unfold extractSourceFromConsigner.
  destruct (JS.isEmpty name); [reflexivity | apply trim_idem].
Qed.

Lemma extractDestination_trimmed (name : string) :
  JS.trim (extractDestinationFromConsignee name) = extractDestinationFromConsignee name.
Proof.
  unfold extractDestinationFromConsignee.
  destruct (JS.isEmpty name); [reflexivity | apply trim_idem].
Qed.

Lemma extractSource_blank (name : string) :
  allWhite name = true -> extractSourceFromConsigner name = "".
Proof.
  intros H. unfold extractSourceFromConsigner.
  destruct (JS.isEmpty name); [reflexivity|].
  rewrite (split_without_sep ";" name (allWhite_no_semicolon name H)). simpl.
  apply isEmpty_true. now rewrite isEmpty_trim.
Qed.

Lemma extractDestination_blank (name : string) :
  allWhite name = true -> extractDestinationFromConsignee name = "".
Proof.
  intros H. unfold extractDestinationFromConsignee.
  destruct (JS.isEmpty name); [reflexivity|].
  rewrite (split_without_sep ";" name (allWhite_no_semicolon name H)). simpl.
  apply isEmpty_true. now rewrite isEmpty_trim.
Qed.

(** The endpoint [buildUnmatchedRouteInfo] derives from an extracted field
    and the raw name it was extracted from. *)
Lemma endpoint_blank_iff (extract : string -> string) (name : string) :
  JS.trim (extract name) = extract name ->
  (allWhite name = true -> extract name = "") ->
  JS.truthy (JS.trim (orElse (extract name) (orElse (extract name) name)))
  = negb (allWhite name).
Proof.
  intros Htrim Hblank. unfold orElse, JS.truthy.
  destruct (JS.isEmpty (extract name)) eqn:E; simpl.
  - now rewrite isEmpty_trim.
  - rewrite Htrim, E. simpl.
    destruct (allWhite name) eqn:W; [|reflexivity].
    rewrite (Hblank eq_refl) in E. discriminate.
Qed.

Lemma join_two (sep a b : string) : join sep [a; b] = a +:+ sep +:+ b.
Proof. reflexivity. Qed.

End Blank.

(** X24: an unmatched pair made from a merged row yields no route pattern
    exactly when its consigner or its consignee is blank; a pattern that is
    built has a non-empty source and destination without whitespace at
    either end, and its name is the source, the middle stops and the
    destination joined by [/]. *)
Theorem unmatched_pattern_iff_names_not_blank
    (routeIndex : gmap string RouteIndexItem.t) (rec : ParsedRow.t) :
  let pair := toUnmatchedPair (mergeRow routeIndex rec) in
  (buildUnmatchedRouteInfo pair = None <->
   allWhite (ParsedRow.consignerName rec) = true \/
   allWhite (ParsedRow.consigneeName rec) = true) /\
  (forall info, buildUnmatchedRouteInfo pair = Some info ->
     JS.truthy (UnmatchedRouteInfo.source info) = true /\
     JS.truthy (UnmatchedRouteInfo.destination info) = true /\
     JS.trim (UnmatchedRouteInfo.source info) = UnmatchedRouteInfo.source info /\
     JS.trim (UnmatchedRouteInfo.destination info) = UnmatchedRouteInfo.destination info /\
     UnmatchedRouteInfo.routeName info =
       join "/" ([UnmatchedRouteInfo.source info]
                 ++ middleStopsOf (ParsedRow.consigneeName rec)
                 ++ [UnmatchedRouteInfo.destination info])).
Proof.
  intros pair. subst pair. unfold buildUnmatchedRouteInfo, toUnmatchedPair, mergeRow.
  cbn [UnmatchedRoutePair.sourceExtracted UnmatchedRoutePair.destinationExtracted
       UnmatchedRoutePair.consignerName UnmatchedRoutePair.consigneeName
       LiveMergedRow.sourceExtracted LiveMergedRow.destinationExtracted
       LiveMergedRow.rec].
  set (c := ParsedRow.consignerName rec). set (e := ParsedRow.consigneeName rec).
  pose proof (endpoint_blank_iff extractSourceFromConsigner c
                (extractSource_trimmed c) (extractSource_blank c)) as Hs.
  pose proof (endpoint_blank_iff extractDestinationFromConsignee e
                (extractDestination_trimmed e) (extractDestination_blank e)) as Hd.
  rewrite Hs, Hd, !negb_involutive. split.
  - destruct (allWhite c), (allWhite e); simpl; split; intros H;
      try reflexivity; try discriminate; auto.
    destruct H; discriminate.
  - intros info.
    destruct (allWhite c) eqn:Wc, (allWhite e) eqn:We; simpl; try discriminate.
    intros [= <-]. simpl.
    rewrite Hs, Hd, !trim_idem. repeat split.
    destruct (middleStopsOf e) as [|m ms]; reflexivity.
Qed.

Lemma unmatched_pattern_iff_names_not_blank_witness :
  buildUnmatchedRouteInfo (toUnmatchedPair (mergeRow ∅ blankShipment)) = Some examplePattern /\
  JS.truthy (UnmatchedRouteInfo.source examplePattern) = true.
Proof.
  assert (H : buildUnmatchedRouteInfo (toUnmatchedPair (mergeRow ∅ blankShipment))
              = Some examplePattern) by (vm_compute; reflexivity).
  split; [exact H|].
  exact (proj1 (proj2 (unmatched_pattern_iff_names_not_blank ∅ blankShipment)
                  examplePattern H)).
Defined.

(** ** Column headers *)

Section Headers.

Local Ltac by_cases c := destruct c as [[] [] [] [] [] [] [] []]; try reflexivity; discriminate.

Lemma eqc_space (c : ascii) : JS.eqc c " " = true -> c = " "%char.
Proof. by_cases c. Qed.

Lemma collapse_singleSpaced (b : bool) (s : string) :
  singleSpaced b (JS.collapseRuns JS.isWhite b s) = true.
Proof.
  revert b. induction s as [|c s IH]; intros b; simpl; [reflexivity|].
  destruct (JS.isWhite c) eqn:W.
  - destruct b; [apply IH|]. simpl. apply IH.
  - simpl. rewrite W. apply IH.
Qed.

Lemma singleSpaced_collapse (b : bool) (s : string) :
  singleSpaced b s = true -> JS.collapseRuns JS.isWhite b s = s.
Proof.
  revert b. induction s as [|c s IH]; intros b; simpl; [reflexivity|].
  destruct (JS.isWhite c) eqn:W.
  - intros [[Hb Hc]%andb_true_iff Hs]%andb_true_iff.
    apply negb_true_iff in Hb. subst b. apply eqc_space in Hc. subst c.
    now rewrite (IH true Hs).
  - intros Hs. now rewrite (IH false Hs).
Qed.

Lemma singleSpaced_weaken (s : string) :
  singleSpaced true s = true -> singleSpaced false s = true.
Proof.
  destruct s as [|c s]; simpl; [reflexivity|].
  destruct (JS.isWhite c); [discriminate | auto].
Qed.

Lemma singleSpaced_trimStart (b b' : bool) (s : string) :
  singleSpaced b s = true -> singleSpaced b' (JS.trimStart s) = true.
Proof.
  revert b. induction s as [|c s IH]; intros b; simpl; [reflexivity|].
  destruct (JS.isWhite c) eqn:W.
  - intros [_ Hs]%andb_true_iff. exact (IH true Hs).
  - intros Hs. simpl. now rewrite W.
Qed.

Lemma singleSpaced_trimEnd (b : bool) (s : string) :
  singleSpaced b s = true -> singleSpaced b (JS.trimEnd s) = true.
Proof.
  revert b. induction s as [|c s IH]; intros b; simpl; [reflexivity|].
  destruct (JS.isWhite c) eqn:W.
  - intros [Hbc Hs]%andb_true_iff.
    destruct (JS.isEmpty (JS.trimEnd s)); simpl; [reflexivity|].
    rewrite W, Hbc. simpl. now apply IH.
  - intros Hs. simpl. rewrite W. now apply IH.
Qed.

Lemma trimmed_collapse_fixed (h : string) :
  JS.collapseWhite (JS.trim (JS.collapseWhite h)) = JS.trim (JS.collapseWhite h).
Proof.
  unfold JS.collapseWhite at 1. apply singleSpaced_collapse.
  unfold JS.trim. apply singleSpaced_trimEnd.
  apply (singleSpaced_trimStart false). apply collapse_singleSpaced.
Qed.

Lemma collapse_smap (f : ascii -> ascii) (b : bool) (s : string) :
  (forall c, JS.isWhite (f c) = JS.isWhite c) -> f " "%char = " "%char ->
  JS.collapseRuns JS.isWhite b (JS.smap f s) = JS.smap f (JS.collapseRuns JS.isWhite b s).
Proof.
  intros Hw Hsp. revert b. induction s as [|c s IH]; intros b; simpl; [reflexivity|].
  rewrite Hw. destruct (JS.isWhite c).
  - destruct b; [apply IH|]. simpl. now rewrite Hsp, IH.
  - simpl. now rewrite IH.
Qed.

Lemma smap_lower_idem (s : string) :
  JS.smap JS.lowerChar (JS.smap JS.lowerChar s) = JS.smap JS.lowerChar s.
Proof.
  induction s as [|c s IH]; simpl; [reflexivity | now rewrite lowerChar_idem, IH].
Qed.

Lemma smap_lower_upper (s : string) :
  JS.smap JS.lowerChar (JS.smap asciiUpperChar s) = JS.smap JS.lowerChar s.
Proof. exact (toLowerCase_asciiUpperCase s). Qed.

End Headers.

(** X25: [normalizeHeader] is idempotent and does not depend on the case
    of the ASCII letters of the header, so a column is found whatever the
    case of its title and the amount of whitespace between its words. *)
Theorem normalizeHeader_canonical (h : string) :
  normalizeHeader (normalizeHeader h) = normalizeHeader h /\
  normalizeHeader (asciiUpperCase h) = normalizeHeader h /\
  normalizeHeader (JS.collapseWhite h) = normalizeHeader h /\
  singleSpaced false (normalizeHeader h) = true.
Proof.
  unfold normalizeHeader, JS.toLowerCase, asciiUpperCase. repeat split.
  - unfold JS.collapseWhite at 1.
    rewrite (collapse_smap _ _ _ isWhite_lowerChar eq_refl).
    fold (JS.collapseWhite (JS.trim (JS.collapseWhite h))).
    rewrite trimmed_collapse_fixed.
    rewrite (trim_smap _ isWhite_lowerChar), trim_idem. apply smap_lower_idem.
  - unfold JS.collapseWhite.
    rewrite (collapse_smap _ _ _ isWhite_asciiUpperChar eq_refl).
    rewrite (trim_smap _ isWhite_asciiUpperChar). apply smap_lower_upper.
  - do 2 f_equal. unfold JS.collapseWhite at 1.
    apply singleSpaced_collapse, collapse_singleSpaced.
  - rewrite <- (trim_smap _ isWhite_lowerChar).
    unfold JS.trim. apply singleSpaced_trimEnd, (singleSpaced_trimStart false).
    unfold JS.collapseWhite.
    rewrite <- (collapse_smap _ _ _ isWhite_lowerChar eq_refl).
    apply collapse_singleSpaced.
Qed.

(** ** The pipeline of [main] *)

Section Pipeline.

Lemma merged_aggregatedId (routes : list RouteIndexItem.t) (rec : ParsedRow.t) :
  let row := mergeRow (buildRouteIndex routes) rec in
  aggregatedId row = (if hasRouteId row then LiveMergedRow.routeId row else None).
Proof.
  unfold aggregatedId, aggregated, hasRouteId, mergeRow. simpl.
  destruct (buildRouteIndex routes !! _) as [r|] eqn:L; [|reflexivity]. simpl.
  apply buildRouteIndex_Some in L as [_ Hk].
  destruct (routeKey_Some r _ Hk) as (s & d & -> & -> & Hs & Hd & _). simpl.
  rewrite Hs, Hd. destruct (JS.truthy (RouteIndexItem.id r)); reflexivity.
Qed.

Lemma attachRow_placed (loc : LocationMaps.t) (row : LiveMergedRow.t) :
  placed (attachRow loc row) = placed row.
Proof. rewrite attachRow_fields. reflexivity. Qed.

Lemma attachRow_aggregatedAs (loc : LocationMaps.t) (i : string) (row : LiveMergedRow.t) :
  aggregatedAs i (attachRow loc row) = aggregatedAs i row.
Proof. rewrite attachRow_fields. reflexivity. Qed.

Lemma attachRow_side (loc : LocationMaps.t) (row : LiveMergedRow.t) :
  LiveMergedRow.routeSide (attachRow loc row) = LiveMergedRow.routeSide row.
Proof. rewrite attachRow_fields. reflexivity. Qed.

Lemma filter_length_map {A B} (f : A -> B) (p : B -> bool) (l : list A) :
  length (filter p (map f l)) = length (filter (fun x => p (f x)) l).
Proof.
  induction l as [|x l IH]; [reflexivity|]. simpl.
  destruct (p (f x)) eqn:E.
  - rewrite !filter_cons_True by (simpl; rewrite E; exact I). simpl. now rewrite IH.
  - rewrite !filter_cons_False by (simpl; rewrite E; exact id). exact IH.
Qed.

Lemma merged_placed (routes : list RouteIndexItem.t) (rec : ParsedRow.t) :
  let row := mergeRow (buildRouteIndex routes) rec in
  placed row = hasRouteId row && hasSide row.
Proof.
  intros row. pose proof (merged_aggregatedId routes rec) as H. cbv zeta in H.
  fold row in H. unfold placed, hasSide, aggregatedId in *.
  destruct (hasRouteId row) eqn:Hid.
  - destruct (aggregated row) as [[[i ?] ?]|]; [reflexivity|].
    unfold hasRouteId in Hid. rewrite <- H in Hid. discriminate Hid.
  - destruct (aggregated row) as [[[i ?] ?]|]; [discriminate H | reflexivity].
Qed.

End Pipeline.

Section Placement.

Variable coordsByVehicle : gmap string VehiclePos.t.

Lemma entry_in_entriesOf (i : string) (side : TripSide) (row : LiveMergedRow.t)
    (merged : list LiveMergedRow.t) :
  row ∈ merged -> rowOf i side row = true ->
  makeVehicleEntry coordsByVehicle row ∈ entriesOf coordsByVehicle i side merged.
Proof.
  intros Hin Hrow. unfold entriesOf.
  change (map ?f ?l) with (f <$> l). apply list_elem_of_fmap_2.
  apply list_elem_of_filter. split; [now rewrite Hrow | exact Hin].
Qed.

Lemma routeById_Some (i : string) (routes : list LiveRouteRoute.t) (r : LiveRouteRoute.t) :
  routeById i routes = Some r -> r ∈ routes /\ LiveRouteRoute.id r = i.
Proof.
  unfold routeById. intros H. apply find_some in H as [Hin Heq].
  apply String.eqb_eq in Heq. split; [now apply list_elem_of_In | now symmetry].
Qed.

Lemma aggregatedId_aggregatedAs (i : string) (row : LiveMergedRow.t) :
  aggregatedId row = Some i -> aggregatedAs i row = true.
Proof.
  unfold aggregatedId, aggregatedAs.
  destruct (aggregated row) as [[[i' ?] ?]|]; [|discriminate].
  intros [= ->]. apply String.eqb_refl.
Qed.

(** A row that passes the guard has its aggregate in the output, and when
    its route declares a side its entry is in the bucket of that side. *)
Lemma aggregate_row_in_output (i : string) (row : LiveMergedRow.t)
    (merged : list LiveMergedRow.t) :
  row ∈ merged -> aggregatedAs i row = true ->
  exists r, r ∈ aggregateLiveRoutes merged coordsByVehicle /\
            LiveRouteRoute.id r = i /\
            (forall side, LiveMergedRow.routeSide row = Some side ->
               makeVehicleEntry coordsByVehicle row
                 ∈ LiveRouteSideBucket.vehicles (bucketOfSide side r)).
Proof.
  intros Hin Has.
  destruct (proj2 (aggregate_ids coordsByVehicle merged i)) as (r0 & Hr0 & Hid0);
    [exists row; now split|].
  pose proof (bucketsOf_aggregate coordsByVehicle merged i) as Hb.
  unfold bucketsOf in Hb.
  pose proof (f_equal (fun p => LiveRouteSideBucket.vehicles (fst p)) Hb) as Hup.
  pose proof (f_equal (fun p => LiveRouteSideBucket.vehicles (snd p)) Hb) as Hdown.
  clear Hb.
  destruct (routeById i (aggregateLiveRoutes merged coordsByVehicle)) as [r|] eqn:E;
    simpl in Hup, Hdown.
  - apply routeById_Some in E as [Hr Hid]. exists r. split; [exact Hr|]. split; [exact Hid|].
    intros side Hside.
    assert (Hrow : rowOf i side row = true)
      by (unfold rowOf; rewrite Has, Hside; destruct side; reflexivity).
    pose proof (entry_in_entriesOf i side row merged Hin Hrow) as Hentry.
    destruct side; simpl; [now rewrite Hup | now rewrite Hdown].
  - exfalso. unfold routeById in E.
    pose proof (find_none _ _ E r0 (proj1 (list_elem_of_In _ _) Hr0)) as Hne.
    simpl in Hne. rewrite Hid0, String.eqb_refl in Hne. discriminate Hne.
Qed.

End Placement.

(** X26: the pure steps of [main] place every record of the sheet. After
    merging with the route table and attaching the FMS coordinates, a record
    whose merged row has no route id has an entry with its key in the
    output of [collectUnmatched]; a record whose merged row has a route id
    has an aggregate with this id in the output of [aggregateLiveRoutes],
    and when its route declares a side the vehicle entry of the record is
    listed in the bucket of that side. A record matched to a route without
    a side is listed in no bucket: the vehicle counters of the output add
    up to the number of records with a route id and a side. *)
Theorem main_accounts_for_every_record (records : list ParsedRow.t)
    (routes : list RouteIndexItem.t) (locationMaps : LocationMaps.t)
    (coordsByVehicle : gmap string VehiclePos.t) :
  let routeIndex := buildRouteIndex routes in
  let merged := mergedRows records routes locationMaps in
  let liveRoutes := aggregateLiveRoutes merged coordsByVehicle in
  (forall rec, rec ∈ records ->
     let row := mergeRow routeIndex rec in
     if hasRouteId row then
       exists i r, LiveMergedRow.routeId row = Some i /\
                   r ∈ liveRoutes /\ LiveRouteRoute.id r = i /\
                   (forall side, LiveMergedRow.routeSide row = Some side ->
                      makeVehicleEntry coordsByVehicle row
                        ∈ LiveRouteSideBucket.vehicles (bucketOfSide side r))
     else unmatchedKey row ∈ map pairKey (collectUnmatched merged)) /\
  sum_list (map vehicleCount liveRoutes)
  = length (filter (fun rec => let row := mergeRow routeIndex rec in
                               hasRouteId row && hasSide row) records).
Proof.
  intros routeIndex merged liveRoutes. subst routeIndex merged liveRoutes.
  unfold mergedRows, attachLocationCoordsFromFms. split.
  - intros rec Hrec. cbv zeta. set (row := mergeRow (buildRouteIndex routes) rec).
    assert (Hrow : row ∈ mergeWithRoutes records (buildRouteIndex routes)).
    { unfold mergeWithRoutes. change (map ?f ?l) with (f <$> l).
      now apply list_elem_of_fmap_2. }
    assert (Hagg : hasRouteId row = true -> aggregatedId row = LiveMergedRow.routeId row)
      by (intros Ht; pose proof (merged_aggregatedId routes rec) as H; cbv zeta in H;
          fold row in H; now rewrite Ht in H).
    destruct (hasRouteId row) eqn:Hid.
    + destruct (LiveMergedRow.routeId row) as [i|] eqn:Hi;
        [|unfold hasRouteId in Hid; rewrite Hi in Hid; discriminate].
      specialize (Hagg eq_refl).
      assert (Has : aggregatedAs i row = true)
        by (now apply aggregatedId_aggregatedAs).
      assert (Hin : attachRow locationMaps row
                    ∈ map (attachRow locationMaps)
                        (mergeWithRoutes records (buildRouteIndex routes))).
      { change (map ?f ?l) with (f <$> l). now apply list_elem_of_fmap_2. }
      destruct (aggregate_row_in_output coordsByVehicle i _ _ Hin) as (r & Hr & Hri & Hv).
      { now rewrite attachRow_aggregatedAs. }
      exists i, r. repeat split; [exact Hr | exact Hri |].
      intros side Hside. rewrite <- (attachRow_entry locationMaps). apply Hv.
      now rewrite attachRow_side.
    + rewrite collectUnmatched_freshRows, attach_freshRows, map_map.
      destruct (freshRows_cover ∅ _ row Hrow Hid) as [H|H]; [|exact H].
      now apply not_elem_of_empty in H.
  - unfold aggregateLiveRoutes. rewrite map_map.
    pose proof (fold_total coordsByVehicle
                  (map (attachRow locationMaps)
                     (mergeWithRoutes records (buildRouteIndex routes))) []) as H.
    unfold totalOf in H. simpl in H. rewrite H.
    rewrite filter_length_map. unfold mergeWithRoutes. rewrite filter_length_map.
    f_equal. apply list_filter_iff. intros rec.
    rewrite attachRow_placed, (merged_placed routes rec). reflexivity.
Qed.

Lemma main_accounts_for_every_record_witness :
  exists i r,
    LiveMergedRow.routeId (mergeRow exampleIndex blankShipment) = Some i /\
    r ∈ aggregateLiveRoutes
          (mergedRows [blankShipment]
             [exampleRoute "LUCKNOW-11" "SAFEXPRESS AMBALA(AML11)"]
             exampleLocationMaps) ∅ /\
    LiveRouteRoute.id r = i /\
    (forall side,
       LiveMergedRow.routeSide (mergeRow exampleIndex blankShipment) = Some side ->
       makeVehicleEntry ∅ (mergeRow exampleIndex blankShipment)
         ∈ LiveRouteSideBucket.vehicles (bucketOfSide side r)).
Proof.
  pose proof (proj1 (main_accounts_for_every_record [blankShipment]
                       [exampleRoute "LUCKNOW-11" "SAFEXPRESS AMBALA(AML11)"]
                       exampleLocationMaps ∅)
                blankShipment (list_elem_of_here _ _)) as W.
  cbv zeta in W. fold exampleIndex in W.
  assert (Hid : hasRouteId (mergeRow exampleIndex blankShipment) = true)
    by (vm_compute; reflexivity).
  rewrite Hid in W. exact W.
Defined.
